(** * Snapshot lifecycle engine of the save-game backup manager

    A shallow embedding of [backup.py]: the directory hasher, the resilient
    single-file copier, snapshot listing, snapshot creation (staging, publish,
    metadata, retention), the startup recovery scan and the delete phase of
    restore, followed by the properties the specification states about them.

    Conventions of the embedding.
    - A Python [str] is a [string] holding its UTF-8 bytes, so that the
      code-point order of Python coincides with the byte order used here.
    - A directory is an association list in the order the operating system
      enumerates it ([os.scandir], [Path.iterdir], [os.walk]); that order is
      arbitrary, which is why it is kept.
    - Library calls that can fail take their outcome from an oracle record,
      one field per call site; library functions without source in the
      repository ([hashlib.sha256], [json.dumps]) are fields of [Runtime]. *)

From Stdlib Require Import List Bool Arith ZArith NArith Lia.
From Stdlib.Strings Require Import String Ascii Byte.
From Stdlib Require Import Permutation Sorted QArith DecimalString.
Import ListNotations.

Close Scope Q_scope.
Local Open Scope string_scope.
Local Open Scope list_scope.

Set Warnings "-register-all,-abstract-large-number".
Local Abbreviation length := List.length.

(* ================================================================== *)
(** * Part I: the embedding *)
(* ================================================================== *)

(** ** Strings, names and their order *)

Definition str_lt (a b : string) : Prop := String.compare a b = Lt.

(** [list.sort()] on names. Python sorts with a stable merge sort; on a
    total order whose equal elements are identical the result is the unique
    sorted arrangement, computed here by insertion. *)
Fixpoint insert_by {A : Type} (key : A -> string) (x : A) (l : list A) : list A :=
  match l with
  | [] => [x]
  | y :: l' =>
      if String.leb (key x) (key y) then x :: l else y :: insert_by key x l'
  end.

Definition sort_by {A : Type} (key : A -> string) (l : list A) : list A :=
  fold_right (insert_by key) [] l.

Definition sort_names (l : list string) : list string := sort_by (fun s => s) l.

(** [s.startswith(p)] *)
Fixpoint startswith (p s : string) : bool :=
  match p with
  | EmptyString => true
  | String a p' =>
      match s with
      | EmptyString => false
      | String b s' => Ascii.eqb a b && startswith p' s'
      end
  end.

(** [s.replace('\\', '/')] *)
Fixpoint replace_backslash (s : string) : string :=
  match s with
  | EmptyString => EmptyString
  | String c s' =>
      String (if Ascii.eqb c "\"%char then "/"%char else c) (replace_backslash s')
  end.

(** [str.encode('utf-8')] of a string that already holds UTF-8 bytes. *)
Definition encode (s : string) : list byte := list_byte_of_string s.

(** [str(n)] for a non-negative integer. *)
Definition str_of_nat (n : nat) : string := NilZero.string_of_uint (Nat.to_uint n).

(** ** The file system: trees of directories and files *)

Definition path := list string.

Inductive node : Type :=
| File (content : list byte)
| Dir (entries : list (string * node)).

Definition dirent : Type := (string * node)%type.

Definition is_dir (n : node) : bool :=
  match n with Dir _ => true | File _ => false end.

Fixpoint lookup (nm : string) (es : list dirent) : option node :=
  match es with
  | [] => None
  | (k, v) :: r => if String.eqb k nm then Some v else lookup nm r
  end.

Definition exists_in (nm : string) (es : list dirent) : bool :=
  match lookup nm es with Some _ => true | None => false end.

Definition remove_entry (nm : string) (es : list dirent) : list dirent :=
  filter (fun e => negb (String.eqb (fst e) nm)) es.

(** Creating or overwriting the entry [nm]: an existing entry keeps its
    place in the enumeration, a new one is appended. *)
Fixpoint put_entry (nm : string) (v : node) (es : list dirent) : list dirent :=
  match es with
  | [] => [(nm, v)]
  | (k, w) :: r => if String.eqb k nm then (k, v) :: r else (k, w) :: put_entry nm v r
  end.

(** The file stored at a relative path, if there is one. *)
Fixpoint read_file (t : node) (p : path) {struct p} : option (list byte) :=
  match p with
  | [] => match t with File c => Some c | Dir _ => None end
  | nm :: p' =>
      match t with
      | File _ => None
      | Dir es =>
          match lookup nm es with
          | Some c => read_file c p'
          | None => None
          end
      end
  end.

(** Names are unique inside a directory, at every level. *)
Fixpoint wf_node (n : node) : Prop :=
  match n with
  | File _ => True
  | Dir es =>
      NoDup (map fst es) /\
      (fix all (l : list dirent) : Prop :=
         match l with
         | [] => True
         | e :: r => wf_node (snd e) /\ all r
         end) es
  end.

(** ** [os.walk]

    [os.walk(top)] yields, top-down, one triple [(root, dirs, files)] per
    directory and then descends into the names left in [dirs], in the order
    the consumer left them: a consumer that sorts [dirs] in place changes
    the traversal. [reorder] stands for what the consumer does to [dirs].
    A file name is yielded together with the bytes that [os.stat] and
    [open] would find under that name. [root] is kept relative to [top]. *)

Definition dirnames (es : list dirent) : list string :=
  map fst (filter (fun e => is_dir (snd e)) es).

Fixpoint files_of (es : list dirent) : list (string * list byte) :=
  match es with
  | [] => []
  | (nm, File c) :: r => (nm, c) :: files_of r
  | (_, Dir _) :: r => files_of r
  end.

Definition walk_item : Type := (path * list string * list (string * list byte))%type.

Fixpoint assoc {B : Type} (nm : string) (l : list (string * B)) : option B :=
  match l with
  | [] => None
  | (k, v) :: r => if String.eqb k nm then Some v else assoc nm r
  end.

Fixpoint os_walk (reorder : list string -> list string) (root : path) (n : node)
  {struct n} : list walk_item :=
  match n with
  | File _ => []
  | Dir es =>
      let below :=
        (fix each (l : list dirent) : list (string * list walk_item) :=
           match l with
           | [] => []
           | e :: r => (fst e, os_walk reorder (root ++ [fst e]) (snd e)) :: each r
           end) es in
      let dirs := reorder (dirnames es) in
      (root, dirs, files_of es)
        :: flat_map (fun d => match assoc d below with Some w => w | None => [] end) dirs
  end.

(** [sum(len(files) for _, _, files in os.walk(p))] *)
Definition count_files (n : node) : nat :=
  list_sum (map (fun it : walk_item => length (snd it)) (os_walk (fun d => d) [] n)).

(** [get_directory_size]: every file found exists, so its size is added. *)
Definition get_directory_size (n : node) : nat :=
  list_sum (map (fun it : walk_item =>
                   list_sum (map (fun f : string * list byte => length (snd f)) (snd it)))
                (os_walk (fun d => d) [] n)).

(** ** Library functions without source in the repository *)

Inductive move_method : Type :=
| atomic | copied | recovered_atomic | recovered_copied.

(** The dictionary [meta] handed to [json.dumps]. [completed_at] is the
    text of [datetime.now().isoformat()]. *)
Record meta : Type := {
  completed_at : string;
  checksum : string;
  files : nat;
  size_bytes : nat;
  meta_move_method : move_method;
  meta_description : option string;
  recovered : bool
}.

Class Runtime : Type := {
  (** [hashlib.sha256(data).digest()] *)
  sha256 : list byte -> list byte;
  (** [json.dumps(meta, indent=2, ensure_ascii=False).encode('utf-8')] *)
  json_dumps : meta -> list byte
}.

(** ** DirectoryHasher: [compute_directory_sha256] *)

Definition hex_digit (n : N) : ascii :=
  match n with
  | 0%N => "0" | 1%N => "1" | 2%N => "2" | 3%N => "3" | 4%N => "4"
  | 5%N => "5" | 6%N => "6" | 7%N => "7" | 8%N => "8" | 9%N => "9"
  | 10%N => "a" | 11%N => "b" | 12%N => "c" | 13%N => "d" | 14%N => "e"
  | _ => "f"
  end%char.

(** [bytes.hex()]: two lowercase digits per byte. *)
Fixpoint hex (bs : list byte) : string :=
  match bs with
  | [] => EmptyString
  | b :: r =>
      String (hex_digit (N.div (Byte.to_N b) 16))
        (String (hex_digit (N.modulo (Byte.to_N b) 16)) (hex r))
  end.


Fixpoint all_chars (f : ascii -> bool) (s : string) : bool :=
  match s with
  | EmptyString => true
  | String c r => f c && all_chars f r
  end.

(** What happens when the hasher touches one file. *)
Inductive read_status : Type :=
| ReadOk
| EncodeFails                  (* [relpath] or [rel_path.encode] raises *)
| StatFails                    (* [os.stat] raises *)
| OpenFails                    (* [open] raises *)
| ReadFails (chunks_ok : nat)  (* the read after [chunks_ok] good ones raises *).

Definition chunk_size : nat := 8192.

(** The successive results of [f.read(n)] up to the empty one. *)
Fixpoint chunks_fuel (fuel n : nat) (l : list byte) : list (list byte) :=
  match fuel with
  | O => []
  | S fuel' =>
      match l with
      | [] => []
      | _ :: _ => firstn n l :: chunks_fuel fuel' n (skipn n l)
      end
  end.

Definition chunks (n : nat) (l : list byte) : list (list byte) :=
  chunks_fuel (length l) n l.

Definition unreadable_marker : list byte := encode "__unreadable__".

(** [os.path.relpath(file_path, start=str(path)).replace('\\', '/')]:
    the components below [path] joined by the separator of the platform,
    then every backslash turned into a slash. *)
Definition rel_path (sep : string) (p : path) : string :=
  replace_backslash (String.concat sep p).

(** The hash object is the sequence of bytes it has been fed:
    [h.update(a); h.update(b)] is [h.update(a + b)]. *)
Definition update (h data : list byte) : list byte := h ++ data.

(** The body of the loop over [files]. *)
Definition feed_file (sep : string) (st : read_status) (h : list byte)
  (p : path) (content : list byte) : list byte :=
  let h0 := h in
  let h := update h (encode (rel_path sep p)) in
  match st with
  | EncodeFails => update h0 unreadable_marker
  | StatFails => update h unreadable_marker
  | OpenFails =>
      update (update h (encode (str_of_nat (length content)))) unreadable_marker
  | ReadFails k =>
      let h := update h (encode (str_of_nat (length content))) in
      let cs := chunks chunk_size content in
      if Nat.leb k (length cs)
      then update (fold_left update (firstn k cs) h) unreadable_marker
      else fold_left update cs h
  | ReadOk =>
      fold_left update (chunks chunk_size content)
        (update h (encode (str_of_nat (length content))))
  end.

Definition feed_dir (sep : string) (access : path -> read_status)
  (h : list byte) (it : walk_item) : list byte :=
  let '(root, _, files) := it in
  fold_left (fun h f => feed_file sep (access (root ++ [fst f])) h (root ++ [fst f]) (snd f))
    (sort_by fst files) h.

(** Everything [compute_directory_sha256] feeds to the hash object. *)
Definition hash_input (sep : string) (access : path -> read_status) (t : node)
  : list byte :=
  fold_left (feed_dir sep access) (os_walk sort_names [] t) [].

Definition compute_directory_sha256 {rt : Runtime} (sep : string)
  (access : path -> read_status) (t : node) : string :=
  hex (sha256 (hash_input sep access t)).

(** ** Vocabulary of the statements about the hasher *)

(** The files in the order the hasher visits them, each with its path
    below [root]. *)
Definition files_visited (root : path) (t : node) : list (path * list byte) :=
  flat_map (fun it : walk_item =>
              map (fun f : string * list byte => (fst (fst it) ++ [fst f], snd f))
                (sort_by fst (snd it)))
    (os_walk sort_names root t).

(** The order of that visit: inside a directory its own files come first,
    by name, then the content of its subdirectories, by name. *)
Fixpoint walk_lt (p q : path) : Prop :=
  match p, q with
  | a :: p', b :: q' =>
      match p', q' with
      | [], [] => str_lt a b
      | [], _ :: _ => True
      | _ :: _, [] => False
      | _ :: _, _ :: _ => str_lt a b \/ (a = b /\ walk_lt p' q')
      end
  | _, _ => False
  end.

(** ** The manager and what it leaves behind *)

(** A number of Python as [time.sleep] tells them apart: a finite value,
    an infinity or a NaN. *)
Inductive pyfloat : Type :=
| Finite (q : Q)
| Infinite (negative : bool)
| NaN.

(** The fields of [SaveBackupManager] the engine reads, the platform
    ([os.name == 'nt']), and what the engine meets around its two
    directories: the text of the backup path, which [_get_backup_list]
    hands to [glob] as it is, and the place of the backup directory when
    it lies below the save directory. *)
Record manager : Type := {
  max_backups : Z;
  skip_locked_files : bool;
  retries : Z;
  retry_delay : pyfloat;
  os_nt : bool;
  backup_dir : string;          (* [str(self.backup_dir)] *)
  dir_matches_itself : bool;    (* whether that text, read as a pattern by
                                   [glob], matches the backup directory *)
  found_elsewhere : list dirent;  (* what [glob] finds for [backup_*] in the
                                   other directories that the text matches
                                   as a pattern: path and content *)
  backup_dir_below_save : option path  (* the path of the backup directory
                                   relative to the save directory, when it
                                   lies in it *)
}.

Definition os_sep (m : manager) : string := if os_nt m then "\" else "/".

(** Exceptions, as far as the handlers tell them apart: [OSError] with its
    [errno] ([PermissionError] and [shutil.Error] are subclasses, the latter
    without [errno]), or another [Exception]. *)
Inductive exn : Type :=
| OSError (errno : option Z)
| PermissionError
| OtherException (name : string).

Definition EXDEV : Z := 18.

Definition is_OSError (e : exn) : bool :=
  match e with OSError _ | PermissionError => true | OtherException _ => false end.

(** [getattr(ex, 'errno', None) == errno.EXDEV] *)
Definition is_EXDEV (e : exn) : bool :=
  match e with OSError (Some n) => Z.eqb n EXDEV | _ => false end.

Inductive outcome (A : Type) : Type :=
| Returns (a : A)
| Raises (e : exn).
Arguments Returns {A} a.
Arguments Raises {A} e.

(** What the engine prints on the paths that matter, without the text of
    the exception, and the calls whose order the statements speak about. *)
Inductive event : Type :=
| Copy2Called (attempt : nat)
| Win32ReadCalled (attempt : nat)
| Slept (delay : pyfloat) (attempt : nat)   (* [time.sleep(delay * attempt)]
                                              returned *)
| SkippingLockedFile
| NoFilesFound
| MkdtempCalled (name : string)
| ReplaceCalled (src dst : string)
| MoveCalled (src dst : string)
| RmtreeCalled (name : string)
| FailedToWriteMetadata
| BackupCreated (name : string)
| FailedToCreateBackup
| CleaningUp (count : nat)
| DeletedOldBackup (name : string)
| FailedToDelete (name : string)
| FoundLeftover (name : string)
| RemovingEmptyTemp (name : string)
| FinalAlreadyExists (final : string)
| FailedToMoveTemp (name : string)
| FailedToRenameTemp (name : string)
| RecoveredBackup (final : string)
| FailedToWriteRecoveredMetadata (final : string).

(** ** ResilientCopier: [_win_read_file_to_path] and [_safe_copy] *)

(** What a call that failed has left at the destination path: what was
    there before, or a file with the bytes written so far. *)
Inductive left_at_dst : Type :=
| Untouched
| Holds (data : list byte).

Definition overwrite (new old : left_at_dst) : left_at_dst :=
  match new with
  | Untouched => old
  | Holds _ => new
  end.

(** What the Win32 calls do for one attempt: [CreateFileW] gives no handle,
    or the [ReadFile] loop delivers [data] (all it got before [ReadFile]
    stopped) into the destination, or something raises. *)
Inductive win32_read : Type :=
| InvalidHandle
| ReadData (data : list byte)
| Win32Raises (remains : left_at_dst).

(** [Some data]: the function returns [True] and the destination holds
    [data]. The function declares no [restype] for [CreateFileW], whose
    result is thus a C [int], never equal to [HANDLE(-1).value]: without a
    handle the function goes on, opens the destination for writing, gets
    nothing from [ReadFile] and returns [True]. *)
Definition _win_read_file_to_path (m : manager) (w : win32_read)
  : outcome (option (list byte)) :=
  if negb (os_nt m) then Returns None
  else match w with
       | InvalidHandle => Returns (Some [])
       | ReadData data => Returns (Some data)
       | Win32Raises _ => Raises (OtherException "Exception")
       end.

(** The outcome, attempt by attempt, of the library calls of one copy. *)
Record copy_oracle : Type := {
  copy2 : nat -> option exn;      (* [shutil.copy2]: [None] when it succeeds *)
  copy2_leaves : nat -> left_at_dst;   (* what it leaves when it fails *)
  win32 : nat -> win32_read;
  sleep_overflows : nat -> bool   (* the delay after that attempt is more
                                     than the clock of the platform takes *)
}.

(** [time.sleep(delay * attempt)] for [attempt >= 1]: the product is a NaN,
    infinite or negative when [delay] is. [None] when the call returns. *)
Definition time_sleep (delay : pyfloat) (too_long : bool) : option exn :=
  match delay with
  | NaN => Some (OtherException "ValueError")
  | Infinite _ => Some (OtherException "OverflowError")
  | Finite q =>
      if too_long then Some (OtherException "OverflowError")
      else if Qle_bool 0 q then None
      else Some (OtherException "ValueError")
  end.

(** How [_safe_copy] returned: the destination holds a copy made by
    [shutil.copy2], or the bytes the fallback read, or what the failed
    attempts left. *)
Inductive copy_result : Type :=
| ByCopy2
| ByWin32 (data : list byte)
| NotCopied.

(** The loop of [_safe_copy] over the attempts still to make; [dst] is
    what the attempts made so far left at the destination. The result
    holds what happened, how the function ended, and what the failed
    attempts left at the destination. *)
Fixpoint safe_copy_attempts (m : manager) (o : copy_oracle) (dst : left_at_dst)
  (attempts : list nat) : list event * outcome copy_result * left_at_dst :=
  match attempts with
  | [] => ([], Returns NotCopied, dst)
  | attempt :: rest =>
      match copy2 o attempt with
      | None => ([Copy2Called attempt], Returns ByCopy2, dst)
      | Some e =>
          let dst1 := overwrite (copy2_leaves o attempt) dst in
          if negb (is_OSError e) then ([Copy2Called attempt], Raises e, dst1)
          else
            let fallback : list event * option (list byte) * left_at_dst :=
              if os_nt m then
                match _win_read_file_to_path m (win32 o attempt) with
                | Returns (Some data) => ([Win32ReadCalled attempt], Some data, dst1)
                | Returns None => ([Win32ReadCalled attempt], None, dst1)
                | Raises _ =>
                    ([Win32ReadCalled attempt], None,
                     match win32 o attempt with
                     | Win32Raises remains => overwrite remains dst1
                     | _ => dst1
                     end)
                end
              else ([], None, dst1) in
            let '(called, delivered, dst2) := fallback in
            match delivered with
            | Some data => (Copy2Called attempt :: called, Returns (ByWin32 data), dst2)
            | None =>
                if (Z.of_nat attempt <? retries m)%Z then
                  match time_sleep (retry_delay m) (sleep_overflows o attempt) with
                  | Some ex => (Copy2Called attempt :: called, Raises ex, dst2)
                  | None =>
                      let '(ev, r, dst3) := safe_copy_attempts m o dst2 rest in
                      (Copy2Called attempt :: called
                         ++ Slept (retry_delay m) attempt :: ev,
                       r, dst3)
                  end
                else if skip_locked_files m then
                  (Copy2Called attempt :: called ++ [SkippingLockedFile],
                   Returns NotCopied, dst2)
                else (Copy2Called attempt :: called, Raises e, dst2)
            end
      end
  end.

(** [range(1, max(1, self.retries) + 1)] *)
Definition attempt_range (m : manager) : list nat :=
  seq 1 (Z.to_nat (Z.max 1 (retries m))).

(** [_safe_copy] on a destination that does not exist yet: what happened
    and how it ended. *)
Definition _safe_copy (m : manager) (o : copy_oracle) : list event * outcome copy_result :=
  fst (safe_copy_attempts m o Untouched (attempt_range m)).

(** What its failed attempts left at the destination. *)
Definition left_by_safe_copy (m : manager) (o : copy_oracle) : left_at_dst :=
  snd (safe_copy_attempts m o Untouched (attempt_range m)).

(** ** SnapshotStore: [_get_backup_list] *)

Definition ascii_lower (c : ascii) : ascii :=
  let n := nat_of_ascii c in
  if Nat.leb 65 n && Nat.leb n 90 then ascii_of_nat (n + 32) else c.

(** [os.path.normcase]: the identity except on Windows, where it folds
    case (modelled on ASCII) and turns slashes into backslashes. *)
Fixpoint normcase_nt (s : string) : string :=
  match s with
  | EmptyString => EmptyString
  | String c r =>
      String (if Ascii.eqb c "/"%char then "\"%char else ascii_lower c) (normcase_nt r)
  end.

Definition normcase (m : manager) (s : string) : string :=
  if os_nt m then normcase_nt s else s.

(** [glob._ishidden] *)
Definition _ishidden (nm : string) : bool := startswith "." nm.

(** [glob.has_magic]: the text holds one of [*], [?] and [[]. *)
Fixpoint has_magic (s : string) : bool :=
  match s with
  | EmptyString => false
  | String c r =>
      Ascii.eqb c "*"%char || Ascii.eqb c "?"%char || Ascii.eqb c "["%char
      || has_magic r
  end.

(** What [glob] does in one directory for the last component [backup_*]
    of the pattern ([glob._glob1]): the names of the directory that are
    not hidden (the pattern is not) and that [fnmatch] accepts. *)
Definition glob_backup (m : manager) (names : list string) : list string :=
  filter (fun nm => negb (_ishidden nm) && startswith "backup_" (normcase m nm)) names.

(** [os.path.join(dirname, name)] *)
Definition join_path (m : manager) (dir nm : string) : string :=
  (dir ++ os_sep m ++ nm)%string.

(** The listing when the text of the backup path holds a wildcard. The
    path is not escaped, so [glob] reads its directory part as a pattern:
    it looks into every directory that the pattern matches, which need not
    include the backup directory, and the paths it returns are sorted as
    texts. An entry of the backup directory is given by its name, an entry
    found elsewhere by its path. *)
Definition glob_magic (m : manager) (names : list string) : list string :=
  let own := if dir_matches_itself m then glob_backup m names else [] in
  map snd
    (rev (sort_by fst
            (map (fun nm => (join_path m (backup_dir m) nm, nm)) own
             ++ map (fun e : dirent => (fst e, fst e)) (found_elsewhere m)))).

(** [sorted(glob.glob(str(self.backup_dir / "backup_*")), reverse=True)].
    When the directory part holds no wildcard the paths share it, so they
    are ordered as their last components, which is what the list holds. *)
Definition _get_backup_list (m : manager) (root : list dirent) : list string :=
  if has_magic (backup_dir m) then glob_magic m (map fst root)
  else rev (sort_names (glob_backup m (map fst root))).

(** The backup path holds no wildcard of [glob]. *)
Class plain_path (m : manager) : Prop :=
  plain_dir : has_magic (backup_dir m) = false.

(** A listed path that [glob] found outside the backup directory. *)
Definition is_elsewhere (m : manager) (x : string) : bool :=
  has_magic (backup_dir m)
  && existsb (fun e : dirent => String.eqb (fst e) x) (found_elsewhere m).

(** ** Timestamps and names *)

Record datetime : Type := {
  year : nat; month : nat; day : nat;
  hour : nat; minute : nat; second : nat
}.

Definition digit_char (d : nat) : ascii := ascii_of_nat (48 + d).

(** The [w] low decimal digits of [n], most significant first: what
    [strftime] prints for a field of width [w], every field of a [datetime]
    fitting its width. *)
Fixpoint fixed_width (w n : nat) : string :=
  match w with
  | O => EmptyString
  | S w' => String (digit_char ((n / 10 ^ w') mod 10)) (fixed_width w' (n mod 10 ^ w'))
  end.

(** [t.strftime("%Y%m%d_%H%M%S")] *)
Definition strftime (t : datetime) : string :=
  (fixed_width 4 (year t) ++ fixed_width 2 (month t) ++ fixed_width 2 (day t)
   ++ "_" ++ fixed_width 2 (hour t) ++ fixed_width 2 (minute t)
   ++ fixed_width 2 (second t))%string.

Definition backup_name_at (t : datetime) : string := ("backup_" ++ strftime t)%string.

(** [f".{backup_name}."] followed by the random characters of [mkdtemp]. *)
Definition staging_name (backup_name suffix : string) : string :=
  ("." ++ backup_name ++ "." ++ suffix)%string.

(** The ranges of the fields of a [datetime] that [strftime] prints on
    four and two digits. *)
Definition valid_datetime (t : datetime) : Prop :=
  1000 <= year t < 10 ^ 4 /\ 1 <= month t <= 12 /\ 1 <= day t <= 31 /\
  hour t < 24 /\ minute t < 60 /\ second t < 60.

(** Chronological order, to the second. *)
Definition datetime_lt (a b : datetime) : Prop :=
  year a < year b \/ (year a = year b /\
  (month a < month b \/ (month a = month b /\
  (day a < day b \/ (day a = day b /\
  (hour a < hour b \/ (hour a = hour b /\
  (minute a < minute b \/ (minute a = minute b /\ second a < second b))))))))).

(** ** The backup root and the calls that change it *)

Inductive rm_result : Type :=
| Removed
| RemoveFails (e : exn) (leftover : node).   (* raises, leaving [leftover] behind *)

Inductive move_result : Type :=
| Moved
| MoveFails (e : exn) (leftover : option node).  (* raises; [leftover] is what the copy
                                                left under the target name *)

Inductive meta_result : Type :=
| MetaWritten
| ChecksumRaises
| WriteRaises (leftover : option (list byte)).  (* [write_text] raises; [leftover] is
                                               what it left in the sidecar *)

(** The outcome of the library calls of one operation of the engine.
    Calls on an entry of the backup root are keyed by the name of the
    entry. *)
Record oracle : Type := {
  now : datetime;                      (* [datetime.datetime.now()] on entry *)
  completed_at_text : string;          (* [datetime.datetime.now().isoformat()] *)
  mkdtemp_suffixes : list string;      (* the random suffixes [mkdtemp] draws *)
  copy_outcomes : path -> copy_oracle; (* per source file, below [save_dir] *)
  write_description : option exn;      (* [desc_file.write_text] *)
  replace_outcome : string -> option exn;   (* [os.replace] *)
  move_outcome : string -> move_result;     (* [shutil.move] *)
  rmtree_outcome : string -> rm_result;     (* [shutil.rmtree] *)
  access : path -> read_status;        (* reading the files of a snapshot *)
  meta_outcome : string -> meta_result
}.

Definition ENOENT : Z := 2.

(** [self._safe_rmtree(self.backup_dir / nm)] *)
Definition _safe_rmtree (o : oracle) (nm : string) (root : list dirent)
  : list dirent * outcome unit :=
  if exists_in nm root then
    match rmtree_outcome o nm with
    | Removed => (remove_entry nm root, Returns tt)
    | RemoveFails e leftover => (put_entry nm leftover root, Raises e)
    end
  else (root, Raises (OSError (Some ENOENT))).

(** [self._safe_rmtree(backup_path)] on a listed path: an entry of the
    backup directory, or a directory elsewhere, which is no part of the
    backup root. *)
Definition remove_listed (m : manager) (o : oracle) (x : string) (root : list dirent)
  : list dirent * outcome unit :=
  if is_elsewhere m x then
    (root,
     match rmtree_outcome o x with
     | Removed => Returns tt
     | RemoveFails e _ => Raises e
     end)
  else _safe_rmtree o x root.

(** What lies at a listed path. *)
Definition listed_node (m : manager) (root : list dirent) (x : string) : option node :=
  if is_elsewhere m x then lookup x (found_elsewhere m) else lookup x root.

(** [tempfile.mkdtemp(prefix=prefix, dir=str(self.backup_dir))]: the first
    drawn name that does not exist yet. *)
Fixpoint mkdtemp (prefix : string) (suffixes : list string) (root : list dirent)
  : option string :=
  match suffixes with
  | [] => None
  | s :: r =>
      if exists_in (prefix ++ s)%string root then mkdtemp prefix r root
      else Some (prefix ++ s)%string
  end.

(** Renaming the entry [src] to the free name [dst]. *)
Definition rename_entry (src dst : string) (root : list dirent) : list dirent :=
  match lookup src root with
  | Some v => put_entry dst v (remove_entry src root)
  | None => root
  end.

(** ** [shutil.copytree] with the ignore patterns and copy function of
    [create_backup] *)

Definition str_rev (s : string) : string :=
  string_of_list_ascii (rev (list_ascii_of_string s)).

Definition endswith (suffix s : string) : bool :=
  startswith (str_rev suffix) (str_rev s).

(** [shutil.ignore_patterns("backups", "*.pyc", "__pycache__", "*.tmp")] *)
Definition ignored (m : manager) (nm : string) : bool :=
  let n := normcase m nm in
  String.eqb n "backups" || endswith ".pyc" n
  || String.eqb n "__pycache__" || endswith ".tmp" n.

(** How [copytree] ends: normally, or by raising [shutil.Error] with the
    [OSError]s it collected while it went on copying, or at once with an
    exception that is no [OSError]. *)
Inductive copytree_status : Type :=
| CopyOk
| CopyErrors
| CopyAborts (e : exn).

(** The entry that a copy which delivered nothing leaves in the
    destination directory. *)
Definition left_entries (nm : string) (remains : left_at_dst) : list dirent :=
  match remains with
  | Untouched => []
  | Holds data => [(nm, File data)]
  end.

(** [copy_function(srcname, dstname)] inside [copytree], which collects
    an [OSError] and goes on. *)
Definition copy_one (m : manager) (o : copy_oracle) (nm : string) (content : list byte)
  : list dirent * list event * copytree_status :=
  let remains := left_entries nm (left_by_safe_copy m o) in
  match _safe_copy m o with
  | (ev, Returns ByCopy2) => ([(nm, File content)], ev, CopyOk)
  | (ev, Returns (ByWin32 data)) => ([(nm, File data)], ev, CopyOk)
  | (ev, Returns NotCopied) => (remains, ev, CopyOk)
  | (ev, Raises e) => (remains, ev, if is_OSError e then CopyErrors else CopyAborts e)
  end.

Definition path_eqb (p q : path) : bool :=
  if list_eq_dec string_dec p q then true else false.

(** The directory at [src] below the save directory is the backup
    directory, which holds the staging directory that [copytree] fills. *)
Definition is_backup_dir (m : manager) (src : path) : bool :=
  match backup_dir_below_save m with
  | Some p => path_eqb p src
  | None => false
  end.

Definition worse (a b : copytree_status) : copytree_status :=
  match a, b with
  | CopyAborts e, _ => CopyAborts e
  | _, CopyAborts e => CopyAborts e
  | CopyErrors, _ => CopyErrors
  | _, b => b
  end.

(** The loop of [copytree] over the entries of the directory at [src],
    [copy_dir] being the recursive call: an [OSError] is collected and the
    loop goes on, another exception ends it. *)
Definition copy_entries (m : manager) (o : path -> copy_oracle) (src : path)
  (copy_dir : path -> node -> list dirent * list event * copytree_status)
  : list dirent -> list dirent * list event * copytree_status :=
  fix each (l : list dirent) : list dirent * list event * copytree_status :=
    match l with
    | [] => ([], [], CopyOk)
    | e :: r =>
        if ignored m (fst e) then each r
        else
          let one :=
            match snd e with
            | File content => copy_one m (o (src ++ [fst e])) (fst e) content
            | Dir _ =>
                let sub := copy_dir (src ++ [fst e]) (snd e) in
                ([(fst e, Dir (fst (fst sub)))], snd (fst sub), snd sub)
            end in
          match snd one with
          | CopyAborts ex => one
          | st =>
              let rest := each r in
              (fst (fst one) ++ fst (fst rest),
               snd (fst one) ++ snd (fst rest),
               worse st (snd rest))
          end
    end.

(** The content of the destination directory after copying the directory
    [n], found at [src] below [save_dir]. When [copytree] comes to the
    backup directory it finds the staging directory in it and copies its
    own destination into itself, deeper and deeper, until a call fails:
    it ends with errors, whatever else it copied (what the runaway copy
    left in the staging directory is not told). *)
Fixpoint copytree (m : manager) (o : path -> copy_oracle) (src : path) (n : node)
  {struct n} : list dirent * list event * copytree_status :=
  match n with
  | File _ => ([], [], CopyAborts (OSError None))
  | Dir es =>
      let copied := copy_entries m o src (copytree m o) es in
      if is_backup_dir m src
      then (fst (fst copied), snd (fst copied), worse CopyErrors (snd copied))
      else copied
  end.

(** The same copy when the source holds no part of the destination. *)
Fixpoint copytree_apart (m : manager) (o : path -> copy_oracle) (src : path) (n : node)
  {struct n} : list dirent * list event * copytree_status :=
  match n with
  | File _ => ([], [], CopyAborts (OSError None))
  | Dir es => copy_entries m o src (copytree_apart m o) es
  end.

(** The copy of the save directory does not come to the backup directory:
    it lies outside, or below an entry that [ignore_patterns] drops. *)
Definition copy_avoids_backup_dir (m : manager) : bool :=
  match backup_dir_below_save m with
  | None => true
  | Some p => existsb (ignored m) p
  end.

(** ** SnapshotWriter: [create_backup] *)

(** [if description:] *)
Definition truthy (description : option string) : option string :=
  match description with
  | Some d => if String.eqb d "" then None else Some d
  | None => None
  end.

(** What [Path.write_text] writes for the encoded text [data]: the file is
    opened in text mode, which on Windows turns every line feed into a
    carriage return and a line feed. *)
Definition text_mode (m : manager) (data : list byte) : list byte :=
  if os_nt m
  then flat_map (fun b : byte => if Byte.eqb b x0a then [x0d; x0a] else [b]) data
  else data.

Definition description_file : string := ".backup_description".
Definition meta_file : string := ".backup_meta.json".

(** Copying [save_dir] into the staging directory [tmp], then the
    description sidecar. *)
Definition stage (m : manager) (o : oracle) (description : option string)
  (save_dir : node) (tmp : string) (root : list dirent)
  : list dirent * list event * outcome unit :=
  let ct := copytree m (copy_outcomes o) [] save_dir in
  let made := fst (fst ct) in
  let ev := snd (fst ct) in
  let root' := put_entry tmp (Dir made) root in
  match snd ct with
  | CopyAborts e => (root', ev, Raises e)
  | CopyErrors => (root', ev, Raises (OSError None))
  | CopyOk =>
      match truthy description with
      | None => (root', ev, Returns tt)
      | Some d =>
          match write_description o with
          | Some e => (root', ev, Raises e)
          | None =>
              (put_entry tmp
                 (Dir (put_entry description_file (File (text_mode m (encode d))) made))
                 root,
               ev, Returns tt)
          end
      end
  end.

(** [if backup_path.exists(): self._safe_rmtree(backup_path)] *)
Definition remove_collision (o : oracle) (final : string) (root : list dirent)
  : list dirent * list event * outcome unit :=
  if exists_in final root then
    let r := _safe_rmtree o final root in (fst r, [RmtreeCalled final], snd r)
  else (root, [], Returns tt).

(** The publish step: the [try] around [os.replace], and its handler. *)
Definition publish (o : oracle) (tmp final : string) (root : list dirent)
  : list dirent * list event * outcome move_method :=
  let '(root1, ev1, r1) := remove_collision o final root in
  let first : list dirent * list event * outcome unit :=
    match r1 with
    | Raises e => (root1, ev1, Raises e)
    | Returns _ =>
        match replace_outcome o tmp with
        | None => (rename_entry tmp final root1, ev1 ++ [ReplaceCalled tmp final], Returns tt)
        | Some e => (root1, ev1 ++ [ReplaceCalled tmp final], Raises e)
        end
    end in
  match first with
  | (root2, ev2, Returns _) => (root2, ev2, Returns atomic)
  | (root2, ev2, Raises e) =>
      if is_OSError e && is_EXDEV e then
        let '(root3, ev3, r3) := remove_collision o final root2 in
        match r3 with
        | Raises e' => (root3, ev2 ++ ev3, Raises e')
        | Returns _ =>
            match move_outcome o tmp with
            | Moved =>
                (rename_entry tmp final root3, ev2 ++ ev3 ++ [MoveCalled tmp final],
                 Returns copied)
            | MoveFails e' leftover =>
                (match leftover with
                 | Some partial => put_entry final partial root3
                 | None => root3
                 end, ev2 ++ ev3 ++ [MoveCalled tmp final], Raises e')
            end
        end
      else (root2, ev2, Raises e)
  end.

(** The metadata step on the published directory [final]: checksum, size
    and file count of the directory as it stands, then the sidecar written
    into it. A failure is reported by [failed] and changes nothing else. *)
Definition write_metadata {rt : Runtime} (m : manager) (o : oracle) (final : string)
  (method : move_method) (description : option string) (is_recovered : bool)
  (failed : event) (root : list dirent) : list dirent * list event :=
  match meta_outcome o final with
  | ChecksumRaises => (root, [failed])
  | WriteRaises leftover =>
      (match lookup final root, leftover with
       | Some (Dir snap), Some bytes =>
           put_entry final (Dir (put_entry meta_file (File bytes) snap)) root
       | _, _ => root
       end, [failed])
  | MetaWritten =>
      match lookup final root with
      | Some (Dir snap) =>
          let meta :=
            {| completed_at := completed_at_text o;
               checksum := compute_directory_sha256 (os_sep m) (access o) (Dir snap);
               files := count_files (Dir snap);
               size_bytes := get_directory_size (Dir snap);
               meta_move_method := method;
               meta_description := description;
               recovered := is_recovered |} in
          (put_entry final
             (Dir (put_entry meta_file (File (text_mode m (json_dumps meta))) snap)) root,
           [])
      | _ => (root, [failed])
      end
  end.

(** ** RetentionPolicy: [_cleanup_old_backups] *)

(** [l[k:]] *)
Definition py_slice_from {A : Type} (k : Z) (l : list A) : list A :=
  if (k <? 0)%Z then skipn (Z.to_nat (Z.max 0 (Z.of_nat (length l) + k))) l
  else skipn (Z.to_nat k) l.

(** The body of the loop: a failure is printed and the loop goes on. *)
Definition delete_old (m : manager) (o : oracle) (st : list dirent * list event)
  (nm : string) : list dirent * list event :=
  match remove_listed m o nm (fst st) with
  | (root', Returns _) => (root', snd st ++ [RmtreeCalled nm; DeletedOldBackup nm])
  | (root', Raises _) => (root', snd st ++ [RmtreeCalled nm; FailedToDelete nm])
  end.

Definition _cleanup_old_backups (m : manager) (o : oracle) (root : list dirent)
  : list dirent * list event :=
  let backups := _get_backup_list m root in
  if (Z.of_nat (length backups) >? max_backups m)%Z then
    let backups_to_delete := py_slice_from (max_backups m) backups in
    fold_left (delete_old m o) backups_to_delete
      (root, [CleaningUp (length backups_to_delete)])
  else (root, []).

(** [create_backup]: the path returned (as the name of the snapshot), the
    backup root afterwards and what happened. [save_dir] is only read. *)
Definition create_backup {rt : Runtime} (m : manager) (o : oracle)
  (description : option string) (save_dir : node) (root : list dirent)
  : option string * list dirent * list event :=
  let backup_name := backup_name_at (now o) in
  if Nat.eqb (count_files save_dir) 0 then (None, root, [NoFilesFound])
  else
    match mkdtemp ("." ++ backup_name ++ ".")%string (mkdtemp_suffixes o) root with
    | None => (None, root, [FailedToCreateBackup])
    | Some tmp =>
        let root0 := root ++ [(tmp, Dir [])] in
        let '(root1, ev1, staged) := stage m o description save_dir tmp root0 in
        let '(root2, ev2, published) :=
          match staged with
          | Raises e => (root1, [], Raises e)
          | Returns _ => publish o tmp backup_name root1
          end in
        match published with
        | Raises _ =>
            (* [finally]: the staging directory is removed if it is still there *)
            let cleaned :=
              if exists_in tmp root2
              then (fst (_safe_rmtree o tmp root2), [RmtreeCalled tmp])
              else (root2, []) in
            (None, fst cleaned,
             MkdtempCalled tmp :: ev1 ++ ev2 ++ snd cleaned ++ [FailedToCreateBackup])
        | Returns method =>
            let '(root3, ev3) :=
              write_metadata m o backup_name method (truthy description) false
                FailedToWriteMetadata root2 in
            let '(root4, ev4) := _cleanup_old_backups m o root3 in
            (Some backup_name, root4,
             MkdtempCalled tmp :: ev1 ++ ev2 ++ ev3 ++ [BackupCreated backup_name] ++ ev4)
        end
    end.

(** ** RecoveryScanner: [_recover_or_cleanup_tmp_dirs] *)

(** [name[1:].split('.', 1)[0]] *)
Fixpoint before_dot (s : string) : string :=
  match s with
  | EmptyString => EmptyString
  | String c r => if Ascii.eqb c "."%char then EmptyString else String c (before_dot r)
  end.

Definition final_base_of (name : string) : string :=
  match name with
  | EmptyString => EmptyString
  | String _ r => before_dot r
  end.

(** A failed removal raises into the [except Exception: continue] of the
    loop: what is left is left. *)
Definition remove_temp (o : oracle) (name : string) (root : list dirent) : list dirent :=
  fst (_safe_rmtree o name root).

(** The body of the loop over [self.backup_dir.iterdir()], for the entry
    called [name]. The entries were listed before the loop started; what
    each of them is is looked up when its turn comes. *)
Definition recover_one {rt : Runtime} (m : manager) (o : oracle)
  (st : list dirent * list event) (name : string) : list dirent * list event :=
  let root := fst st in
  match lookup name root with
  | Some (Dir content) =>
      if negb (startswith ".backup_" name) then st
      else if Nat.eqb (count_files (Dir content)) 0 then
        (remove_temp o name root,
         snd st ++ [FoundLeftover name; RemovingEmptyTemp name; RmtreeCalled name])
      else
        let final := final_base_of name in
        if exists_in final root then
          (remove_temp o name root,
           snd st ++ [FoundLeftover name; FinalAlreadyExists final; RmtreeCalled name])
        else
          match replace_outcome o name with
          | None =>
              let r := write_metadata m o final recovered_atomic None true
                         (FailedToWriteRecoveredMetadata final)
                         (rename_entry name final root) in
              (fst r,
               snd st ++ [FoundLeftover name; ReplaceCalled name final] ++ snd r
                 ++ match snd r with [] => [RecoveredBackup final] | _ => [] end)
          | Some e =>
              if is_OSError e then
                if is_EXDEV e then
                  match move_outcome o name with
                  | Moved =>
                      let r := write_metadata m o final recovered_copied None true
                                 (FailedToWriteRecoveredMetadata final)
                                 (rename_entry name final root) in
                      (fst r,
                       snd st ++ [FoundLeftover name; ReplaceCalled name final;
                                  MoveCalled name final] ++ snd r
                         ++ match snd r with [] => [RecoveredBackup final] | _ => [] end)
                  | MoveFails _ leftover =>
                      (remove_temp o name
                         match leftover with
                         | Some partial => put_entry final partial root
                         | None => root
                         end,
                       snd st ++ [FoundLeftover name; ReplaceCalled name final;
                                  MoveCalled name final; FailedToMoveTemp name;
                                  RmtreeCalled name])
                  end
                else
                  (remove_temp o name root,
                   snd st ++ [FoundLeftover name; ReplaceCalled name final;
                              FailedToRenameTemp name; RmtreeCalled name])
              else (root, snd st ++ [FoundLeftover name; ReplaceCalled name final])
          end
  | _ => st
  end.

Definition _recover_or_cleanup_tmp_dirs {rt : Runtime} (m : manager) (o : oracle)
  (root : list dirent) : list dirent * list event :=
  fold_left (recover_one m o) (map fst root) (root, []).

(** ** RestoreEngine: [restore_backup], called with a backup number and
    [skip_confirmation=True] *)

(** Where [self.backup_dir] lies: it is the entry [name] of [self.save_dir],
    or a directory outside of it. *)
Inductive backup_location : Type :=
| Nested (name : string)
| Elsewhere (root : list dirent).

Record restore_world : Type := {
  save_entries : list dirent;       (* the entries of [self.save_dir] *)
  backups : backup_location
}.

Definition backup_root_of (w : restore_world) : option (list dirent) :=
  match backups w with
  | Elsewhere root => Some root
  | Nested nm =>
      match lookup nm (save_entries w) with
      | Some (Dir es) => Some es
      | _ => None
      end
  end.

Inductive unlink_result : Type :=
| Unlinked
| UnlinkPermissionError
| UnlinkRaises (e : exn).

Record restore_oracle : Type := {
  script_name : option string;       (* the entry of [save_dir] that is
                                        [Path(__file__)], when it lies there *)
  unlink_outcome : string -> unlink_result;  (* [_safe_rmtree] or [unlink] *)
  shell_outcome : string -> option bool;     (* [subprocess.run]: [None] when
                                        it raises, else whether the item went *)
  copy_back : string -> option exn;  (* [shutil.copytree] or [shutil.copy2] *)
  copy_back_leaves : string -> option node   (* what it has made of its
                                        destination when it fails *)
}.

(** [item.name != "backups" and item != Path(__file__)] *)
Definition to_remove (o : restore_oracle) (nm : string) : bool :=
  negb (String.eqb nm "backups")
  && match script_name o with
     | Some s => negb (String.eqb nm s)
     | None => true
     end.

(** The delete phase. [Returns false] is the [return False] of the
    fallback; an exception that is no [PermissionError] leaves the loop. *)
Fixpoint delete_phase (o : restore_oracle) (items : list string) (save : list dirent)
  : list dirent * outcome bool :=
  match items with
  | [] => (save, Returns true)
  | nm :: rest =>
      if to_remove o nm then
        match unlink_outcome o nm with
        | Unlinked => delete_phase o rest (remove_entry nm save)
        | UnlinkPermissionError =>
            match shell_outcome o nm with
            | None => (save, Returns false)
            | Some gone =>
                delete_phase o rest (if gone then remove_entry nm save else save)
            end
        | UnlinkRaises e => (save, Raises e)
        end
      else delete_phase o rest save
  end.

Definition EEXIST : Z := 17.

Definition EISDIR : Z := 21.

(** What a copy that raised leaves under the name [nm] of [dir]. *)
Definition put_left (nm : string) (remains : option node) (dir : list dirent)
  : list dirent :=
  match remains with
  | Some v => put_entry nm v dir
  | None => dir
  end.

(** [shutil.copytree(item, dest)] for a directory of the snapshot, which
    refuses a destination that exists, and [shutil.copy2(item, dest)] for a
    file, which copies into the destination when that is a directory. *)
Definition copy_item (o : restore_oracle) (nm : string) (v : node) (save : list dirent)
  : list dirent * option exn :=
  if is_dir v then
    if exists_in nm save then (save, Some (OSError (Some EEXIST)))
    else
      match copy_back o nm with
      | None => (put_entry nm v save, None)
      | Some e => (put_left nm (copy_back_leaves o nm) save, Some e)
      end
  else
    match lookup nm save with
    | Some (Dir inner) =>
        match lookup nm inner with
        | Some (Dir _) => (save, Some (OSError (Some EISDIR)))
        | _ =>
            match copy_back o nm with
            | None => (put_entry nm (Dir (put_entry nm v inner)) save, None)
            | Some e =>
                (match copy_back_leaves o nm with
                 | Some v' => put_entry nm (Dir (put_entry nm v' inner)) save
                 | None => save
                 end, Some e)
            end
        end
    | _ =>
        match copy_back o nm with
        | None => (put_entry nm v save, None)
        | Some e => (put_left nm (copy_back_leaves o nm) save, Some e)
        end
    end.

(** The copy phase: every entry of the snapshot but the description
    sidecar is copied into [save_dir]. After each copy [show_progress]
    divides by [total], the number of files of the snapshot. *)
Fixpoint copy_phase (o : restore_oracle) (total : nat) (items : list dirent)
  (save : list dirent) : list dirent * outcome bool :=
  match items with
  | [] => (save, Returns true)
  | (nm, v) :: rest =>
      if String.eqb nm description_file then copy_phase o total rest save
      else
        match copy_item o nm v save with
        | (save', Some e) => (save', Raises e)
        | (save', None) =>
            if Nat.eqb total 0
            then (save', Raises (OtherException "ZeroDivisionError"))
            else copy_phase o total rest save'
        end
  end.

Definition restore_backup (m : manager) (o : restore_oracle) (backup_choice : Z)
  (w : restore_world) : bool * restore_world :=
  let listed :=
    match backup_root_of w with
    | Some root => _get_backup_list m root
    | None => []
    end in
  match listed with
  | [] => (false, w)
  | _ :: _ =>
      if (backup_choice <? 1)%Z || (backup_choice >? Z.of_nat (length listed))%Z
      then (false, w)
      else
        let backup_name := nth (Z.to_nat (backup_choice - 1)) listed "" in
        match delete_phase o (map fst (save_entries w)) (save_entries w) with
        | (save1, Returns true) =>
            let w1 := {| save_entries := save1; backups := backups w |} in
            match backup_root_of w1 with
            | Some root =>
                match listed_node m root backup_name with
                | Some (Dir snap) =>
                    match copy_phase o (count_files (Dir snap)) snap save1 with
                    | (save2, Returns ok) =>
                        (ok, {| save_entries := save2; backups := backups w |})
                    | (save2, Raises _) =>
                        (false, {| save_entries := save2; backups := backups w |})
                    end
                | _ => (false, w1)   (* [iterdir] raises: the snapshot is gone *)
                end
            | None => (false, w1)
            end
        | (save1, _) => (false, {| save_entries := save1; backups := backups w |})
        end
  end.

(** ** Successive calls of [create_backup] on one backup root *)

Record call : Type := {
  call_oracle : oracle;
  call_description : option string;
  call_save_dir : node       (* the save directory as it is at that call *)
}.

Definition call_name (c : call) : string := backup_name_at (now (call_oracle c)).

(** What the calls returned, in order, and the backup root after the last. *)
Fixpoint run_calls {rt : Runtime} (m : manager) (calls : list call) (root : list dirent)
  : list (option string) * list dirent :=
  match calls with
  | [] => ([], root)
  | c :: rest =>
      let r := create_backup m (call_oracle c) (call_description c) (call_save_dir c) root in
      let rs := run_calls m rest (snd (fst r)) in
      (fst (fst r) :: fst rs, snd rs)
  end.

(** ** Concrete inputs, to run the definitions *)

(** A stand-in for the two library functions: the digest is the data
    itself, the JSON text is the checksum followed by the method. It keeps
    distinct inputs distinct, which is all the runs below need. *)
Definition stand_in_runtime : Runtime := {|
  sha256 := fun data => data;
  json_dumps := fun mt =>
    encode (checksum mt) ++
    encode (match meta_move_method mt with
            | atomic => "atomic"
            | copied => "copied"
            | recovered_atomic => "recovered_atomic"
            | recovered_copied => "recovered_copied"
            end)
|}.

Definition example_manager (keep : Z) : manager := {|
  max_backups := keep;
  skip_locked_files := false;
  retries := 3;
  retry_delay := Finite (1 # 2);
  os_nt := false;
  backup_dir := "/data/backups";
  dir_matches_itself := true;
  found_elsewhere := [];
  backup_dir_below_save := None
|}.

Definition copy_succeeds : copy_oracle := {|
  copy2 := fun _ => None;
  copy2_leaves := fun _ => Untouched;
  win32 := fun _ => InvalidHandle;
  sleep_overflows := fun _ => false
|}.

(** Every library call succeeds; the clock shows [t]. *)
Definition calm_oracle (t : datetime) : oracle := {|
  now := t;
  completed_at_text := "2025-01-01T12:00:00.000001";
  mkdtemp_suffixes := ["k3x9q2ab"];
  copy_outcomes := fun _ => copy_succeeds;
  write_description := None;
  replace_outcome := fun _ => None;
  move_outcome := fun _ => Moved;
  rmtree_outcome := fun _ => Removed;
  access := fun _ => ReadOk;
  meta_outcome := fun _ => MetaWritten
|}.

Definition at_noon (s : nat) : datetime :=
  {| year := 2025; month := 1; day := 1; hour := 12; minute := 0; second := s |}.

(** The source of the scenario of the specification: [a.txt] of three
    bytes and an empty [b/c.txt]. *)
Definition example_save_dir : node :=
  Dir [("b", Dir [("c.txt", File [])]); ("a.txt", File (encode "abc"))].

Definition example_save_dir_reordered : node :=
  Dir [("a.txt", File (encode "abc")); ("b", Dir [("c.txt", File [])])].

Definition call_at (s : nat) : call := {|
  call_oracle := calm_oracle (at_noon s);
  call_description := None;
  call_save_dir := example_save_dir
|}.

(** ** Vocabulary of the statements about recovery *)

(** The entry [nm] of the backup root is a leftover staging directory:
    a directory whose name starts with [.backup_]. *)
Definition leftover_at (nm : string) (root : list dirent) : bool :=
  match lookup nm root with
  | Some (Dir _) => startswith ".backup_" nm
  | _ => false
  end.

(** The entries of a directory; a file has none. *)
Definition entries (n : node) : list dirent :=
  match n with
  | Dir es => es
  | File _ => []
  end.

(** What the hasher feeds for one file, on its own. *)
Definition segment (sep : string) (access : path -> read_status)
  (pf : path * list byte) : list byte :=
  feed_file sep (access (fst pf)) [] (fst pf) (snd pf).

(** The value of a lowercase hexadecimal digit. *)
Definition unhex_digit (c : ascii) : N :=
  let n := N_of_ascii c in
  if N.leb n 57 then (n - 48)%N else (n - 87)%N.

(** A backup root holding one leftover staging directory. *)
Definition root_with_leftover : list dirent :=
  [(".backup_20250101_120000.k3x9q2ab", Dir [("a.txt", File (encode "abc"))]);
   ("backup_20241231_090000", Dir [("a.txt", File (encode "ab"))])].

(** The standard copy fails on every attempt with [PermissionError]. *)
Definition always_locked : copy_oracle := {|
  copy2 := fun _ => Some PermissionError;
  copy2_leaves := fun _ => Untouched;
  win32 := fun _ => InvalidHandle;
  sleep_overflows := fun _ => false
|}.


(** A save directory without any file. *)
Definition empty_save_dir : node := Dir [("slots", Dir [])].

(** A save directory whose backup directory is its entry [bk]. *)
Definition nested_world : restore_world := {|
  save_entries :=
    [("slot1.sav", File (encode "new"));
     ("bk", Dir [("backup_20250101_120000", Dir [("slot1.sav", File (encode "old"))])])];
  backups := Nested "bk"
|}.

(** The same with the backup directory called [backups]. *)
Definition default_world : restore_world := {|
  save_entries :=
    [("slot1.sav", File (encode "new"));
     ("backups", Dir [("backup_20250101_120000", Dir [("slot1.sav", File (encode "old"))])])];
  backups := Nested "backups"
|}.

Definition calm_restore : restore_oracle := {|
  script_name := None;
  unlink_outcome := fun _ => Unlinked;
  shell_outcome := fun _ => Some true;
  copy_back := fun _ => None;
  copy_back_leaves := fun _ => None
|}.

(** ** Further vocabulary of the statements *)

(** Strictly increasing keys. *)
Definition key_lt {A : Type} (key : A -> string) (x y : A) : Prop :=
  str_lt (key x) (key y).

(** The order of the visit, on files with their content. *)
Definition visit_lt (a b : path * list byte) : Prop := walk_lt (fst a) (fst b).

(** The call of the locked-file fallback, made on Windows only. *)
Definition fallback_events (m : manager) (attempt : nat) : list event :=
  if os_nt m then [Win32ReadCalled attempt] else [].

(** One failed attempt that is followed by another one. *)
Definition failed_attempt (m : manager) (attempt : nat) : list event :=
  Copy2Called attempt :: fallback_events m attempt
    ++ [Slept (retry_delay m) attempt].

(** The failed attempt after which no other one follows. *)
Definition last_attempt (m : manager) (attempt : nat) : list event :=
  Copy2Called attempt :: fallback_events m attempt
    ++ (if skip_locked_files m then [SkippingLockedFile] else []).

(** The names that [glob] keeps for the pattern [backup_*]. *)
Definition visible (m : manager) (nm : string) : bool :=
  negb (_ishidden nm) && startswith "backup_" (normcase m nm).

(** The order of the listing. *)
Definition newest_first (a b : string) : Prop := str_lt b a.

(** The names on which [shutil.rmtree] was called, in order. *)
Definition rmtree_calls (ev : list event) : list string :=
  flat_map (fun e => match e with RmtreeCalled nm => [nm] | _ => [] end) ev.

(** The removal of a final directory that is already there. *)
Definition collision_events (final : string) (root : list dirent) : list event :=
  if exists_in final root then [RmtreeCalled final] else [].

(** ** [delete_backup], called with a backup number and
    [skip_confirmation=True] *)

Definition delete_backup (m : manager) (o : oracle) (backup_choice : Z)
  (root : list dirent) : bool * list dirent * list event :=
  let backups := _get_backup_list m root in
  match backups with
  | [] => (false, root, [])
  | _ :: _ =>
      if (backup_choice <? 1)%Z || (backup_choice >? Z.of_nat (length backups))%Z
      then (false, root, [])
      else
        let backup_name := nth (Z.to_nat (backup_choice - 1)) backups "" in
        match remove_listed m o backup_name root with
        | (root', Returns _) => (true, root', [RmtreeCalled backup_name])
        | (root', Raises _) => (false, root', [RmtreeCalled backup_name])
        end
  end.

(** ** [cleanup_backups] *)

(** [confirm.lower() == 'y'] *)
Definition answered_yes (confirm : string) : bool :=
  String.eqb confirm "y" || String.eqb confirm "Y".

(** The body of its loop, which goes on after a failure. *)
Definition delete_listed (m : manager) (o : oracle) (st : list dirent * list event)
  (nm : string) : list dirent * list event :=
  (fst (remove_listed m o nm (fst st)), snd st ++ [RmtreeCalled nm]).

(** [confirm] is what the user types at the prompt, which is shown only
    when there is something to delete. *)
Definition cleanup_backups (m : manager) (o : oracle) (keep_count : option Z)
  (confirm : string) (root : list dirent) : list dirent * list event :=
  let keep := match keep_count with Some k => k | None => max_backups m end in
  let backups := _get_backup_list m root in
  if (Z.of_nat (length backups) <=? keep)%Z then (root, [])
  else
    let backups_to_delete := py_slice_from keep backups in
    if answered_yes confirm
    then fold_left (delete_listed m o) backups_to_delete (root, [])
    else (root, []).

(** ** Vocabulary of the statements about the copy *)


(** No component of the path is a name that [ignore_patterns] drops. *)
Definition no_ignored (m : manager) (p : path) : bool :=
  forallb (fun k => negb (ignored m k)) p.

(** How many entries of a listing of [len] snapshots the slice
    [backups[k:]] leaves in front of it. *)
Definition kept_count (k : Z) (len : nat) : nat :=
  if (k <? 0)%Z then Z.to_nat (Z.max 0 (Z.of_nat len + k)) else Z.to_nat k.

(** ** The games configuration *)

(** A Python [dict] with string keys: keys are unique, a new key goes to
    the end, an assignment to an existing key keeps its place. *)
Fixpoint dict_get {V : Type} (k : string) (d : list (string * V)) : option V :=
  match d with
  | [] => None
  | (k', v) :: r => if String.eqb k' k then Some v else dict_get k r
  end.

Fixpoint dict_set {V : Type} (k : string) (v : V) (d : list (string * V))
  : list (string * V) :=
  match d with
  | [] => [(k, v)]
  | (k', w) :: r => if String.eqb k' k then (k', v) :: r else (k', w) :: dict_set k v r
  end.

Definition dict_del {V : Type} (k : string) (d : list (string * V)) : list (string * V) :=
  filter (fun e => negb (String.eqb (fst e) k)) d.

(** The values of a game entry: a string, or some other JSON value, kept
    as its text with what [bool] makes of it. *)
Inductive jvalue : Type :=
| JString (s : string)
| JOther (text : string) (truth : bool).

Definition game_info : Type := list (string * jvalue).

(** The configuration: [games] is absent when the key is missing;
    [settings] is carried along. *)
Record config : Type := {
  games : option (list (string * game_info));
  settings : list (string * jvalue)
}.

(** [config.get("games", {})] *)
Definition games_of (c : config) : list (string * game_info) :=
  match games c with Some g => g | None => [] end.

(** [list_games] *)
Definition list_games (c : config) : list (string * game_info) := games_of c.

(** The configuration file: missing, holding a configuration, or holding
    something [json.load] rejects. What [json.dump] wrote is what
    [json.load] reads back. *)
Inductive config_file : Type :=
| FileMissing
| FileHolds (c : config)
| FileCorrupt.

(** [save_games_config]: [ok] tells whether the file could be written; a
    failure is printed and nothing is raised. *)
Definition save_games_config (ok : bool) (c : config) (file : config_file) : config_file :=
  if ok then FileHolds c else file.

Definition default_config : config := {|
  games := Some [("example_game",
                  [("name", JString "Example Game");
                   ("save_path", JString "C:\Users\{username}\Documents\Example Game\Saves");
                   ("backup_path", JString "C:\Users\{username}\Documents\Example Game\Backups");
                   ("description", JString "Example game configuration")])];
  settings := [("default_max_backups", JOther "10" true);
               ("auto_expand_paths", JOther "true" true);
               ("default_backup_path", JString "./backups")]
|}.

Definition fallback_config : config := {|
  games := Some [];
  settings := [("default_max_backups", JOther "10" true)]
|}.

(** [load_games_config]: the configuration returned and the file
    afterwards (a missing file is created with the default). *)
Definition load_games_config (save_ok : bool) (file : config_file) : config * config_file :=
  match file with
  | FileHolds c => (c, file)
  | FileMissing => (default_config, save_games_config save_ok default_config file)
  | FileCorrupt => (fallback_config, file)
  end.

(** [if default:] *)
Definition truthy_value (v : option jvalue) : bool :=
  match v with
  | Some (JString s) => negb (String.eqb s "")
  | Some (JOther _ truth) => truth
  | None => false
  end.

(** [get_user_input_with_prompt]: [response] is the line typed, stripped. *)
Definition get_user_input_with_prompt (default : option jvalue) (response : string)
  : jvalue :=
  if String.eqb response "" then
    match default with
    | Some d => if truthy_value default then d else JString ""
    | None => JString ""
    end
  else JString response.

(** The text of a value that is a string. *)
Definition text_of (v : jvalue) : string :=
  match v with JString s => s | JOther text _ => text end.

(** [' ' in s] *)
Fixpoint has_space (s : string) : bool :=
  match s with
  | EmptyString => false
  | String c r => Ascii.eqb c " "%char || has_space r
  end.

(** What the user types in [add_game_to_config], each line stripped, and
    what the environment answers. *)
Record add_inputs : Type := {
  in_game_id : string;
  in_name : string;
  in_save_path : string;
  in_backup_path : string;
  in_description : string;
  save_path_exists : bool;     (* [os.path.exists(expand_path(save_path))] *)
  in_add_anyway : string;      (* the answer to "Add anyway?" *)
  write_ok : bool              (* whether the file can be written *)
}.

(** [add_game_to_config]: the configuration object and the file
    afterwards. *)
Definition add_game_to_config (i : add_inputs) (c : config) (file : config_file)
  : config * config_file :=
  let game_id := text_of (get_user_input_with_prompt None (in_game_id i)) in
  if String.eqb game_id "" || has_space game_id then (c, file)
  else
    match dict_get game_id (games_of c) with
    | Some _ => (c, file)
    | None =>
        let name := get_user_input_with_prompt None (in_name i) in
        if String.eqb (text_of name) "" then (c, file)
        else
          let save_path := get_user_input_with_prompt None (in_save_path i) in
          if String.eqb (text_of save_path) "" then (c, file)
          else
            let backup_path := get_user_input_with_prompt None (in_backup_path i) in
            let description := get_user_input_with_prompt None (in_description i) in
            if negb (save_path_exists i) && negb (answered_yes (in_add_anyway i))
            then (c, file)
            else
              let c' := {|
                games := Some (dict_set game_id
                                 [("name", name);
                                  ("save_path", save_path);
                                  ("backup_path", backup_path);
                                  ("description", description)]
                                 (games_of c));
                settings := settings c |} in
              (c', save_games_config (write_ok i) c' file)
    end.

(** What the user answers to the question for a number: [q], or the text
    of a number, or something else. *)
Inductive menu_choice : Type :=
| Quit
| Number (n : Z)
| NotANumber.

(** [remove_game_from_config] *)
Definition remove_game_from_config (choice : menu_choice) (confirm : string)
  (write_ok : bool) (c : config) (file : config_file) : config * config_file :=
  let listed := list_games c in
  match listed with
  | [] => (c, file)
  | _ :: _ =>
      match choice with
      | Quit | NotANumber => (c, file)
      | Number n =>
          let index := (n - 1)%Z in
          if negb ((0 <=? index)%Z && (index <? Z.of_nat (length listed))%Z)
          then (c, file)
          else
            match nth_error listed (Z.to_nat index) with
            | None => (c, file)
            | Some (game_id, _) =>
                if negb (answered_yes confirm) then (c, file)
                else
                  let c' := {| games := Some (dict_del game_id (games_of c));
                               settings := settings c |} in
                  (c', save_games_config write_ok c' file)
            end
      end
  end.





(** ** Further vocabulary and concrete inputs *)

(** The manager with another limit. *)
Definition with_max_backups (k : Z) (m : manager) : manager := {|
  max_backups := k;
  skip_locked_files := skip_locked_files m;
  retries := retries m;
  retry_delay := retry_delay m;
  os_nt := os_nt m;
  backup_dir := backup_dir m;
  dir_matches_itself := dir_matches_itself m;
  found_elsewhere := found_elsewhere m;
  backup_dir_below_save := backup_dir_below_save m
|}.

(** As [calm_oracle], but every removal of a directory fails and leaves
    the directory empty. *)
Definition rmtree_fails_oracle (t : datetime) : oracle := {|
  now := t;
  completed_at_text := "2025-01-01T12:00:00.000001";
  mkdtemp_suffixes := ["k3x9q2ab"];
  copy_outcomes := fun _ => copy_succeeds;
  write_description := None;
  replace_outcome := fun _ => None;
  move_outcome := fun _ => Moved;
  rmtree_outcome := fun _ => RemoveFails PermissionError (Dir []);
  access := fun _ => ReadOk;
  meta_outcome := fun _ => MetaWritten
|}.

(** Three snapshots, listed in the order of creation. *)
Definition three_snapshots : list dirent :=
  [("backup_20250101_120000", Dir [("a.txt", File (encode "a"))]);
   ("backup_20250101_120001", Dir [("a.txt", File (encode "ab"))]);
   ("backup_20250101_120002", Dir [("a.txt", File (encode "abc"))])].

(** A save directory whose backup directory lies outside of it and holds
    one snapshot with its two sidecars. *)
Definition outside_world : restore_world := {|
  save_entries :=
    [("slot1.sav", File (encode "new")); ("slot2.sav", File (encode "extra"))];
  backups :=
    Elsewhere
      [("backup_20250101_120000",
        Dir [("slot1.sav", File (encode "old"));
             (".backup_description", File (encode "before boss"));
             (".backup_meta.json", File (encode "{}"))])]
|}.

(** What the delete phase of [restore_backup] leaves of an entry. *)
Definition spared (o : restore_oracle) (save : list dirent) (k : string) : option node :=
  if to_remove o k then None else lookup k save.

(** What the copy phase of [restore_backup] takes from a snapshot. *)
Definition restored_from (snap : list dirent) (k : string) : option node :=
  if String.eqb k description_file then None else lookup k snap.




(** As [calm_oracle], but [os.replace] fails with an error that is not
    [EXDEV]. *)
Definition replace_fails_oracle (t : datetime) : oracle := {|
  now := t;
  completed_at_text := "2025-01-01T12:00:00.000001";
  mkdtemp_suffixes := ["k3x9q2ab"];
  copy_outcomes := fun _ => copy_succeeds;
  write_description := None;
  replace_outcome := fun _ => Some PermissionError;
  move_outcome := fun _ => Moved;
  rmtree_outcome := fun _ => Removed;
  access := fun _ => ReadOk;
  meta_outcome := fun _ => MetaWritten
|}.


(** As [calm_oracle], but the staging directory lies on another file
    system than its final place and the move that copies it there fails:
    its [copytree] has copied the directory [b], cannot copy the file
    [a.txt] and raises [shutil.Error] in the end. *)
Definition half_moved_oracle (t : datetime) : oracle := {|
  now := t;
  completed_at_text := "2025-01-01T12:00:00.000001";
  mkdtemp_suffixes := ["k3x9q2ab"];
  copy_outcomes := fun _ => copy_succeeds;
  write_description := None;
  replace_outcome := fun _ => Some (OSError (Some EXDEV));
  move_outcome := fun _ => MoveFails (OSError None)
                              (Some (Dir [("b", Dir [("c.txt", File [])])]));
  rmtree_outcome := fun _ => Removed;
  access := fun _ => ReadOk;
  meta_outcome := fun _ => MetaWritten
|}.

(** What that failed call leaves in an empty backup root. *)
Definition half_moved_root : list dirent :=
  [("backup_20250101_120000", Dir [("b", Dir [("c.txt", File [])])])].

(** What one failed attempt of [_safe_copy] leaves at the destination
    that the attempts before it left as [dst]. *)
Definition attempt_leaves (m : manager) (o : copy_oracle) (dst : left_at_dst)
  (attempt : nat) : left_at_dst :=
  let dst1 := overwrite (copy2_leaves o attempt) dst in
  if os_nt m then
    match win32 o attempt with
    | Win32Raises remains => overwrite remains dst1
    | _ => dst1
    end
  else dst1.

(** A manager that skips locked files, with a delay below zero. *)
Definition negative_delay_manager : manager := {|
  max_backups := 10;
  skip_locked_files := true;
  retries := 3;
  retry_delay := Finite (-1 # 2);
  os_nt := false;
  backup_dir := "/data/backups";
  dir_matches_itself := true;
  found_elsewhere := [];
  backup_dir_below_save := None
|}.

(** A manager that skips locked files, on Windows or not. *)
Definition skipping_manager (nt : bool) : manager := {|
  max_backups := 10;
  skip_locked_files := true;
  retries := 2;
  retry_delay := Finite (1 # 2);
  os_nt := nt;
  backup_dir := "/data/backups";
  dir_matches_itself := true;
  found_elsewhere := [];
  backup_dir_below_save := None
|}.

(** The standard copy fails on every attempt after it has created the
    destination; [CreateFileW] gives no handle. *)
Definition truncating_copy : copy_oracle := {|
  copy2 := fun _ => Some PermissionError;
  copy2_leaves := fun _ => Holds [];
  win32 := fun _ => InvalidHandle;
  sleep_overflows := fun _ => false
|}.

(** A save directory as a restore leaves it: with the metadata sidecar
    of the snapshot it was restored from. *)
Definition restored_save_dir : node :=
  Dir [("a.txt", File (encode "abc")); (".backup_meta.json", File (encode "{}"))].

(** ** Vocabulary and inputs of the statements about the configuration *)


(** The entry that [add_game_to_config] builds from what was typed. *)
Definition new_game (i : add_inputs) : game_info :=
  [("name", JString (in_name i));
   ("save_path", JString (in_save_path i));
   ("backup_path", JString (in_backup_path i));
   ("description", JString (in_description i))].

(** What [add_game_to_config] asks for before it adds the game. *)
Definition add_accepted (i : add_inputs) (c : config) : Prop :=
  in_game_id i <> "" /\ has_space (in_game_id i) = false /\
  dict_get (in_game_id i) (games_of c) = None /\
  in_name i <> "" /\ in_save_path i <> "" /\
  (save_path_exists i = true \/ answered_yes (in_add_anyway i) = true).


Definition two_games : config := {|
  games := Some [("skyrim", [("name", JString "Skyrim");
                             ("save_path", JString "/saves/skyrim");
                             ("backup_path", JString "");
                             ("description", JString "modded")]);
                 ("celeste", [("name", JString "Celeste");
                              ("save_path", JString "/saves/celeste");
                              ("backup_path", JString "/bk/celeste");
                              ("description", JString "")])];
  settings := [("default_max_backups", JOther "5" true)]
|}.

Definition hades_inputs : add_inputs := {|
  in_game_id := "hades";
  in_name := "Hades";
  in_save_path := "/saves/hades";
  in_backup_path := "";
  in_description := "";
  save_path_exists := true;
  in_add_anyway := "";
  write_ok := true
|}.


(** As [calm_restore], but nothing can be copied back. *)
Definition copy_back_fails : restore_oracle := {|
  script_name := None;
  unlink_outcome := fun _ => Unlinked;
  shell_outcome := fun _ => Some true;
  copy_back := fun _ => Some (OSError None);
  copy_back_leaves := fun _ => None
|}.

(** A backup root with one populated leftover staging directory and an
    older snapshot. *)
Definition crashed_root : list dirent :=
  [("backup_20241231_090000", Dir [("a.txt", File (encode "ab"))]);
   (".backup_20250101_120000.k3x9q2ab", Dir [("a.txt", File (encode "abc"))])].


(* ================================================================== *)
(** * Part II: properties *)
(* ================================================================== *)

(** ** The order on names *)

Lemma ascii_compare_refl (c : ascii) : Ascii.compare c c = Eq.
Proof. unfold Ascii.compare. apply N.compare_refl. Qed.

Lemma str_compare_refl (s : string) : String.compare s s = Eq.
Proof.
  induction s as [|c s IH]; simpl; [reflexivity|].
  now rewrite ascii_compare_refl.
Qed.

Lemma str_lt_irrefl (s : string) : ~ str_lt s s.
Proof. unfold str_lt. rewrite str_compare_refl. discriminate. Qed.

Lemma str_lt_trans (a b c : string) : str_lt a b -> str_lt b c -> str_lt a c.
Proof.
  unfold str_lt. revert b c.
  induction a as [|x a IH]; intros [|y b] [|z c]; simpl; try discriminate; auto.
  unfold Ascii.compare.
  destruct (N.compare_spec (N_of_ascii x) (N_of_ascii y)) as [E1|L1|G1];
    try discriminate;
    destruct (N.compare_spec (N_of_ascii y) (N_of_ascii z)) as [E2|L2|G2];
    try discriminate; intros H1 H2.
  - rewrite E1, E2, N.compare_refl. eapply IH; eauto.
  - rewrite E1. now apply N.compare_lt_iff in L2 as ->.
  - rewrite <- E2. now apply N.compare_lt_iff in L1 as ->.
  - assert (L : (N_of_ascii x < N_of_ascii z)%N) by lia.
    now apply N.compare_lt_iff in L as ->.
Qed.

Lemma str_lt_asym (a b : string) : str_lt a b -> str_lt b a -> False.
Proof. intros H1 H2. exact (str_lt_irrefl a (str_lt_trans _ _ _ H1 H2)). Qed.

Lemma leb_false_lt (a b : string) : String.leb a b = false -> str_lt b a.
Proof.
  unfold String.leb, str_lt. rewrite (String.compare_antisym b a).
  destruct (String.compare a b); simpl; congruence.
Qed.

Lemma leb_true_cases (a b : string) : String.leb a b = true -> a = b \/ str_lt a b.
Proof.
  unfold String.leb, str_lt.
  destruct (String.compare a b) eqn:E; try discriminate; auto.
  left. now apply String.compare_eq_iff.
Qed.

(** ** Sorting *)

Section Sorting.
Context {A : Type} (key : A -> string).

Lemma insert_by_perm (x : A) (l : list A) : Permutation (insert_by key x l) (x :: l).
Proof.
  induction l as [|y l IH]; simpl; [reflexivity|].
  destruct (String.leb (key x) (key y)); [reflexivity|].
  rewrite IH. apply perm_swap.
Qed.

Lemma sort_by_perm (l : list A) : Permutation (sort_by key l) l.
Proof.
  induction l as [|x l IH]; simpl; [reflexivity|].
  rewrite insert_by_perm. now constructor.
Qed.

Lemma sort_by_In (x : A) (l : list A) : In x (sort_by key l) <-> In x l.
Proof.
  split; apply Permutation_in; [|symmetry]; apply sort_by_perm.
Qed.

Lemma insert_by_sorted (x : A) (l : list A) :
  ~ In (key x) (map key l) ->
  StronglySorted (key_lt key) l -> StronglySorted (key_lt key) (insert_by key x l).
Proof.
  induction l as [|y l IH]; simpl; intros Hn Hs.
  - repeat constructor.
  - inversion Hs as [|? ? Hs' Hall]; subst.
    destruct (String.leb (key x) (key y)) eqn:E.
    + apply leb_true_cases in E as [E|E]; [exfalso; apply Hn; now left|].
      constructor; [assumption|]. constructor; [exact E|].
      eapply Forall_impl; [|exact Hall]. intros z Hz.
      eapply str_lt_trans; eauto.
    + apply leb_false_lt in E.
      constructor; [apply IH; tauto|].
      rewrite Forall_forall. intros z Hz.
      apply (Permutation_in _ (insert_by_perm x l)) in Hz as [<-|Hz]; [exact E|].
      rewrite Forall_forall in Hall. now apply Hall.
Qed.

Lemma sort_by_sorted (l : list A) :
  NoDup (map key l) -> StronglySorted (key_lt key) (sort_by key l).
Proof.
  induction l as [|x l IH]; simpl; intros Hd; [constructor|].
  inversion Hd; subst. apply insert_by_sorted; [|now apply IH].
  intros Hin. apply in_map_iff in Hin as (y & Hk & Hy).
  apply (proj1 (sort_by_In y l)) in Hy. apply H1. rewrite <- Hk. now apply in_map.
Qed.

(** Two strictly sorted lists with the same elements are the same list. *)
Lemma sorted_unique (lt : A -> A -> Prop) (l1 l2 : list A) :
  (forall x, ~ lt x x) ->
  (forall x y, lt x y -> lt y x -> False) ->
  StronglySorted lt l1 -> StronglySorted lt l2 ->
  (forall x, In x l1 <-> In x l2) -> l1 = l2.
Proof.
  intros Hirr Hasym. revert l2.
  induction l1 as [|x l1 IH]; intros [|y l2] H1 H2 Hin.
  - reflexivity.
  - exfalso. now apply (Hin y); left.
  - exfalso. now apply (Hin x); left.
  - inversion H1 as [|? ? H1' A1]; inversion H2 as [|? ? H2' A2]; subst.
    rewrite Forall_forall in A1, A2.
    assert (x = y) as ->.
    { destruct (proj1 (Hin x) (or_introl eq_refl)) as [E|Hx]; [now symmetry|].
      destruct (proj2 (Hin y) (or_introl eq_refl)) as [E|Hy]; [assumption|].
      exfalso. eapply Hasym; [apply (A1 _ Hy)| apply (A2 _ Hx)]. }
    f_equal. apply IH; try assumption.
    intros z; split; intros Hz.
    + destruct (proj1 (Hin z) (or_intror Hz)) as [E|]; [|assumption].
      subst. exfalso. apply (Hirr z), (A1 _ Hz).
    + destruct (proj2 (Hin z) (or_intror Hz)) as [E|]; [|assumption].
      subst. exfalso. apply (Hirr z), (A2 _ Hz).
Qed.
End Sorting.

(** ** Trees and [os.walk] *)

Lemma node_nested_ind (P : node -> Prop)
  (HF : forall c, P (File c))
  (HD : forall es, Forall (fun e => P (snd e)) es -> P (Dir es)) :
  forall n, P n.
Proof.
  fix IH 1. intros [c|es]; [apply HF|]. apply HD.
  induction es as [|e r IHr]; constructor; [apply IH|exact IHr].
Qed.

Lemma wf_node_Dir (es : list dirent) :
  wf_node (Dir es) <-> NoDup (map fst es) /\ Forall (fun e => wf_node (snd e)) es.
Proof.
  simpl. apply and_iff_compat_l.
  induction es as [|e r IH]; simpl.
  - split; auto.
  - rewrite IH. split.
    + intros [H1 H2]. now constructor.
    + intros H. inversion H; subst. now split.
Qed.

Lemma lookup_In (nm : string) (v : node) (es : list dirent) :
  lookup nm es = Some v -> In (nm, v) es.
Proof.
  induction es as [|[k w] r IH]; simpl; [discriminate|].
  destruct (String.eqb_spec k nm) as [->|Hne].
  - intros [= ->]. now left.
  - intros H. right. now apply IH.
Qed.

Lemma In_lookup (nm : string) (v : node) (es : list dirent) :
  NoDup (map fst es) -> In (nm, v) es -> lookup nm es = Some v.
Proof.
  induction es as [|[k w] r IH]; simpl; [tauto|].
  intros Hd [[= -> ->]|Hin]; inversion Hd; subst.
  - now rewrite String.eqb_refl.
  - destruct (String.eqb_spec k nm) as [->|Hne]; [|now apply IH].
    exfalso. apply H1. change nm with (fst (nm, v)). now apply in_map.
Qed.

Lemma files_of_In (nm : string) (c : list byte) (es : list dirent) :
  In (nm, c) (files_of es) <-> In (nm, File c) es.
Proof.
  induction es as [|[k [c'|es']] r IH]; simpl; [tauto| |].
  - rewrite IH. split; intros [H|H]; auto; left; congruence.
  - rewrite IH. split; [auto|]. intros [H|H]; [discriminate|assumption].
Qed.

Lemma files_of_names_incl (es : list dirent) :
  forall nm, In nm (map fst (files_of es)) -> In nm (map fst es).
Proof.
  intros nm H. apply in_map_iff in H as ([k c] & <- & H).
  apply files_of_In in H. simpl. apply in_map_iff. now exists (k, File c).
Qed.

Lemma files_of_NoDup (es : list dirent) :
  NoDup (map fst es) -> NoDup (map fst (files_of es)).
Proof.
  induction es as [|[k [c'|es']] r IH]; simpl; intros Hd; inversion Hd; subst.
  - constructor.
  - constructor; [|now apply IH]. intros H. now apply H1, files_of_names_incl.
  - now apply IH.
Qed.

Lemma dirnames_In (d : string) (es : list dirent) :
  In d (dirnames es) <-> exists sub, In (d, Dir sub) es.
Proof.
  unfold dirnames. rewrite in_map_iff. split.
  - intros ([k v] & <- & H). apply filter_In in H as [H Hd].
    destruct v; [discriminate|]. simpl. eauto.
  - intros (sub & H). exists (d, Dir sub). split; [reflexivity|].
    apply filter_In. now split.
Qed.

Lemma dirnames_NoDup (es : list dirent) :
  NoDup (map fst es) -> NoDup (dirnames es).
Proof.
  unfold dirnames.
  induction es as [|[k v] r IH]; simpl; intros Hd; inversion Hd; subst.
  - constructor.
  - destruct (is_dir v); simpl; [|now apply IH].
    constructor; [|now apply IH].
    intros H. apply H1. apply in_map_iff in H as (e & <- & H).
    apply filter_In in H as [H _]. now apply in_map.
Qed.

(** The recursion of [os_walk], with the table of sub-walks read back as
    a lookup in the directory. *)
Lemma os_walk_Dir (reorder : list string -> list string) (root : path)
  (es : list dirent) :
  os_walk reorder root (Dir es) =
  (root, reorder (dirnames es), files_of es)
    :: flat_map (fun d => match lookup d es with
                          | Some c => os_walk reorder (root ++ [d]) c
                          | None => []
                          end) (reorder (dirnames es)).
Proof.
  simpl. f_equal. apply flat_map_ext. intros d.
  induction es as [|[k v] r IH]; simpl; [reflexivity|].
  destruct (String.eqb_spec k d) as [->|Hne]; [reflexivity|apply IH].
Qed.

Lemma map_flat_map_comm {A B C : Type} (f : B -> C) (g : A -> list B) (l : list A) :
  map f (flat_map g l) = flat_map (fun x => map f (g x)) l.
Proof.
  induction l as [|x l IH]; simpl; [reflexivity|]. now rewrite map_app, IH.
Qed.

Lemma flat_map_map_comm {A B C : Type} (f : A -> B) (g : B -> list C) (l : list A) :
  flat_map g (map f l) = flat_map (fun x => g (f x)) l.
Proof.
  induction l as [|x l IH]; simpl; [reflexivity|]. now rewrite IH.
Qed.

Lemma flat_map_ext_In {A B : Type} (f g : A -> list B) (l : list A) :
  (forall a, In a l -> f a = g a) -> flat_map f l = flat_map g l.
Proof.
  induction l as [|x l IH]; simpl; intros H; [reflexivity|].
  rewrite (H x), IH; auto.
Qed.

Lemma os_walk_shift (reorder : list string -> list string) (pre : path) (n : node) :
  forall root,
    os_walk reorder (pre ++ root) n =
    map (fun it : walk_item => (pre ++ fst (fst it), snd (fst it), snd it))
      (os_walk reorder root n).
Proof.
  induction n as [c|es IH] using node_nested_ind; intros root; [reflexivity|].
  rewrite !os_walk_Dir.
  cbn [map fst snd]. f_equal.
  rewrite map_flat_map_comm.
  apply flat_map_ext_In. intros d Hd.
  destruct (lookup d es) as [c|] eqn:E; [|reflexivity].
  apply lookup_In in E. rewrite Forall_forall in IH.
  rewrite <- app_assoc. apply (IH _ E).
Qed.

Lemma files_visited_shift (pre : path) (t : node) :
  files_visited pre t =
  map (fun pf : path * list byte => (pre ++ fst pf, snd pf)) (files_visited [] t).
Proof.
  unfold files_visited.
  rewrite <- (app_nil_r pre) at 1. rewrite os_walk_shift.
  rewrite flat_map_map_comm, map_flat_map_comm.
  apply flat_map_ext. intros [[root dirs] fs]; simpl.
  rewrite map_map. apply map_ext. intros f; simpl. now rewrite app_assoc.
Qed.

Lemma files_visited_Dir (es : list dirent) :
  files_visited [] (Dir es) =
  map (fun f : string * list byte => ([fst f], snd f)) (sort_by fst (files_of es))
  ++ flat_map (fun d => match lookup d es with
                        | Some c => map (fun pf : path * list byte => (d :: fst pf, snd pf))
                                      (files_visited [] c)
                        | None => []
                        end) (sort_names (dirnames es)).
Proof.
  unfold files_visited at 1. rewrite os_walk_Dir.
  cbn [flat_map fst snd app]. f_equal.
  induction (sort_names (dirnames es)) as [|d l IH]; [reflexivity|].
  cbn [flat_map]. rewrite flat_map_app, IH. f_equal.
  destruct (lookup d es) as [c|]; [|reflexivity].
  exact (files_visited_shift [d] c).
Qed.

Lemma files_visited_File (c : list byte) : files_visited [] (File c) = [].
Proof. reflexivity. Qed.

(** The hasher visits exactly the files of the tree. *)
Lemma files_visited_In (t : node) :
  wf_node t ->
  forall p c, In (p, c) (files_visited [] t) <-> p <> [] /\ read_file t p = Some c.
Proof.
  induction t as [c0|es IH] using node_nested_ind; intros Hwf p c.
  - rewrite files_visited_File. simpl. split; [tauto|].
    intros [Hp H]. destruct p; [congruence|discriminate].
  - apply wf_node_Dir in Hwf as [Hnd Hsub].
    rewrite Forall_forall in IH, Hsub.
    rewrite files_visited_Dir, in_app_iff, in_map_iff, in_flat_map. split.
    + intros [([nm c'] & [= <- <-] & Hf)|(d & Hd & Hin)].
      * apply sort_by_In, files_of_In, (In_lookup _ _ _ Hnd) in Hf.
        split; [discriminate|]. simpl. now rewrite Hf.
      * destruct (lookup d es) as [sub|] eqn:E; [|destruct Hin].
        apply in_map_iff in Hin as ([p' c'] & [= <- <-] & Hin).
        pose proof (lookup_In _ _ _ E) as Hsubin.
        apply (IH _ Hsubin (Hsub _ Hsubin)) in Hin as [Hp' Hr].
        split; [discriminate|]. simpl. now rewrite E.
    + intros [Hp Hr]. destruct p as [|nm p']; [congruence|]. simpl in Hr.
      destruct (lookup nm es) as [sub|] eqn:E; [|discriminate].
      pose proof (lookup_In _ _ _ E) as Hsubin.
      destruct p' as [|x p''].
      * left. destruct sub as [c'|]; [|discriminate]. injection Hr as ->.
        exists (nm, c). split; [reflexivity|].
        now apply sort_by_In, files_of_In.
      * right. exists nm. split.
        { apply sort_by_In, dirnames_In.
          destruct sub as [|sub']; [discriminate|]. now exists sub'. }
        rewrite E. apply in_map_iff. exists (x :: p'', c). split; [reflexivity|].
        apply (IH _ Hsubin (Hsub _ Hsubin)). split; [discriminate|assumption].
Qed.

(** ** The order of the visit *)

Lemma walk_lt_irrefl (p : path) : ~ walk_lt p p.
Proof.
  induction p as [|a p IH]; simpl; [tauto|].
  destruct p as [|b p]; [apply str_lt_irrefl|].
  intros [H|[_ H]]; [exact (str_lt_irrefl _ H)|exact (IH H)].
Qed.


Lemma walk_lt_under (d : string) (p q : path) :
  p <> [] -> q <> [] -> walk_lt p q -> walk_lt (d :: p) (d :: q).
Proof. destruct p, q; try congruence. intros _ _ H. right. now split. Qed.

Lemma walk_lt_across (d d' : string) (p q : path) :
  p <> [] -> q <> [] -> str_lt d d' -> walk_lt (d :: p) (d' :: q).
Proof. destruct p, q; try congruence. intros _ _ H. now left. Qed.

Lemma walk_lt_file_first (a d : string) (q : path) : q <> [] -> walk_lt [a] (d :: q).
Proof. destruct q; [congruence|]. intros _. exact I. Qed.

Lemma StronglySorted_app {A : Type} (R : A -> A -> Prop) (l1 l2 : list A) :
  StronglySorted R l1 -> StronglySorted R l2 ->
  (forall x y, In x l1 -> In y l2 -> R x y) ->
  StronglySorted R (l1 ++ l2).
Proof.
  induction l1 as [|x l1 IH]; simpl; intros H1 H2 H; [assumption|].
  inversion H1; subst. constructor.
  - apply IH; auto.
  - rewrite Forall_forall in *. intros y Hy.
    apply in_app_iff in Hy as [Hy|Hy]; auto.
Qed.

Lemma StronglySorted_map {A B : Type} (R : A -> A -> Prop) (S : B -> B -> Prop)
  (f : A -> B) (l : list A) :
  (forall x y, In x l -> In y l -> R x y -> S (f x) (f y)) ->
  StronglySorted R l -> StronglySorted S (map f l).
Proof.
  induction l as [|x l IH]; simpl; intros Hf Hs; [constructor|].
  inversion Hs; subst. constructor.
  - apply IH; auto.
  - rewrite Forall_forall in *. intros y Hy.
    apply in_map_iff in Hy as (z & <- & Hz). auto.
Qed.

(** The visit is strictly increasing for [walk_lt]: directory listings are
    sorted at every level. *)
Lemma files_visited_sorted (t : node) :
  wf_node t -> StronglySorted visit_lt (files_visited [] t).
Proof.
  induction t as [c0|es IH] using node_nested_ind; intros Hwf.
  - rewrite files_visited_File. constructor.
  - pose proof Hwf as Hwf'.
    apply wf_node_Dir in Hwf as [Hnd Hsub].
    rewrite Forall_forall in IH, Hsub.
    rewrite files_visited_Dir. apply StronglySorted_app.
    + apply (StronglySorted_map (key_lt fst)).
      * intros x y _ _ H. exact H.
      * apply sort_by_sorted, files_of_NoDup, Hnd.
    + assert (Hds : StronglySorted str_lt (sort_names (dirnames es))).
      { apply (sort_by_sorted (fun s : string => s)).
        rewrite map_id. now apply dirnames_NoDup. }
      induction Hds as [|d ds Hds IHds Hall]; [constructor|].
      cbn [flat_map]. apply StronglySorted_app; [|exact IHds|].
      * destruct (lookup d es) as [sub|] eqn:E; [|constructor].
        pose proof (lookup_In _ _ _ E) as Hsubin.
        apply (StronglySorted_map visit_lt); [|exact (IH _ Hsubin (Hsub _ Hsubin))].
        intros [p c] [q c'] Hp Hq H.
        apply (files_visited_In _ (Hsub _ Hsubin)) in Hp as [Hp _], Hq as [Hq _].
        now apply walk_lt_under.
      * intros x y Hx Hy.
        destruct (lookup d es) as [sub|] eqn:E; [|destruct Hx].
        pose proof (lookup_In _ _ _ E) as Hsubin.
        apply in_map_iff in Hx as ([p c] & <- & Hp).
        apply (files_visited_In _ (Hsub _ Hsubin)) in Hp as [Hp _].
        apply in_flat_map in Hy as (d' & Hd' & Hy).
        destruct (lookup d' es) as [sub'|] eqn:E'; [|destruct Hy].
        pose proof (lookup_In _ _ _ E') as Hsubin'.
        apply in_map_iff in Hy as ([q c'] & <- & Hq).
        apply (files_visited_In _ (Hsub _ Hsubin')) in Hq as [Hq _].
        rewrite Forall_forall in Hall.
        apply walk_lt_across; auto.
    + intros x y Hx Hy.
      apply in_map_iff in Hx as ([a c] & <- & _).
      apply in_flat_map in Hy as (d & Hd & Hy).
      destruct (lookup d es) as [sub|] eqn:E; [|destruct Hy].
      pose proof (lookup_In _ _ _ E) as Hsubin.
      apply in_map_iff in Hy as ([q c'] & <- & Hq).
      apply (files_visited_In _ (Hsub _ Hsubin)) in Hq as [Hq _].
      now apply walk_lt_file_first.
Qed.


(** ** The hasher *)

Lemma fold_left_flat_map {A B C : Type} (f : C -> B -> C) (g : A -> list B)
  (l : list A) (h : C) :
  fold_left f (flat_map g l) h = fold_left (fun h x => fold_left f (g x) h) l h.
Proof.
  revert h. induction l as [|x l IH]; intros h; simpl; [reflexivity|].
  now rewrite fold_left_app, IH.
Qed.

Lemma fold_left_map {A B C : Type} (f : C -> B -> C) (g : A -> B) (l : list A) (h : C) :
  fold_left f (map g l) h = fold_left (fun h x => f h (g x)) l h.
Proof.
  revert h. induction l as [|x l IH]; intros h; simpl; [reflexivity|]. apply IH.
Qed.

Lemma hash_input_files_visited (sep : string) (access : path -> read_status) (t : node) :
  hash_input sep access t =
  fold_left (fun h (pf : path * list byte) =>
               feed_file sep (access (fst pf)) h (fst pf) (snd pf))
    (files_visited [] t) [].
Proof.
  unfold hash_input, files_visited. rewrite fold_left_flat_map.
  generalize (@nil byte) as h.
  induction (os_walk sort_names [] t) as [|[[root dirs] fs] l IH]; intros h;
    [reflexivity|].
  simpl. rewrite <- IH. f_equal. now rewrite fold_left_map.
Qed.



Lemma chunks_fuel_concat (n : nat) :
  0 < n -> forall fuel l, length l <= fuel -> List.concat (chunks_fuel fuel n l) = l.
Proof.
  intros Hn. induction fuel as [|fuel IH]; intros l Hl.
  - destruct l; [reflexivity|simpl in Hl; lia].
  - destruct l as [|b l]; [reflexivity|].
    cbn [chunks_fuel List.concat]. rewrite IH.
    + apply firstn_skipn.
    + rewrite length_skipn. cbn [List.length] in *. lia.
Qed.

(** Reading in chunks feeds the content of the file, whatever the chunk size. *)
Lemma fold_update_chunks (h content : list byte) :
  fold_left update (chunks chunk_size content) h = h ++ content.
Proof.
  assert (G : forall cs h, fold_left update cs h = h ++ List.concat cs).
  { induction cs as [|c cs IH]; intros h'; simpl.
    - now rewrite app_nil_r.
    - rewrite IH. unfold update. now rewrite app_assoc. }
  rewrite G. unfold chunks. rewrite chunks_fuel_concat; auto.
  apply Nat.ltb_lt. reflexivity.
Qed.

Lemma fold_update_concat (cs : list (list byte)) :
  forall h, fold_left update cs h = h ++ List.concat cs.
Proof.
  induction cs as [|c cs IH]; intros h; simpl.
  - now rewrite app_nil_r.
  - rewrite IH. unfold update. now rewrite app_assoc.
Qed.

Lemma feed_file_app (sep : string) (st : read_status) (h : list byte)
  (p : path) (content : list byte) :
  feed_file sep st h p content = h ++ feed_file sep st [] p content.
Proof.
  unfold feed_file.
  destruct st as [| | | |k]; try destruct (Nat.leb k (length (chunks chunk_size content)));
    rewrite ?fold_update_concat; unfold update;
    rewrite ?app_nil_l, <- ?app_assoc; reflexivity.
Qed.

Lemma hash_input_segments (sep : string) (access : path -> read_status) (t : node) :
  hash_input sep access t = List.concat (map (segment sep access) (files_visited [] t)).
Proof.
  rewrite hash_input_files_visited.
  assert (G : forall l h,
            fold_left (fun h (pf : path * list byte) =>
                         feed_file sep (access (fst pf)) h (fst pf) (snd pf)) l h
            = h ++ List.concat (map (segment sep access) l)).
  { induction l as [|pf l IH]; intros h; simpl.
    - now rewrite app_nil_r.
    - rewrite IH, feed_file_app. unfold segment. now rewrite app_assoc. }
  apply G.
Qed.



(** ** Listing *)

Lemma glob_backup_In (m : manager) (names : list string) (nm : string) :
  In nm (glob_backup m names) <->
  In nm names /\ _ishidden nm = false /\ startswith "backup_" (normcase m nm) = true.
Proof.
  unfold glob_backup. rewrite filter_In, andb_true_iff, negb_true_iff. tauto.
Qed.

(** With a backup path that holds no wildcard, the listing, the removal
    of a listed snapshot and the look-up of one stay in the backup root. *)
Lemma get_backup_list_plain (m : manager) {Hp : plain_path m} (root : list dirent) :
  _get_backup_list m root = rev (sort_names (glob_backup m (map fst root))).
Proof. unfold _get_backup_list. now rewrite plain_dir. Qed.

Lemma is_elsewhere_plain (m : manager) {Hp : plain_path m} (x : string) :
  is_elsewhere m x = false.
Proof. unfold is_elsewhere. now rewrite plain_dir. Qed.

Lemma remove_listed_plain (m : manager) {Hp : plain_path m} (o : oracle) (x : string)
  (root : list dirent) :
  remove_listed m o x root = _safe_rmtree o x root.
Proof. unfold remove_listed. now rewrite is_elsewhere_plain. Qed.

Lemma listed_node_plain (m : manager) {Hp : plain_path m} (root : list dirent)
  (x : string) :
  listed_node m root x = lookup x root.
Proof. unfold listed_node. now rewrite is_elsewhere_plain. Qed.

#[export] Instance example_manager_plain (k : Z) : plain_path (example_manager k).
Proof. reflexivity. Qed.

#[export] Instance with_max_backups_plain (k : Z) (m : manager) {Hp : plain_path m} :
  plain_path (with_max_backups k m).
Proof. exact Hp. Qed.

(** The listing reads the backup root through the names that [glob]
    accepts in it, whatever the backup path is. *)
Lemma get_backup_list_ext (m : manager) (root1 root2 : list dirent) :
  glob_backup m (map fst root1) = glob_backup m (map fst root2) ->
  _get_backup_list m root1 = _get_backup_list m root2.
Proof. unfold _get_backup_list, glob_magic. now intros ->. Qed.

Lemma get_backup_list_In (m : manager) {Hp : plain_path m} (root : list dirent)
  (nm : string) :
  In nm (_get_backup_list m root) <->
  In nm (map fst root) /\ _ishidden nm = false
  /\ startswith "backup_" (normcase m nm) = true.
Proof.
  rewrite (get_backup_list_plain m). unfold sort_names.
  rewrite <- in_rev, sort_by_In. apply glob_backup_In.
Qed.

Lemma staging_name_hidden (backup_name suffix : string) :
  _ishidden (staging_name backup_name suffix) = true.
Proof. reflexivity. Qed.

Lemma names_put_entry (nm : string) (v : node) (es : list dirent) :
  map fst (put_entry nm v es) =
  if exists_in nm es then map fst es else map fst es ++ [nm].
Proof.
  unfold exists_in.
  induction es as [|[k w] r IH]; simpl; [reflexivity|].
  destruct (String.eqb_spec k nm) as [->|Hne]; [reflexivity|].
  simpl. rewrite IH. now destruct (lookup nm r).
Qed.

Lemma glob_backup_app (m : manager) (l1 l2 : list string) :
  glob_backup m (l1 ++ l2) = glob_backup m l1 ++ glob_backup m l2.
Proof. apply filter_app. Qed.

(** Creating, filling or overwriting a hidden entry changes no listing. *)
Lemma get_backup_list_put_hidden (m : manager) (root : list dirent)
  (nm : string) (v : node) :
  _ishidden nm = true ->
  _get_backup_list m (put_entry nm v root) = _get_backup_list m root.
Proof.
  intros Hh. apply get_backup_list_ext. rewrite names_put_entry.
  destruct (exists_in nm root); [reflexivity|].
  rewrite glob_backup_app. simpl. rewrite Hh. simpl. now rewrite app_nil_r.
Qed.

(** C1, on the code. The listing never shows a staging directory, but it
    does show a snapshot that was never published. When the staging
    directory cannot be renamed across file systems and the move that
    copies it fails half-way, [create_backup] returns [None] and removes
    the staging directory, yet the part already copied stays under the
    final name: it is listed as a snapshot, and a restore takes it for
    one. A regular file called [backup_...] is listed too. What holds, for
    a backup path without wildcard: a listed name is a name of the backup
    root that matches [backup_*] and does not start with a dot, so no
    staging name [.backup_<timestamp>.<suffix>] is listed; and, whatever
    the path, creating or filling a hidden directory leaves the listing as
    it was. *)
Theorem failed_move_leaves_partial_snapshot {rt : Runtime} :
  create_backup (example_manager 10) (half_moved_oracle (at_noon 0)) None
    example_save_dir []
  = (None, half_moved_root,
     [MkdtempCalled ".backup_20250101_120000.k3x9q2ab";
      Copy2Called 1; Copy2Called 1;
      ReplaceCalled ".backup_20250101_120000.k3x9q2ab" "backup_20250101_120000";
      MoveCalled ".backup_20250101_120000.k3x9q2ab" "backup_20250101_120000";
      RmtreeCalled ".backup_20250101_120000.k3x9q2ab";
      FailedToCreateBackup])
  /\ _get_backup_list (example_manager 10) half_moved_root = ["backup_20250101_120000"]
  /\ restore_backup (example_manager 10) calm_restore 1
       {| save_entries := [("a.txt", File (encode "abc"))];
          backups := Elsewhere half_moved_root |}
     = (true, {| save_entries := [("b", Dir [("c.txt", File [])])];
                 backups := Elsewhere half_moved_root |})
  /\ _get_backup_list (example_manager 10) [("backup_notes.txt", File [])]
     = ["backup_notes.txt"]
  /\ (forall m root nm,
        plain_path m ->
        In nm (_get_backup_list m root) ->
        In nm (map fst root) /\ startswith "." nm = false
        /\ startswith "backup_" (normcase m nm) = true)
  /\ (forall m root t suffix,
        plain_path m ->
        ~ In (staging_name (backup_name_at t) suffix) (_get_backup_list m root))
  /\ (forall m root t suffix staged,
        _get_backup_list m
          (put_entry (staging_name (backup_name_at t) suffix) staged root)
        = _get_backup_list m root).
Proof.
  split; [reflexivity|]. split; [reflexivity|]. split; [reflexivity|].
  split; [reflexivity|]. split; [|split].
  - intros m root nm Hp H. now apply (get_backup_list_In m) in H.
  - intros m root t suffix Hp H. apply (get_backup_list_In m) in H as (_ & Hh & _).
    now rewrite staging_name_hidden in Hh.
  - intros m root t suffix staged.
    apply get_backup_list_put_hidden, staging_name_hidden.
Qed.

(** ** The copier *)

Lemma worse_not_ok_l (a b : copytree_status) : a <> CopyOk -> worse a b <> CopyOk.
Proof. destruct a, b; cbn; congruence. Qed.

Lemma worse_not_ok_r (a b : copytree_status) : b <> CopyOk -> worse a b <> CopyOk.
Proof. destruct a, b; cbn; congruence. Qed.

(** A file whose copy does not end well makes [copytree] raise. *)
Lemma copy_entries_failed_file (m : manager) (o : path -> copy_oracle) (src : path)
  (copy_dir : path -> node -> list dirent * list event * copytree_status)
  (es : list dirent) (nm : string) (content : list byte) :
  In (nm, File content) es -> ignored m nm = false ->
  snd (copy_one m (o (src ++ [nm])) nm content) <> CopyOk ->
  snd (copy_entries m o src copy_dir es) <> CopyOk.
Proof.
  intros Hin Hign Hbad. induction es as [|e r IH]; [destruct Hin|].
  cbn [copy_entries].
  destruct Hin as [->|Hin].
  - cbn [fst snd]. rewrite Hign.
    destruct (snd (copy_one m (o (src ++ [nm])) nm content)) eqn:E;
      [contradiction| |rewrite E; discriminate].
    cbn [snd]. now apply worse_not_ok_l.
  - specialize (IH Hin). fold (copy_entries m o src copy_dir r).
    destruct (ignored m (fst e)); [exact IH|].
    match goal with |- snd (match snd ?one with _ => _ end) <> _ => set (one' := one) end.
    destruct (snd one') eqn:E; cbn [snd].
    + now apply worse_not_ok_r.
    + now apply worse_not_ok_l.
    + rewrite E. discriminate.
Qed.

Lemma create_backup_failed_file {rt : Runtime} (m : manager) (o : oracle)
  (d : option string) (es root : list dirent) (nm : string) (content : list byte) :
  In (nm, File content) es -> ignored m nm = false ->
  snd (copy_one m (copy_outcomes o [nm]) nm content) <> CopyOk ->
  fst (fst (create_backup m o d (Dir es) root)) = None.
Proof.
  intros Hin Hign Hbad. unfold create_backup.
  destruct (Nat.eqb (count_files (Dir es)) 0); [reflexivity|].
  destruct (mkdtemp _ _ root) as [tmp|]; [|reflexivity].
  assert (Hct : snd (copytree m (copy_outcomes o) [] (Dir es)) <> CopyOk).
  { cbn [copytree].
    pose proof (copy_entries_failed_file m (copy_outcomes o) [] (copytree m (copy_outcomes o))
                  es nm content Hin Hign Hbad) as H.
    destruct (is_backup_dir m []); [|exact H]. cbn [snd]. now apply worse_not_ok_l. }
  unfold stage.
  destruct (snd (copytree m (copy_outcomes o) [] (Dir es))); [contradiction| |];
    reflexivity.
Qed.

Section AllAttemptsFail.
Variables (m : manager) (o : copy_oracle) (err : nat -> exn).
Hypothesis copy2_fails : forall a, copy2 o a = Some (err a) /\ is_OSError (err a) = true.
Hypothesis fallback_raises :
  os_nt m = true -> forall a, exists remains, win32 o a = Win32Raises remains.
Hypothesis sleep_returns :
  forall a, time_sleep (retry_delay m) (sleep_overflows o a) = None.

Let n : nat := Z.to_nat (Z.max 1 (retries m)).

Lemma attempt_before_last (a : nat) :
  1 <= a <= n -> (Z.of_nat a <? retries m)%Z = Nat.ltb a n.
Proof.
  subst n. intros H.
  destruct (Z.ltb_spec (Z.of_nat a) (retries m)), (Nat.ltb_spec a (Z.to_nat (Z.max 1 (retries m))));
    try reflexivity; lia.
Qed.

Lemma safe_copy_attempts_fail (k : nat) :
  forall s dst, 1 <= s -> s + k = n ->
    safe_copy_attempts m o dst (seq s (S k)) =
    (flat_map (failed_attempt m) (seq s k) ++ last_attempt m n,
     if skip_locked_files m then Returns NotCopied else Raises (err n),
     fold_left (attempt_leaves m o) (seq s (S k)) dst).
Proof.
  induction k as [|k IH]; intros s dst Hs Hn.
  - assert (s = n) as -> by lia.
    cbn [seq safe_copy_attempts flat_map app fold_left].
    destruct (copy2_fails n) as [-> ->]. cbn [negb].
    rewrite attempt_before_last, Nat.ltb_irrefl by lia.
    unfold last_attempt, fallback_events, attempt_leaves.
    destruct (os_nt m) eqn:Ent.
    + destruct (fallback_raises eq_refl n) as [remains ->].
      unfold _win_read_file_to_path. rewrite Ent. cbn [negb].
      now destruct (skip_locked_files m).
    + now destruct (skip_locked_files m).
  - change (seq s (S (S k))) with (s :: seq (S s) (S k)).
    cbn [safe_copy_attempts fold_left].
    destruct (copy2_fails s) as [-> ->]. cbn [negb].
    rewrite attempt_before_last by lia.
    replace (Nat.ltb s n) with true by (symmetry; apply Nat.ltb_lt; lia).
    rewrite sleep_returns.
    change (seq s (S k)) with (s :: seq (S s) k).
    cbn [flat_map]. rewrite <- app_assoc.
    set (tl := flat_map (failed_attempt m) (seq (S s) k) ++ last_attempt m n).
    assert (Hk : S s + k = n) by lia.
    assert (Hs' : 1 <= S s) by lia.
    unfold failed_attempt, fallback_events.
    unfold attempt_leaves at 2.
    destruct (os_nt m) eqn:Ent.
    + destruct (fallback_raises eq_refl s) as [remains ->].
      unfold _win_read_file_to_path. rewrite Ent. cbn [negb].
      rewrite (IH (S s) _ Hs' Hk). reflexivity.
    + rewrite (IH (S s) _ Hs' Hk). reflexivity.
Qed.

(** C6 (amended). When [shutil.copy2] fails with an [OSError] on every
    attempt, the locked-file fallback delivers nothing (it is not tried
    off Windows and raises on Windows) and [time.sleep] accepts the delay,
    [_safe_copy] makes [max(1, retries)] attempts, sleeps
    [retry_delay * attempt] after every attempt but the last, and then
    either returns without raising (when [skip_locked_files] is set, after
    the warning) or raises the error of the last attempt. The destination
    holds what the failed attempts left there, the last of them to write
    winning: no file when none of them created it. For [copytree] this
    means no error in the first case, and in the second an error that it
    collects and raises in the end, so that a [create_backup] that has to
    copy such a file returns [None]. *)
Theorem safe_copy_exhausts_retries :
  _safe_copy m o =
  (flat_map (failed_attempt m) (seq 1 (n - 1)) ++ last_attempt m n,
   if skip_locked_files m then Returns NotCopied else Raises (err n))
  /\ left_by_safe_copy m o = fold_left (attempt_leaves m o) (seq 1 n) Untouched
  /\ (forall nm content,
        copy_one m o nm content =
        (left_entries nm (fold_left (attempt_leaves m o) (seq 1 n) Untouched),
         flat_map (failed_attempt m) (seq 1 (n - 1)) ++ last_attempt m n,
         if skip_locked_files m then CopyOk else CopyErrors))
  /\ ((forall a, attempt_leaves m o Untouched a = Untouched) ->
      forall nm content, fst (fst (copy_one m o nm content)) = [])
  /\ (skip_locked_files m = false ->
      forall (rt : Runtime) (oo : oracle) d es root nm content,
        In (nm, File content) es -> ignored m nm = false ->
        copy_outcomes oo [nm] = o ->
        fst (fst (create_backup m oo d (Dir es) root)) = None).
Proof.
  assert (Hn : 1 <= n) by (subst n; lia).
  assert (E : safe_copy_attempts m o Untouched (attempt_range m) =
              (flat_map (failed_attempt m) (seq 1 (n - 1)) ++ last_attempt m n,
               if skip_locked_files m then Returns NotCopied else Raises (err n),
               fold_left (attempt_leaves m o) (seq 1 n) Untouched)).
  { unfold attempt_range. fold n.
    pose proof (safe_copy_attempts_fail (n - 1) 1 Untouched (le_n 1)) as H.
    replace (S (n - 1)) with n in H by lia. apply H. lia. }
  assert (C : forall nm content,
            copy_one m o nm content =
            (left_entries nm (fold_left (attempt_leaves m o) (seq 1 n) Untouched),
             flat_map (failed_attempt m) (seq 1 (n - 1)) ++ last_attempt m n,
             if skip_locked_files m then CopyOk else CopyErrors)).
  { intros nm content. unfold copy_one, _safe_copy, left_by_safe_copy. rewrite E.
    cbn [fst snd]. destruct (skip_locked_files m); [reflexivity|].
    destruct (copy2_fails n) as [_ ->]. reflexivity. }
  split; [unfold _safe_copy; now rewrite E|].
  split; [unfold left_by_safe_copy; now rewrite E|].
  split; [exact C|]. split.
  - intros Hnone nm content. rewrite C. cbn [fst].
    assert (G : forall l, fold_left (attempt_leaves m o) l Untouched = Untouched).
    { induction l as [|a l IH]; [reflexivity|]. cbn [fold_left]. now rewrite Hnone. }
    now rewrite G.
  - intros Hskip rt oo d es root nm content Hin Hign Ho.
    apply (create_backup_failed_file m oo d es root nm content Hin Hign).
    rewrite Ho, C, Hskip. discriminate.
Qed.
End AllAttemptsFail.

(** With a delay below zero [time.sleep] raises [ValueError] after the
    first failed attempt: [_safe_copy] raises although
    [skip_locked_files] is set, after one attempt of three. And a standard
    copy that fails after it has created the destination leaves an empty
    file there when the copy is skipped; on Windows the fallback, which
    gets no handle, reports a success over that empty file. *)
Lemma safe_copy_negative_delay_counterexample :
  skip_locked_files negative_delay_manager = true
  /\ retries negative_delay_manager = 3%Z
  /\ _safe_copy negative_delay_manager always_locked
     = ([Copy2Called 1], Raises (OtherException "ValueError"))
  /\ copy_one negative_delay_manager always_locked "slot1.sav" (encode "abc")
     = ([], [Copy2Called 1], CopyAborts (OtherException "ValueError"))
  /\ copy_one (skipping_manager false) truncating_copy "slot1.sav" (encode "abc")
     = ([("slot1.sav", File [])],
        [Copy2Called 1; Slept (Finite (1 # 2)) 1; Copy2Called 2; SkippingLockedFile],
        CopyOk)
  /\ copy_one (skipping_manager true) truncating_copy "slot1.sav" (encode "abc")
     = ([("slot1.sav", File [])], [Copy2Called 1; Win32ReadCalled 1], CopyOk).
Proof. repeat split. Qed.


(** ** Timestamps sort as they were taken *)

Lemma digit_char_compare (a b : nat) :
  a < 10 -> b < 10 -> Ascii.compare (digit_char a) (digit_char b) = Nat.compare a b.
Proof.
  intros Ha Hb.
  do 10 (destruct a as [|a]; [do 10 (destruct b as [|b]; [reflexivity|]); lia|]).
  lia.
Qed.

Lemma fixed_width_length (w n : nat) : String.length (fixed_width w n) = w.
Proof.
  revert n. induction w as [|w IH]; intros n; simpl; [reflexivity|]. now rewrite IH.
Qed.

Lemma fixed_width_compare (w : nat) :
  forall a b, a < 10 ^ w -> b < 10 ^ w ->
    String.compare (fixed_width w a) (fixed_width w b) = Nat.compare a b.
Proof.
  induction w as [|w IH]; intros a b Ha Hb.
  - simpl in *. replace a with 0 by lia. replace b with 0 by lia. reflexivity.
  - cbn [fixed_width String.compare].
    assert (HP : 0 < 10 ^ w) by (apply Nat.neq_0_lt_0, Nat.pow_nonzero; lia).
    rewrite Nat.pow_succ_r' in Ha, Hb.
    assert (Hqa : a / 10 ^ w < 10) by (apply Nat.Div0.div_lt_upper_bound; lia).
    assert (Hqb : b / 10 ^ w < 10) by (apply Nat.Div0.div_lt_upper_bound; lia).
    rewrite !Nat.mod_small by assumption.
    rewrite digit_char_compare by assumption.
    pose proof (Nat.div_mod_eq a (10 ^ w)) as Ea.
    pose proof (Nat.div_mod_eq b (10 ^ w)) as Eb.
    pose proof (Nat.mod_upper_bound a (10 ^ w) ltac:(lia)) as Ra.
    pose proof (Nat.mod_upper_bound b (10 ^ w) ltac:(lia)) as Rb.
    destruct (Nat.compare_spec (a / 10 ^ w) (b / 10 ^ w)) as [E|L|G].
    + rewrite IH by assumption.
      destruct (Nat.compare_spec (a mod 10 ^ w) (b mod 10 ^ w));
        symmetry; [apply Nat.compare_eq_iff|apply Nat.compare_lt_iff|apply Nat.compare_gt_iff];
        nia.
    + symmetry. apply Nat.compare_lt_iff. nia.
    + symmetry. apply Nat.compare_gt_iff. nia.
Qed.

Lemma compare_app_same (s x y : string) :
  String.compare (s ++ x) (s ++ y) = String.compare x y.
Proof.
  induction s as [|c s IH]; simpl; [reflexivity|]. now rewrite ascii_compare_refl.
Qed.

Lemma compare_app_lt (s t x y : string) :
  String.length s = String.length t -> String.compare s t = Lt ->
  String.compare (s ++ x) (t ++ y) = Lt.
Proof.
  revert t. induction s as [|c s IH]; intros [|d t]; simpl; try discriminate.
  intros [= Hl]. destruct (Ascii.compare c d); auto.
Qed.

Lemma fixed_width_lt (w a b : nat) (x y : string) :
  a < b -> b < 10 ^ w -> str_lt (fixed_width w a ++ x) (fixed_width w b ++ y).
Proof.
  intros Hab Hb. apply compare_app_lt.
  - now rewrite !fixed_width_length.
  - rewrite fixed_width_compare by lia. now apply Nat.compare_lt_iff.
Qed.

Lemma strftime_increasing (a b : datetime) :
  valid_datetime a -> valid_datetime b -> datetime_lt a b ->
  str_lt (backup_name_at a) (backup_name_at b).
Proof.
  intros (Ya & Ma & Da & Ha & Mia & Sa) (Yb & Mb & Db & Hb & Mib & Sb) Hlt.
  unfold str_lt, backup_name_at, strftime. rewrite compare_app_same.
  destruct Hlt as [H|[-> Hlt]]; [apply fixed_width_lt; [lia|first [apply Yb|change (10 ^ 2) with 100; lia]]|].
  rewrite compare_app_same.
  destruct Hlt as [H|[-> Hlt]]; [apply fixed_width_lt; [lia|first [apply Yb|change (10 ^ 2) with 100; lia]]|].
  rewrite compare_app_same.
  destruct Hlt as [H|[-> Hlt]]; [apply fixed_width_lt; [lia|first [apply Yb|change (10 ^ 2) with 100; lia]]|].
  rewrite !compare_app_same.
  destruct Hlt as [H|[-> Hlt]]; [apply fixed_width_lt; [lia|first [apply Yb|change (10 ^ 2) with 100; lia]]|].
  rewrite compare_app_same.
  destruct Hlt as [H|[-> Hlt]]; [apply fixed_width_lt; [lia|first [apply Yb|change (10 ^ 2) with 100; lia]]|].
  rewrite compare_app_same.
  rewrite fixed_width_compare by (change (10 ^ 2) with 100; lia).
  apply Nat.compare_lt_iff. lia.
Qed.

(** ** Entries of a directory *)

Lemma lookup_put_eq (nm : string) (v : node) (es : list dirent) :
  lookup nm (put_entry nm v es) = Some v.
Proof.
  induction es as [|[k w] r IH]; simpl.
  - now rewrite String.eqb_refl.
  - destruct (String.eqb_spec k nm) as [->|Hne]; simpl.
    + now rewrite String.eqb_refl.
    + now apply String.eqb_neq in Hne as ->.
Qed.

Lemma lookup_put_neq (k nm : string) (v : node) (es : list dirent) :
  k <> nm -> lookup k (put_entry nm v es) = lookup k es.
Proof.
  intros Hk. induction es as [|[k' w] r IH]; simpl.
  - apply not_eq_sym, String.eqb_neq in Hk. now rewrite Hk.
  - destruct (String.eqb_spec k' nm) as [->|Hne]; simpl.
    + apply not_eq_sym, String.eqb_neq in Hk. now rewrite Hk.
    + now rewrite IH.
Qed.

Lemma lookup_remove_eq (nm : string) (es : list dirent) :
  lookup nm (remove_entry nm es) = None.
Proof.
  induction es as [|[k w] r IH]; simpl; [reflexivity|].
  destruct (String.eqb_spec k nm) as [->|Hne]; simpl; [assumption|].
  now apply String.eqb_neq in Hne as ->.
Qed.

Lemma lookup_remove_neq (k nm : string) (es : list dirent) :
  k <> nm -> lookup k (remove_entry nm es) = lookup k es.
Proof.
  intros Hk. induction es as [|[k' w] r IH]; simpl; [reflexivity|].
  destruct (String.eqb_spec k' nm) as [->|Hne]; simpl.
  - apply not_eq_sym, String.eqb_neq in Hk. now rewrite Hk.
  - now rewrite IH.
Qed.

Lemma lookup_app (k : string) (es es' : list dirent) :
  lookup k (es ++ es') =
  match lookup k es with Some v => Some v | None => lookup k es' end.
Proof.
  induction es as [|[k' w] r IH]; simpl; [reflexivity|].
  now destruct (String.eqb k' k).
Qed.

Lemma lookup_None_names (k : string) (es : list dirent) :
  lookup k es = None <-> ~ In k (map fst es).
Proof.
  induction es as [|[k' w] r IH]; simpl; [tauto|].
  destruct (String.eqb_spec k' k) as [->|Hne].
  - split; [discriminate|]. intros H. exfalso. apply H. now left.
  - rewrite IH. tauto.
Qed.

Lemma exists_in_names (k : string) (es : list dirent) :
  exists_in k es = true <-> In k (map fst es).
Proof.
  unfold exists_in. pose proof (lookup_None_names k es) as H.
  destruct (lookup k es); split; try discriminate; try reflexivity.
  - intros _. destruct (in_dec string_dec k (map fst es)) as [Hi|Hn]; [assumption|].
    apply H in Hn. discriminate.
  - intros Hi. exfalso. now apply (proj1 H).
Qed.

Lemma exists_in_false (k : string) (es : list dirent) :
  exists_in k es = false <-> ~ In k (map fst es).
Proof.
  rewrite <- exists_in_names. destruct (exists_in k es); split; congruence.
Qed.

Lemma names_remove_entry (nm : string) (es : list dirent) :
  map fst (remove_entry nm es) = filter (fun k => negb (String.eqb k nm)) (map fst es).
Proof.
  induction es as [|[k w] r IH]; simpl; [reflexivity|].
  destruct (String.eqb k nm); simpl; now rewrite IH.
Qed.

Lemma in_names_put (n nm : string) (v : node) (es : list dirent) :
  In n (map fst (put_entry nm v es)) <-> n = nm \/ In n (map fst es).
Proof.
  rewrite names_put_entry.
  destruct (exists_in nm es) eqn:E.
  - apply exists_in_names in E. split; [tauto|]. intros [->|H]; assumption.
  - rewrite in_app_iff. simpl. intuition.
Qed.

Lemma in_names_remove (n nm : string) (es : list dirent) :
  In n (map fst (remove_entry nm es)) <-> n <> nm /\ In n (map fst es).
Proof.
  rewrite names_remove_entry, filter_In, negb_true_iff, String.eqb_neq. tauto.
Qed.

Lemma NoDup_names_put (nm : string) (v : node) (es : list dirent) :
  NoDup (map fst es) -> NoDup (map fst (put_entry nm v es)).
Proof.
  intros H. rewrite names_put_entry.
  destruct (exists_in nm es) eqn:E; [assumption|].
  apply exists_in_false in E.
  apply NoDup_app; [assumption|repeat constructor; simpl; tauto|].
  intros x Hx [<-|[]]. contradiction.
Qed.

Lemma NoDup_names_remove (nm : string) (es : list dirent) :
  NoDup (map fst es) -> NoDup (map fst (remove_entry nm es)).
Proof. intros H. rewrite names_remove_entry. now apply NoDup_filter. Qed.

Lemma NoDup_names_rename (src dst : string) (es : list dirent) :
  NoDup (map fst es) -> NoDup (map fst (rename_entry src dst es)).
Proof.
  intros H. unfold rename_entry. destruct (lookup src es); [|assumption].
  now apply NoDup_names_put, NoDup_names_remove.
Qed.

Lemma in_names_rename (n src dst : string) (v : node) (es : list dirent) :
  lookup src es = Some v ->
  In n (map fst (rename_entry src dst es)) <-> n = dst \/ (n <> src /\ In n (map fst es)).
Proof.
  intros H. unfold rename_entry. rewrite H, in_names_put, in_names_remove. tauto.
Qed.

(** ** The listing, characterised *)

Lemma StronglySorted_rev {A : Type} (R : A -> A -> Prop) (l : list A) :
  StronglySorted R l -> StronglySorted (fun a b => R b a) (rev l).
Proof.
  induction 1 as [|x l Hs IH Hall]; simpl; [constructor|].
  apply StronglySorted_app; [assumption|repeat constructor|].
  intros a b Ha [<-|[]]. rewrite Forall_forall in Hall.
  now apply Hall, in_rev.
Qed.

Lemma get_backup_list_visible (m : manager) {Hp : plain_path m} (root : list dirent)
  (nm : string) :
  In nm (_get_backup_list m root) <-> In nm (map fst root) /\ visible m nm = true.
Proof.
  rewrite (get_backup_list_In m). unfold visible.
  rewrite andb_true_iff, negb_true_iff. tauto.
Qed.

Lemma get_backup_list_sorted (m : manager) {Hp : plain_path m} (root : list dirent) :
  NoDup (map fst root) -> StronglySorted newest_first (_get_backup_list m root).
Proof.
  intros H. rewrite (get_backup_list_plain m). unfold sort_names.
  apply (StronglySorted_rev str_lt).
  apply (sort_by_sorted (fun s : string => s)).
  rewrite map_id. now apply NoDup_filter.
Qed.

Lemma newest_first_NoDup (l : list string) : StronglySorted newest_first l -> NoDup l.
Proof.
  induction 1 as [|x l Hs IH Hall]; constructor; [|assumption].
  intros Hin. rewrite Forall_forall in Hall.
  exact (str_lt_irrefl _ (Hall _ Hin)).
Qed.

(** The listing is the only list, newest first, of the visible names. *)
Lemma get_backup_list_unique (m : manager) {Hp : plain_path m} (root : list dirent)
  (l : list string) :
  NoDup (map fst root) ->
  StronglySorted newest_first l ->
  (forall nm, In nm l <-> In nm (map fst root) /\ visible m nm = true) ->
  _get_backup_list m root = l.
Proof.
  intros Hnd Hs Hin. apply (sorted_unique newest_first).
  - intros x. apply str_lt_irrefl.
  - intros x y H1 H2. exact (str_lt_asym _ _ H1 H2).
  - now apply (get_backup_list_sorted m).
  - assumption.
  - intros nm. now rewrite (get_backup_list_visible m), Hin.
Qed.

Lemma backup_name_visible (m : manager) (t : datetime) :
  visible m (backup_name_at t) = true.
Proof. unfold visible, normcase. now destruct (os_nt m). Qed.

Lemma get_backup_list_same_names (m : manager) (root root' : list dirent) :
  map fst root = map fst root' -> _get_backup_list m root = _get_backup_list m root'.
Proof. intros H. apply get_backup_list_ext. now rewrite H. Qed.

(** ** Removing entries of the backup root *)

Lemma safe_rmtree_lookup_other (o : oracle) (nm k : string) (root : list dirent) :
  k <> nm -> lookup k (fst (_safe_rmtree o nm root)) = lookup k root.
Proof.
  intros Hk. unfold _safe_rmtree.
  destruct (exists_in nm root); [|reflexivity].
  destruct (rmtree_outcome o nm); simpl.
  - now apply lookup_remove_neq.
  - now apply lookup_put_neq.
Qed.

Lemma safe_rmtree_names_incl (o : oracle) (nm n : string) (root : list dirent) :
  In n (map fst (fst (_safe_rmtree o nm root))) -> In n (map fst root).
Proof.
  unfold _safe_rmtree. destruct (exists_in nm root) eqn:E; [|auto].
  apply exists_in_names in E.
  destruct (rmtree_outcome o nm); simpl.
  - rewrite in_names_remove. tauto.
  - rewrite in_names_put. intros [->|H]; assumption.
Qed.

Lemma safe_rmtree_NoDup (o : oracle) (nm : string) (root : list dirent) :
  NoDup (map fst root) -> NoDup (map fst (fst (_safe_rmtree o nm root))).
Proof.
  intros H. unfold _safe_rmtree. destruct (exists_in nm root); [|assumption].
  destruct (rmtree_outcome o nm); simpl.
  - now apply NoDup_names_remove.
  - now apply NoDup_names_put.
Qed.

Lemma safe_rmtree_removed (o : oracle) (nm : string) (root : list dirent) :
  rmtree_outcome o nm = Removed ->
  fst (_safe_rmtree o nm root) = remove_entry nm root.
Proof.
  intros H. unfold _safe_rmtree. rewrite H.
  destruct (exists_in nm root) eqn:E; [reflexivity|]. simpl.
  apply exists_in_false in E. unfold remove_entry.
  symmetry. apply forallb_filter_id, forallb_forall. intros [k v] Hin. simpl.
  apply negb_true_iff, String.eqb_neq. intros ->. apply E.
  change nm with (fst (nm, v)). now apply in_map.
Qed.

Lemma remove_listed_lookup_other (m : manager) (o : oracle) (nm k : string)
  (root : list dirent) :
  k <> nm -> lookup k (fst (remove_listed m o nm root)) = lookup k root.
Proof.
  intros Hk. unfold remove_listed.
  destruct (is_elsewhere m nm); [reflexivity|]. now apply safe_rmtree_lookup_other.
Qed.

Lemma remove_listed_names_incl (m : manager) (o : oracle) (nm n : string)
  (root : list dirent) :
  In n (map fst (fst (remove_listed m o nm root))) -> In n (map fst root).
Proof.
  unfold remove_listed. destruct (is_elsewhere m nm); [auto|].
  apply safe_rmtree_names_incl.
Qed.

Lemma remove_listed_NoDup (m : manager) (o : oracle) (nm : string) (root : list dirent) :
  NoDup (map fst root) -> NoDup (map fst (fst (remove_listed m o nm root))).
Proof.
  unfold remove_listed. destruct (is_elsewhere m nm); [auto|].
  apply safe_rmtree_NoDup.
Qed.

Lemma remove_listed_removed (m : manager) {Hp : plain_path m} (o : oracle) (nm : string)
  (root : list dirent) :
  rmtree_outcome o nm = Removed ->
  fst (remove_listed m o nm root) = remove_entry nm root.
Proof. rewrite (remove_listed_plain m). apply safe_rmtree_removed. Qed.

Lemma rmtree_calls_app (a b : list event) :
  rmtree_calls (a ++ b) = rmtree_calls a ++ rmtree_calls b.
Proof. apply flat_map_app. Qed.

Lemma delete_old_events (m : manager) (o : oracle) (st : list dirent * list event)
  (nm : string) :
  rmtree_calls (snd (delete_old m o st nm)) = rmtree_calls (snd st) ++ [nm].
Proof.
  unfold delete_old. destruct (remove_listed m o nm (fst st)) as [root' [[]|e]];
    simpl; now rewrite rmtree_calls_app.
Qed.

Lemma delete_old_root (m : manager) (o : oracle) (st : list dirent * list event)
  (nm : string) :
  fst (delete_old m o st nm) = fst (remove_listed m o nm (fst st)).
Proof.
  unfold delete_old. now destruct (remove_listed m o nm (fst st)) as [root' [[]|e]].
Qed.

Lemma fold_delete_old_events (m : manager) (o : oracle) (l : list string) :
  forall st, rmtree_calls (snd (fold_left (delete_old m o) l st))
             = rmtree_calls (snd st) ++ l.
Proof.
  induction l as [|nm l IH]; intros st; simpl.
  - now rewrite app_nil_r.
  - now rewrite IH, delete_old_events, <- app_assoc.
Qed.

Lemma fold_delete_old_names_incl (m : manager) (o : oracle) (l : list string) :
  forall st n, In n (map fst (fst (fold_left (delete_old m o) l st))) ->
               In n (map fst (fst st)).
Proof.
  induction l as [|nm l IH]; intros st n; simpl; [auto|].
  intros H. apply IH in H. rewrite delete_old_root in H.
  now apply remove_listed_names_incl in H.
Qed.

Lemma fold_delete_old_gone (m : manager) {Hp : plain_path m} (o : oracle)
  (l : list string) :
  forall st nm, In nm l -> rmtree_outcome o nm = Removed ->
    ~ In nm (map fst (fst (fold_left (delete_old m o) l st))).
Proof.
  induction l as [|k l IH]; intros st nm Hin Hrm; simpl; [destruct Hin|].
  destruct (string_dec k nm) as [->|Hne].
  - intros H. apply fold_delete_old_names_incl in H.
    rewrite delete_old_root, (remove_listed_removed m) in H by assumption.
    apply in_names_remove in H. tauto.
  - destruct Hin as [->|Hin]; [congruence|]. now apply IH.
Qed.

Lemma fold_delete_old_all_removed (m : manager) {Hp : plain_path m} (o : oracle)
  (l : list string) :
  (forall nm, rmtree_outcome o nm = Removed) ->
  forall st, fst (fold_left (delete_old m o) l st)
             = fold_left (fun r nm => remove_entry nm r) l (fst st).
Proof.
  intros Hrm. induction l as [|k l IH]; intros st; simpl; [reflexivity|].
  now rewrite IH, delete_old_root, (remove_listed_removed m).
Qed.

Lemma names_fold_remove (l : list string) :
  forall (root : list dirent) n,
    In n (map fst (fold_left (fun r nm => remove_entry nm r) l root)) <->
    In n (map fst root) /\ ~ In n l.
Proof.
  induction l as [|k l IH]; intros root n; simpl; [tauto|].
  rewrite IH, in_names_remove. intuition congruence.
Qed.

Lemma NoDup_fold_remove (l : list string) :
  forall root : list dirent,
    NoDup (map fst root) ->
    NoDup (map fst (fold_left (fun r nm => remove_entry nm r) l root)).
Proof.
  induction l as [|k l IH]; intros root H; simpl; [assumption|].
  now apply IH, NoDup_names_remove.
Qed.

Lemma py_slice_from_nonneg {A : Type} (k : Z) (l : list A) :
  (0 <= k)%Z -> py_slice_from k l = skipn (Z.to_nat k) l.
Proof.
  intros Hk. unfold py_slice_from.
  destruct (Z.ltb_spec k 0); [lia|reflexivity].
Qed.

Lemma StronglySorted_firstn {A : Type} (R : A -> A -> Prop) (n : nat) (l : list A) :
  StronglySorted R l -> StronglySorted R (firstn n l).
Proof.
  intros H. revert n. induction H as [|x l Hs IH Hall]; intros [|n]; simpl;
    try constructor.
  - apply IH.
  - rewrite Forall_forall in *. intros y Hy. apply Hall.
    rewrite <- (firstn_skipn n l). apply in_app_iff. now left.
Qed.

Lemma NoDup_firstn_skipn_disjoint {A : Type} (n : nat) (l : list A) (x : A) :
  NoDup l -> In x (firstn n l) -> In x (skipn n l) -> False.
Proof.
  intros Hnd H1 H2. rewrite <- (firstn_skipn n l) in Hnd.
  revert H1 H2 Hnd. generalize (firstn n l) (skipn n l).
  induction l0 as [|y l0 IH]; intros l1 [] H2 Hnd.
  - subst. inversion Hnd; subst. apply H1, in_app_iff. now right.
  - inversion Hnd; subst. now apply (IH l1).
Qed.

(** What the retention step attempts, and what it achieves when every
    removal succeeds. *)
Lemma cleanup_attempts (m : manager) (o : oracle) (root : list dirent) :
  (0 <= max_backups m)%Z ->
  rmtree_calls (snd (_cleanup_old_backups m o root))
  = skipn (Z.to_nat (max_backups m)) (_get_backup_list m root).
Proof.
  intros Hk. unfold _cleanup_old_backups.
  destruct (Z.gtb_spec (Z.of_nat (length (_get_backup_list m root))) (max_backups m)).
  - rewrite fold_delete_old_events, py_slice_from_nonneg by assumption. reflexivity.
  - simpl. symmetry. apply skipn_all2. lia.
Qed.

Lemma cleanup_removed_gone (m : manager) {Hp : plain_path m} (o : oracle)
  (root : list dirent) (nm : string) :
  (0 <= max_backups m)%Z ->
  In nm (skipn (Z.to_nat (max_backups m)) (_get_backup_list m root)) ->
  rmtree_outcome o nm = Removed ->
  ~ In nm (map fst (fst (_cleanup_old_backups m o root))).
Proof.
  intros Hk Hin Hrm. unfold _cleanup_old_backups.
  destruct (Z.gtb_spec (Z.of_nat (length (_get_backup_list m root))) (max_backups m)).
  - apply (fold_delete_old_gone m); [|assumption].
    now rewrite py_slice_from_nonneg.
  - rewrite skipn_all2 in Hin by lia. destruct Hin.
Qed.

Lemma cleanup_names_incl (m : manager) (o : oracle) (root : list dirent) (n : string) :
  In n (map fst (fst (_cleanup_old_backups m o root))) -> In n (map fst root).
Proof.
  unfold _cleanup_old_backups.
  destruct (Z.of_nat (length (_get_backup_list m root)) >? max_backups m)%Z; [|auto].
  apply fold_delete_old_names_incl.
Qed.

Lemma cleanup_all_removed (m : manager) {Hp : plain_path m} (o : oracle)
  (root : list dirent) :
  (0 <= max_backups m)%Z ->
  NoDup (map fst root) ->
  (forall nm, rmtree_outcome o nm = Removed) ->
  NoDup (map fst (fst (_cleanup_old_backups m o root))) /\
  _get_backup_list m (fst (_cleanup_old_backups m o root))
  = firstn (Z.to_nat (max_backups m)) (_get_backup_list m root).
Proof.
  intros Hk Hnd Hrm. unfold _cleanup_old_backups.
  pose proof (get_backup_list_sorted m root Hnd) as Hs.
  destruct (Z.gtb_spec (Z.of_nat (length (_get_backup_list m root))) (max_backups m)).
  - rewrite (fold_delete_old_all_removed m), py_slice_from_nonneg by assumption.
    cbn [fst]. split; [now apply NoDup_fold_remove|].
    apply (get_backup_list_unique m).
    + now apply NoDup_fold_remove.
    + now apply StronglySorted_firstn.
    + intros nm. rewrite names_fold_remove.
      set (k := Z.to_nat (max_backups m)). set (L := _get_backup_list m root) in *.
      assert (HL : In nm L <-> In nm (firstn k L) \/ In nm (skipn k L)).
      { rewrite <- in_app_iff. now rewrite firstn_skipn. }
      pose proof (get_backup_list_visible m root nm) as Hv. fold L in Hv.
      pose proof (NoDup_firstn_skipn_disjoint k L nm (newest_first_NoDup _ Hs)) as Hd.
      tauto.
  - cbn [fst]. split; [assumption|]. symmetry. apply firstn_all2. lia.
Qed.

(** ** The steps of [create_backup] *)

Lemma remove_entry_absent (nm : string) (root : list dirent) :
  exists_in nm root = false -> remove_entry nm root = root.
Proof.
  intros E. apply exists_in_false in E. unfold remove_entry.
  apply forallb_filter_id, forallb_forall. intros [k v] Hin. simpl.
  apply negb_true_iff, String.eqb_neq. intros ->. apply E.
  change nm with (fst (nm, v)). now apply in_map.
Qed.

Lemma exists_in_remove (nm : string) (root : list dirent) :
  exists_in nm (remove_entry nm root) = false.
Proof. unfold exists_in. now rewrite lookup_remove_eq. Qed.

Lemma remove_collision_ok (o : oracle) (final : string) (root : list dirent) :
  (exists_in final root = true -> rmtree_outcome o final = Removed) ->
  remove_collision o final root
  = (remove_entry final root, collision_events final root, Returns tt).
Proof.
  intros H. unfold remove_collision, collision_events, _safe_rmtree.
  destruct (exists_in final root) eqn:E.
  - now rewrite (H eq_refl).
  - now rewrite remove_entry_absent.
Qed.

(** The publish step, when a colliding final directory (if any) could be
    removed. *)
Lemma publish_eq (o : oracle) (tmp final : string) (root : list dirent) :
  (exists_in final root = true -> rmtree_outcome o final = Removed) ->
  publish o tmp final root =
  match replace_outcome o tmp with
  | None =>
      (rename_entry tmp final (remove_entry final root),
       collision_events final root ++ [ReplaceCalled tmp final], Returns atomic)
  | Some e =>
      if is_OSError e && is_EXDEV e then
        match move_outcome o tmp with
        | Moved =>
            (rename_entry tmp final (remove_entry final root),
             (collision_events final root ++ [ReplaceCalled tmp final])
               ++ [MoveCalled tmp final], Returns copied)
        | MoveFails e' leftover =>
            (match leftover with
             | Some partial => put_entry final partial (remove_entry final root)
             | None => remove_entry final root
             end,
             (collision_events final root ++ [ReplaceCalled tmp final])
               ++ [MoveCalled tmp final], Raises e')
        end
      else (remove_entry final root,
            collision_events final root ++ [ReplaceCalled tmp final], Raises e)
  end.
Proof.
  intros H. unfold publish. rewrite remove_collision_ok by assumption.
  destruct (replace_outcome o tmp) as [e|]; [|reflexivity].
  destruct (is_OSError e && is_EXDEV e); [|reflexivity].
  unfold remove_collision. rewrite exists_in_remove.
  destruct (move_outcome o tmp); reflexivity.
Qed.

Lemma stage_lookup_other (m : manager) (o : oracle) (d : option string)
  (save_dir : node) (tmp k : string) (root : list dirent) :
  k <> tmp ->
  lookup k (fst (fst (stage m o d save_dir tmp root))) = lookup k root.
Proof.
  intros Hk. unfold stage.
  destruct (snd (copytree m (copy_outcomes o) [] save_dir));
    [destruct (truthy d); [destruct (write_description o)|]| |];
    cbn [fst]; now apply lookup_put_neq.
Qed.

Lemma stage_lookup_tmp (m : manager) (o : oracle) (d : option string)
  (save_dir : node) (tmp : string) (root : list dirent) :
  exists staged, lookup tmp (fst (fst (stage m o d save_dir tmp root))) = Some (Dir staged).
Proof.
  unfold stage.
  destruct (snd (copytree m (copy_outcomes o) [] save_dir));
    [destruct (truthy d); [destruct (write_description o)|]| |];
    cbn [fst]; eexists; apply lookup_put_eq.
Qed.

Lemma stage_names (m : manager) (o : oracle) (d : option string)
  (save_dir : node) (tmp : string) (root : list dirent) :
  exists_in tmp root = true ->
  map fst (fst (fst (stage m o d save_dir tmp root))) = map fst root.
Proof.
  intros E. unfold stage.
  destruct (snd (copytree m (copy_outcomes o) [] save_dir));
    [destruct (truthy d); [destruct (write_description o)|]| |];
    cbn [fst]; now rewrite names_put_entry, E.
Qed.

Lemma write_metadata_names {rt : Runtime} (m : manager) (o : oracle) (final : string)
  (method : move_method) (d : option string) (r : bool) (failed : event)
  (root : list dirent) :
  map fst (fst (write_metadata m o final method d r failed root)) = map fst root.
Proof.
  unfold write_metadata.
  assert (E : forall v snap, lookup final root = Some snap ->
                map fst (put_entry final v root) = map fst root).
  { intros v snap H. rewrite names_put_entry. unfold exists_in. now rewrite H. }
  destruct (meta_outcome o final) as [| |[bytes|]]; cbn [fst]; try reflexivity;
    destruct (lookup final root) as [[c|snap]|] eqn:L; cbn [fst]; try reflexivity;
    eapply E; reflexivity.
Qed.

Lemma write_metadata_lookup_other {rt : Runtime} (m : manager) (o : oracle)
  (final k : string) (method : move_method) (d : option string) (r : bool)
  (failed : event) (root : list dirent) :
  k <> final ->
  lookup k (fst (write_metadata m o final method d r failed root)) = lookup k root.
Proof.
  intros Hk. unfold write_metadata.
  destruct (meta_outcome o final) as [| |[bytes|]]; cbn [fst]; try reflexivity;
    destruct (lookup final root) as [[c|snap]|] eqn:L; cbn [fst]; try reflexivity;
    now apply lookup_put_neq.
Qed.

Lemma mkdtemp_fresh (prefix : string) (suffixes : list string) (root : list dirent)
  (tmp : string) :
  mkdtemp prefix suffixes root = Some tmp ->
  exists_in tmp root = false /\ exists s, tmp = (prefix ++ s)%string.
Proof.
  induction suffixes as [|s r IH]; simpl; [discriminate|].
  destruct (exists_in (prefix ++ s) root) eqn:E; [assumption|].
  intros [= <-]. split; [assumption|]. now exists s.
Qed.

Lemma str_app_assoc (a b c : string) : ((a ++ b) ++ c = a ++ (b ++ c))%string.
Proof. induction a as [|x a IH]; simpl; [reflexivity|]. now rewrite IH. Qed.

(** How a call of [create_backup] that returned a path went. *)
Lemma create_backup_Some {rt : Runtime} (m : manager) (o : oracle)
  (d : option string) (save_dir : node) (root root' : list dirent)
  (nm : string) (ev : list event) :
  create_backup m o d save_dir root = (Some nm, root', ev) ->
  nm = backup_name_at (now o) /\ count_files save_dir <> 0 /\
  exists suffix root1 ev1 root2 ev2 method,
    let tmp := staging_name nm suffix in
    mkdtemp ("." ++ nm ++ ".")%string (mkdtemp_suffixes o) root = Some tmp /\
    exists_in tmp root = false /\
    stage m o d save_dir tmp (root ++ [(tmp, Dir [])]) = (root1, ev1, Returns tt) /\
    publish o tmp nm root1 = (root2, ev2, Returns method) /\
    root' = fst (_cleanup_old_backups m o
                   (fst (write_metadata m o nm method (truthy d) false
                           FailedToWriteMetadata root2))) /\
    ev = MkdtempCalled tmp :: ev1 ++ ev2
           ++ snd (write_metadata m o nm method (truthy d) false
                     FailedToWriteMetadata root2)
           ++ [BackupCreated nm]
           ++ snd (_cleanup_old_backups m o
                     (fst (write_metadata m o nm method (truthy d) false
                             FailedToWriteMetadata root2))).
Proof.
  unfold create_backup.
  destruct (Nat.eqb_spec (count_files save_dir) 0) as [|Hcount]; [discriminate|].
  destruct (mkdtemp _ (mkdtemp_suffixes o) root) as [tmp|] eqn:Etmp; [|discriminate].
  destruct (mkdtemp_fresh _ _ _ _ Etmp) as [Hfresh [suffix Hs]].
  destruct (stage m o d save_dir tmp (root ++ [(tmp, Dir [])])) as [[root1 ev1] staged]
    eqn:Estage.
  destruct staged as [[]|e]; [|discriminate].
  destruct (publish o tmp (backup_name_at (now o)) root1) as [[root2 ev2] [method|e]]
    eqn:Epub; [|discriminate].
  destruct (write_metadata m o (backup_name_at (now o)) method (truthy d) false
              FailedToWriteMetadata root2) as [root3 ev3] eqn:Emeta.
  destruct (_cleanup_old_backups m o root3) as [root4 ev4] eqn:Eclean.
  intros [= <- <- <-]. split; [reflexivity|]. split; [assumption|].
  exists suffix, root1, ev1, root2, ev2, method.
  assert (Htmp : tmp = staging_name (backup_name_at (now o)) suffix).
  { rewrite Hs. unfold staging_name. now rewrite !str_app_assoc. }
  cbn zeta. rewrite <- Htmp, Emeta. cbn [fst snd]. rewrite Eclean. cbn [fst snd].
  repeat split; try assumption.
Qed.

(** ** A source without files *)

Lemma os_walk_no_files (reorder : list string -> list string) (t : node) :
  wf_node t ->
  (forall p, read_file t p = None) ->
  forall root, Forall (fun it : walk_item => snd it = []) (os_walk reorder root t).
Proof.
  induction t as [c|es IH] using node_nested_ind; intros Hwf Hno root.
  - constructor.
  - apply wf_node_Dir in Hwf as [Hnd Hsub].
    rewrite Forall_forall in IH, Hsub.
    rewrite os_walk_Dir. constructor.
    + cbn [snd]. destruct (files_of es) as [|[nm c] r] eqn:E; [reflexivity|].
      exfalso. assert (Hin : In (nm, c) (files_of es)) by (rewrite E; now left).
      apply files_of_In, (In_lookup _ _ _ Hnd) in Hin.
      specialize (Hno [nm]). simpl in Hno. rewrite Hin in Hno. discriminate.
    + rewrite Forall_forall. intros it Hit.
      apply in_flat_map in Hit as (d & _ & Hit).
      destruct (lookup d es) as [sub|] eqn:E; [|destruct Hit].
      pose proof (lookup_In _ _ _ E) as Hsubin.
      assert (Hsubno : forall p, read_file sub p = None).
      { intros p. destruct p as [|x p].
        - destruct sub as [c|sub']; [|reflexivity].
          specialize (Hno [d]). simpl in Hno. now rewrite E in Hno.
        - specialize (Hno (d :: x :: p)). simpl in Hno. now rewrite E in Hno. }
      pose proof (IH _ Hsubin (Hsub _ Hsubin) Hsubno (root ++ [d])) as Hall.
      rewrite Forall_forall in Hall. now apply Hall.
Qed.

Lemma count_files_no_file (t : node) :
  wf_node t -> (forall p, read_file t p = None) -> count_files t = 0.
Proof.
  intros Hwf Hno. unfold count_files.
  pose proof (os_walk_no_files (fun d => d) t Hwf Hno []) as H.
  induction H as [|it l Hit _ IH]; simpl; [reflexivity|].
  now rewrite Hit, IH.
Qed.

(** C7. No-data fast path: when the source directory holds no file at
    all, [create_backup] returns [None], prints the warning, and leaves the
    backup root exactly as it was: no staging directory was made
    ([mkdtemp] was not called), no snapshot was added, and the listing is
    the one before the call. *)
Theorem create_backup_no_data {rt : Runtime} (m : manager) (o : oracle)
  (description : option string) (save_dir : node) (root : list dirent) :
  wf_node save_dir ->
  (forall p, read_file save_dir p = None) ->
  create_backup m o description save_dir root = (None, root, [NoFilesFound])
  /\ _get_backup_list m (snd (fst (create_backup m o description save_dir root)))
     = _get_backup_list m root.
Proof.
  intros Hwf Hno. unfold create_backup.
  rewrite (count_files_no_file save_dir Hwf Hno). now split.
Qed.

(** ** The publish step *)

Lemma is_EXDEV_OSError (e : exn) : is_EXDEV e = true -> is_OSError e = true.
Proof. destruct e as [[n|]| |]; simpl; congruence. Qed.

Lemma exists_in_put_same (nm : string) (v : node) (root : list dirent) :
  exists_in nm (put_entry nm v root) = true.
Proof. unfold exists_in. now rewrite lookup_put_eq. Qed.

(** A publish step that returned had no collision it could not remove. *)
Lemma publish_Returns_collision (o : oracle) (tmp final : string)
  (root root2 : list dirent) (ev2 : list event) (method : move_method) :
  publish o tmp final root = (root2, ev2, Returns method) ->
  exists_in final root = true -> rmtree_outcome o final = Removed.
Proof.
  intros Hp Hex. destruct (rmtree_outcome o final) as [|e leftover] eqn:Erm;
    [reflexivity|exfalso].
  revert Hp. unfold publish, remove_collision, _safe_rmtree.
  rewrite Hex, Erm. cbn [fst snd].
  destruct (is_OSError e && is_EXDEV e); [|discriminate].
  rewrite exists_in_put_same. discriminate.
Qed.

Lemma publish_Returns (o : oracle) (tmp final : string)
  (root root2 : list dirent) (ev2 : list event) (method : move_method) :
  publish o tmp final root = (root2, ev2, Returns method) ->
  root2 = rename_entry tmp final (remove_entry final root) /\
  ((method = atomic /\ replace_outcome o tmp = None /\
    ev2 = collision_events final root ++ [ReplaceCalled tmp final])
   \/
   (method = copied /\
    (exists e, replace_outcome o tmp = Some e /\ is_EXDEV e = true) /\
    move_outcome o tmp = Moved /\
    ev2 = (collision_events final root ++ [ReplaceCalled tmp final])
            ++ [MoveCalled tmp final])).
Proof.
  intros Hp. pose proof (publish_Returns_collision _ _ _ _ _ _ _ Hp) as Hc.
  rewrite publish_eq in Hp by assumption.
  destruct (replace_outcome o tmp) as [e|].
  - destruct (is_OSError e && is_EXDEV e) eqn:E; [|discriminate].
    apply andb_true_iff in E as [_ E].
    destruct (move_outcome o tmp); [|discriminate].
    injection Hp as <- <- <-. split; [reflexivity|]. right. eauto 6.
  - injection Hp as <- <- <-. split; [reflexivity|]. now left.
Qed.

Lemma rename_lookup (src dst k : string) (v : node) (root : list dirent) :
  lookup src root = Some v -> src <> dst ->
  lookup k (rename_entry src dst (remove_entry dst root)) =
  if String.eqb k dst then Some v
  else if String.eqb k src then None else lookup k root.
Proof.
  intros Hs Hne. unfold rename_entry.
  rewrite (lookup_remove_neq src dst) by assumption. rewrite Hs.
  destruct (String.eqb_spec k dst) as [->|Hkd]; [apply lookup_put_eq|].
  rewrite lookup_put_neq by assumption.
  destruct (String.eqb_spec k src) as [->|Hks]; [apply lookup_remove_eq|].
  now rewrite !lookup_remove_neq.
Qed.

Lemma staging_name_not_final (nm suffix : string) (t : datetime) :
  staging_name nm suffix <> backup_name_at t.
Proof. discriminate. Qed.

Lemma write_metadata_written {rt : Runtime} (m : manager) (o : oracle)
  (final : string) (method : move_method) (d : option string) (r : bool)
  (failed : event) (root : list dirent) (snap : list dirent) :
  lookup final root = Some (Dir snap) ->
  meta_outcome o final = MetaWritten ->
  exists meta,
    write_metadata m o final method d r failed root
    = (put_entry final
         (Dir (put_entry meta_file (File (text_mode m (json_dumps meta))) snap)) root,
       [])
    /\ meta_move_method meta = method
    /\ meta_description meta = d
    /\ recovered meta = r
    /\ checksum meta = compute_directory_sha256 (os_sep m) (access o) (Dir snap)
    /\ files meta = count_files (Dir snap)
    /\ size_bytes meta = get_directory_size (Dir snap).
Proof.
  intros Hl Hm. unfold write_metadata. rewrite Hm, Hl.
  eexists. split; [reflexivity|]. repeat split.
Qed.

(** The publish step when a colliding final directory, if there is one,
    can be removed. *)
Lemma publish_spec (o : oracle) (tmp final : string) (root : list dirent) (staged : node) :
     lookup tmp root = Some staged -> tmp <> final ->
     (exists_in final root = true -> rmtree_outcome o final = Removed) ->
     let root' := fst (fst (publish o tmp final root)) in
     let ev := snd (fst (publish o tmp final root)) in
     let res := snd (publish o tmp final root) in
     (replace_outcome o tmp = None ->
        res = Returns atomic /\ lookup final root' = Some staged /\
        lookup tmp root' = None /\
        ev = collision_events final root ++ [ReplaceCalled tmp final])
     /\ (In (MoveCalled tmp final) ev <->
         exists e, replace_outcome o tmp = Some e /\ is_EXDEV e = true)
     /\ (res = Returns copied <->
         (exists e, replace_outcome o tmp = Some e /\ is_EXDEV e = true)
         /\ move_outcome o tmp = Moved)
     /\ (res = Returns copied ->
         lookup final root' = Some staged /\ lookup tmp root' = None)
     /\ (exists_in final root = true -> exists rest, ev = RmtreeCalled final :: rest)
     /\ In (ReplaceCalled tmp final) ev.
Proof.
  intros Hl Hne Hc. cbn zeta.
  rewrite publish_eq by assumption.
  pose proof (rename_lookup tmp final final staged root Hl Hne) as Lf.
  pose proof (rename_lookup tmp final tmp staged root Hl Hne) as Lt.
  rewrite String.eqb_refl in Lf, Lt.
  apply String.eqb_neq in Hne. rewrite Hne in Lt.
  assert (Hnm : ~ In (MoveCalled tmp final)
                    (collision_events final root ++ [ReplaceCalled tmp final])).
  { rewrite in_app_iff. unfold collision_events.
    destruct (exists_in final root); simpl; intuition discriminate. }
  assert (Hrep : forall l, In (ReplaceCalled tmp final)
                   (collision_events final root ++ ReplaceCalled tmp final :: l)).
  { intros l. apply in_app_iff. right. now left. }
  assert (Hhd : forall l, exists_in final root = true ->
            exists rest, collision_events final root ++ l = RmtreeCalled final :: rest).
  { intros l E. unfold collision_events. rewrite E. now eexists. }
  destruct (replace_outcome o tmp) as [e|] eqn:Erep.
  + destruct (is_OSError e && is_EXDEV e) eqn:E.
    * apply andb_true_iff in E as [_ E].
      destruct (move_outcome o tmp) as [|e' leftover] eqn:Emv; cbn [fst snd];
        rewrite <- app_assoc; cbn [app];
        (repeat split; try discriminate; try (intros; exact (Hhd _ H));
         try apply Hrep; eauto;
         try (intros _; apply in_app_iff; right; right; now left)).
      -- intros [_ H]. discriminate.
    * cbn [fst snd].
      assert (Hn : is_EXDEV e = false).
      { destruct (is_EXDEV e) eqn:E'; [|reflexivity].
        now rewrite (is_EXDEV_OSError _ E') in E. }
      repeat split; try discriminate; try (intros; exact (Hhd _ H)); try apply Hrep.
      -- intros H. now apply Hnm in H.
      -- intros (e' & [= <-] & He). congruence.
      -- intros [(e' & [= <-] & He) _]. congruence.
  + cbn [fst snd].
    repeat split; try discriminate; try (intros; exact (Hhd _ H)); try apply Hrep;
      try assumption.
    * intros H. now apply Hnm in H.
    * intros (e' & He & _). discriminate.
    * intros [(e' & He & _) _]. discriminate.
Qed.

(** C5. The publish step of [create_backup]. Once the save directory
    has been copied into the staging directory [tmp], [create_backup]
    returns the path of the snapshot if and only if the publish step
    returns, and then the final name [backup_<timestamp>] holds what the
    staging directory held, the staging name is gone and the metadata, if
    it can be written, records the method of the step. A final directory
    that is already there is removed first: [shutil.rmtree] is the first
    call of the step, and if it fails (not with [EXDEV]) nothing else is
    called and [create_backup] fails. When the removal succeeds or is not
    needed: [os.replace] is called; if it succeeds the method is [atomic]
    and [shutil.move] is not called; [shutil.move] is called if and only
    if [os.replace] failed with [EXDEV], and the method is [copied] exactly
    when it did and the move succeeded; there is no other method. *)
Theorem publish_step {rt : Runtime} (m : manager) (o : oracle) (d : option string)
  (save_dir : node) (root root1 : list dirent) (tmp : string) (ev1 : list event) :
  let nm := backup_name_at (now o) in
  let pub := publish o tmp nm root1 in
  let root2 := fst (fst pub) in
  let ev2 := snd (fst pub) in
  let after method :=
    write_metadata m o nm method (truthy d) false FailedToWriteMetadata root2 in
  count_files save_dir <> 0 ->
  mkdtemp ("." ++ nm ++ ".")%string (mkdtemp_suffixes o) root = Some tmp ->
  stage m o d save_dir tmp (root ++ [(tmp, Dir [])]) = (root1, ev1, Returns tt) ->
  (exists staged,
     lookup tmp root1 = Some (Dir staged) /\
     forall method, snd pub = Returns method ->
       lookup nm root2 = Some (Dir staged) /\ lookup tmp root2 = None /\
       (meta_outcome o nm = MetaWritten ->
        exists meta,
          meta_move_method meta = method /\
          lookup nm (fst (after method))
          = Some (Dir (put_entry meta_file (File (text_mode m (json_dumps meta)))
                         staged))))
  /\ (forall method, snd pub = Returns method ->
        create_backup m o d save_dir root =
        (Some nm, fst (_cleanup_old_backups m o (fst (after method))),
         MkdtempCalled tmp :: ev1 ++ ev2 ++ snd (after method) ++ [BackupCreated nm]
           ++ snd (_cleanup_old_backups m o (fst (after method)))))
  /\ (forall e, snd pub = Raises e ->
        fst (fst (create_backup m o d save_dir root)) = None)
  /\ (exists_in nm root1 = true -> exists rest, ev2 = RmtreeCalled nm :: rest)
  /\ (exists_in nm root1 = true ->
      forall e remains,
        rmtree_outcome o nm = RemoveFails e remains -> is_EXDEV e = false ->
        pub = (put_entry nm remains root1, [RmtreeCalled nm], Raises e))
  /\ ((exists_in nm root1 = true -> rmtree_outcome o nm = Removed) ->
      (replace_outcome o tmp = None ->
         pub = (rename_entry tmp nm (remove_entry nm root1),
                collision_events nm root1 ++ [ReplaceCalled tmp nm], Returns atomic))
      /\ In (ReplaceCalled tmp nm) ev2
      /\ (In (MoveCalled tmp nm) ev2 <->
          exists e, replace_outcome o tmp = Some e /\ is_EXDEV e = true)
      /\ (snd pub = Returns copied <->
          (exists e, replace_outcome o tmp = Some e /\ is_EXDEV e = true)
          /\ move_outcome o tmp = Moved)
      /\ (forall method, snd pub = Returns method -> method = atomic \/ method = copied)).
Proof.
  intros nm pub root2 ev2 after Hcount Hmk Hst.
  destruct (mkdtemp_fresh _ _ _ _ Hmk) as [Hfresh [suffix Hs]].
  assert (Hne : tmp <> nm).
  { rewrite Hs. subst nm. discriminate. }
  destruct (stage_lookup_tmp m o d save_dir tmp (root ++ [(tmp, Dir [])]))
    as [staged Hstaged].
  rewrite Hst in Hstaged. cbn [fst] in Hstaged.
  assert (Hret : forall method, snd pub = Returns method ->
            pub = (rename_entry tmp nm (remove_entry nm root1), ev2, Returns method)
            /\ (method = atomic \/ method = copied)).
  { intros method Hr. subst root2 ev2.
    destruct pub as [[r2 e2] res] eqn:Epub. cbn [fst snd] in *. subst res.
    apply publish_Returns in Epub as [-> [[-> _]|[-> _]]]; split; auto. }
  split; [|split; [|split; [|split; [|split]]]].
  - exists staged. split; [assumption|]. intros method Hr.
    destruct (Hret method Hr) as [Epub _].
    assert (Hfinal : lookup nm root2 = Some (Dir staged)).
    { subst root2. rewrite Epub. cbn [fst].
      rewrite (rename_lookup _ _ nm _ _ Hstaged Hne). now rewrite String.eqb_refl. }
    split; [assumption|]. split.
    + subst root2. rewrite Epub. cbn [fst].
      rewrite (rename_lookup _ _ tmp _ _ Hstaged Hne). rewrite String.eqb_refl.
      apply String.eqb_neq in Hne. now rewrite Hne.
    + intros Hm.
      destruct (write_metadata_written m o nm method (truthy d) false
                  FailedToWriteMetadata root2 staged Hfinal Hm)
        as (meta & E & Hmm & _).
      exists meta. split; [assumption|]. subst after. cbn beta. rewrite E. cbn [fst].
      apply lookup_put_eq.
  - intros method Hr. unfold create_backup. fold nm.
    apply Nat.eqb_neq in Hcount. rewrite Hcount, Hmk, Hst.
    subst after root2 ev2. fold pub.
    destruct pub as [[r2 e2] res]. cbn [fst snd] in *. subst res.
    destruct (write_metadata m o nm method (truthy d) false FailedToWriteMetadata r2)
      as [root3 ev3].
    cbn [fst snd]. now destruct (_cleanup_old_backups m o root3) as [root4 ev4].
  - intros e Hr. unfold create_backup. fold nm.
    apply Nat.eqb_neq in Hcount. rewrite Hcount, Hmk, Hst. fold pub.
    destruct pub as [[r2 e2] res]. cbn [fst snd] in *. subst res. reflexivity.
  - intros Hex. subst ev2 pub. unfold publish, remove_collision.
    rewrite Hex. cbn [fst snd].
    destruct (snd (_safe_rmtree o nm root1)) as [[]|e1].
    + destruct (replace_outcome o tmp) as [e|]; [|eexists; reflexivity].
      destruct (is_OSError e && is_EXDEV e); [|eexists; reflexivity].
      destruct (exists_in nm (fst (_safe_rmtree o nm root1))); cbn [fst snd].
      * destruct (snd (_safe_rmtree o nm (fst (_safe_rmtree o nm root1)))) as [[]|e2];
          [|eexists; reflexivity].
        destruct (move_outcome o tmp); eexists; reflexivity.
      * destruct (move_outcome o tmp); eexists; reflexivity.
    + destruct (is_OSError e1 && is_EXDEV e1); [|eexists; reflexivity].
      destruct (exists_in nm (fst (_safe_rmtree o nm root1))); cbn [fst snd].
      * destruct (snd (_safe_rmtree o nm (fst (_safe_rmtree o nm root1)))) as [[]|e2];
          [|eexists; reflexivity].
        destruct (move_outcome o tmp); eexists; reflexivity.
      * destruct (move_outcome o tmp); eexists; reflexivity.
  - intros Hex e remains Hrm He. subst pub. unfold publish, remove_collision, _safe_rmtree.
    rewrite Hex, Hrm. cbn [fst snd]. rewrite He, andb_false_r. reflexivity.
  - intros Hc.
    destruct (publish_spec o tmp nm root1 (Dir staged) Hstaged Hne Hc)
      as (Hat & Hmv & Hcp & _ & _ & Hrep).
    fold pub in Hat, Hmv, Hcp, Hrep.
    split; [|split; [|split; [|split]]].
    + intros Hr. subst pub. rewrite publish_eq by assumption. now rewrite Hr.
    + exact Hrep.
    + exact Hmv.
    + exact Hcp.
    + intros method Hr. now destruct (Hret method Hr).
Qed.

(** ** Metadata is auxiliary *)



Lemma lookup_Some_names (k : string) (v : node) (es : list dirent) :
  lookup k es = Some v -> In k (map fst es).
Proof.
  intros H. destruct (in_dec string_dec k (map fst es)) as [|Hn]; [assumption|].
  apply lookup_None_names in Hn. congruence.
Qed.

Lemma names_app_one (root : list dirent) (nm : string) (v : node) :
  map fst (root ++ [(nm, v)]) = map fst root ++ [nm].
Proof. now rewrite map_app. Qed.

Lemma NoDup_names_mkdtemp (root : list dirent) (tmp : string) (v : node) :
  NoDup (map fst root) -> exists_in tmp root = false ->
  NoDup (map fst (root ++ [(tmp, v)])).
Proof.
  intros Hnd E. apply exists_in_false in E. rewrite names_app_one.
  apply NoDup_app; [assumption|repeat constructor; simpl; tauto|].
  intros x Hx [<-|[]]. contradiction.
Qed.

Lemma exists_in_app_one (root : list dirent) (nm : string) (v : node) :
  exists_in nm (root ++ [(nm, v)]) = true.
Proof.
  apply exists_in_names. rewrite names_app_one, in_app_iff. right. now left.
Qed.

(** The backup root after a staging and a publish step that succeeded. *)
Lemma published_root {rt : Runtime} (m : manager) (o : oracle) (d : option string)
  (save_dir : node) (root root1 root2 : list dirent) (tmp final : string)
  (ev1 ev2 : list event) (method : move_method) :
  NoDup (map fst root) -> exists_in tmp root = false -> tmp <> final ->
  stage m o d save_dir tmp (root ++ [(tmp, Dir [])]) = (root1, ev1, Returns tt) ->
  publish o tmp final root1 = (root2, ev2, Returns method) ->
  NoDup (map fst root2) /\
  (exists staged, lookup tmp root1 = Some (Dir staged)
                  /\ lookup final root2 = Some (Dir staged)) /\
  lookup tmp root2 = None /\
  (forall k, k <> tmp -> k <> final -> lookup k root2 = lookup k root) /\
  (forall k, In k (map fst root2) <-> k = final \/ (k <> tmp /\ In k (map fst root))).
Proof.
  intros Hnd Hfresh Hne Hst Hpub.
  pose proof (stage_names m o d save_dir tmp _ (exists_in_app_one root tmp (Dir []))) as Hn.
  destruct (stage_lookup_tmp m o d save_dir tmp (root ++ [(tmp, Dir [])])) as [staged Hs].
  assert (Ho : forall k, k <> tmp -> lookup k root1 = lookup k root).
  { intros k Hk.
    pose proof (stage_lookup_other m o d save_dir tmp k (root ++ [(tmp, Dir [])]) Hk) as H.
    rewrite Hst in H. cbn [fst] in H. rewrite H, lookup_app.
    destruct (lookup k root); [reflexivity|]. simpl.
    apply not_eq_sym, String.eqb_neq in Hk. now rewrite Hk. }
  rewrite Hst in Hn, Hs. cbn [fst] in Hn, Hs.
  apply publish_Returns in Hpub as [-> _].
  pose proof (rename_lookup tmp final) as R.
  assert (Hk : forall k, lookup k (rename_entry tmp final (remove_entry final root1)) =
                         if String.eqb k final then Some (Dir staged)
                         else if String.eqb k tmp then None else lookup k root).
  { intros k. rewrite (R k _ _ Hs Hne).
    destruct (String.eqb_spec k final); [reflexivity|].
    destruct (String.eqb_spec k tmp); [reflexivity|]. now apply Ho. }
  split; [|split; [|split; [|split]]].
  - apply NoDup_names_rename, NoDup_names_remove. rewrite Hn.
    now apply NoDup_names_mkdtemp.
  - exists staged. split; [assumption|]. now rewrite Hk, String.eqb_refl.
  - rewrite Hk. apply String.eqb_neq in Hne. now rewrite Hne, String.eqb_refl.
  - intros k H1 H2. rewrite Hk.
    apply String.eqb_neq in H1, H2. now rewrite H1, H2.
  - intros k. split.
    + intros Hin. destruct (string_dec k final) as [|Hkf]; [now left|right].
      destruct (string_dec k tmp) as [->|Hkt].
      * exfalso. apply (proj1 (lookup_None_names _ _)) in Hin; [assumption|].
        rewrite Hk. apply String.eqb_neq in Hne. now rewrite Hne, String.eqb_refl.
      * split; [assumption|].
        destruct (in_dec string_dec k (map fst root)) as [|Hno]; [assumption|exfalso].
        apply lookup_None_names in Hno.
        apply (proj1 (lookup_None_names _ _)) in Hin; [assumption|].
        rewrite Hk. apply String.eqb_neq in Hkf, Hkt. now rewrite Hkf, Hkt.
    + intros [->|[Hkt Hin]].
      * eapply lookup_Some_names. rewrite Hk, String.eqb_refl. reflexivity.
      * destruct (string_dec k final) as [->|Hkf].
        { eapply lookup_Some_names. rewrite Hk, String.eqb_refl. reflexivity. }
        destruct (lookup k root) as [v|] eqn:E.
        { eapply lookup_Some_names. rewrite Hk.
          apply String.eqb_neq in Hkf, Hkt. rewrite Hkf, Hkt. exact E. }
        apply lookup_None_names in E. contradiction.
Qed.



(** ** Retention *)

Lemma firstn_app_firstn {A : Type} (l1 l2 : list A) :
  forall k j, k <= j -> firstn k (l1 ++ firstn j l2) = firstn k (l1 ++ l2).
Proof.
  induction l1 as [|x l1 IH]; intros k j Hkj; simpl.
  - rewrite firstn_firstn. now rewrite Nat.min_l.
  - destruct k as [|k]; [reflexivity|]. simpl. f_equal. apply IH. lia.
Qed.

Lemma staging_name_not_visible (m : manager) (nm suffix : string) :
  visible m (staging_name nm suffix) = false.
Proof. reflexivity. Qed.

(** One successful call, made after every listed snapshot was named, on a
    root where removals succeed. *)
Lemma create_backup_listing {rt : Runtime} (m : manager) {Hp : plain_path m}
  (o : oracle) (d : option string) (save_dir : node) (root root' : list dirent)
  (nm : string) (ev : list event) :
  (0 <= max_backups m)%Z ->
  NoDup (map fst root) ->
  (forall k, rmtree_outcome o k = Removed) ->
  Forall (fun x => str_lt x (backup_name_at (now o))) (_get_backup_list m root) ->
  create_backup m o d save_dir root = (Some nm, root', ev) ->
  nm = backup_name_at (now o) /\
  NoDup (map fst root') /\
  _get_backup_list m root'
  = firstn (Z.to_nat (max_backups m)) (nm :: _get_backup_list m root).
Proof.
  intros Hk Hnd Hrm Hnew Hc.
  apply create_backup_Some in Hc
    as (Hnm & _ & suffix & root1 & ev1 & root2 & ev2 & method & Hc).
  cbn zeta in Hc. destruct Hc as (Hmk & Hfresh & Hst & Hpub & Hroot & _).
  assert (Hne : staging_name nm suffix <> nm).
  { rewrite Hnm at 2. apply staging_name_not_final. }
  destruct (published_root m o d save_dir root root1 root2 _ nm ev1 ev2
              method Hnd Hfresh Hne Hst Hpub) as (Hnd2 & _ & _ & _ & Hnames).
  set (after_meta := fst (write_metadata m o nm method (truthy d) false
                            FailedToWriteMetadata root2)) in *.
  assert (Hn3 : map fst after_meta = map fst root2) by apply write_metadata_names.
  assert (Hl2 : _get_backup_list m root2 = nm :: _get_backup_list m root).
  { apply (get_backup_list_unique m); [assumption| |].
    - constructor; [now apply (get_backup_list_sorted m)|].
      rewrite <- Hnm in Hnew. exact Hnew.
    - intros k. rewrite Hnames. simpl. rewrite (get_backup_list_visible m). split.
      + intros [<-|[Hin Hv]].
        * split; [now left|]. rewrite Hnm. apply backup_name_visible.
        * split; [|assumption]. right. split; [|assumption].
          intros ->. now rewrite staging_name_not_visible in Hv.
      + intros [[->|[_ Hin]] Hv]; [now left|now right]. }
  destruct (cleanup_all_removed m o after_meta Hk) as [Hnd' Hl'].
  { now rewrite Hn3. }
  { assumption. }
  split; [assumption|]. subst root'. split; [assumption|].
  rewrite Hl'. f_equal.
  rewrite (get_backup_list_same_names m after_meta root2 Hn3). exact Hl2.
Qed.

Lemma run_calls_listing {rt : Runtime} (m : manager) {Hp : plain_path m}
  (calls : list call) :
  (0 <= max_backups m)%Z ->
  Forall (fun c => valid_datetime (now (call_oracle c))) calls ->
  StronglySorted (fun a b => datetime_lt (now (call_oracle a)) (now (call_oracle b))) calls ->
  Forall (fun c => forall nm, rmtree_outcome (call_oracle c) nm = Removed) calls ->
  forall root,
    NoDup (map fst root) ->
    length (_get_backup_list m root) <= Z.to_nat (max_backups m) ->
    Forall (fun x => Forall (fun c => str_lt x (call_name c)) calls)
      (_get_backup_list m root) ->
    Forall (fun r => r <> None) (fst (run_calls m calls root)) ->
    _get_backup_list m (snd (run_calls m calls root))
    = firstn (Z.to_nat (max_backups m))
        (rev (map call_name calls) ++ _get_backup_list m root).
Proof.
  intros Hk Hvalid Hsorted Hrm.
  induction calls as [|c rest IH]; intros root Hnd Hlen Hold Hok.
  - simpl. symmetry. now apply firstn_all2.
  - inversion Hvalid as [|? ? Hvc Hvrest]; subst.
    inversion Hsorted as [|? ? Hsrest Hclt]; subst.
    inversion Hrm as [|? ? Hrc Hrrest]; subst.
    cbn [run_calls fst snd] in *.
    destruct (create_backup m (call_oracle c) (call_description c) (call_save_dir c) root)
      as [[res root'] ev] eqn:Ec. cbn [fst snd] in *.
    inversion Hok as [|? ? Hres Hokrest]; subst.
    destruct res as [nm|]; [|congruence].
    assert (Hnew : Forall (fun x => str_lt x (backup_name_at (now (call_oracle c))))
                     (_get_backup_list m root)).
    { eapply Forall_impl; [|exact Hold]. intros x Hx. now inversion Hx. }
    destruct (create_backup_listing m _ _ _ _ _ _ _ Hk Hnd Hrc Hnew Ec)
      as (Hnm & Hnd' & Hl').
    rewrite (IH Hvrest Hsrest Hrrest root' Hnd'); try assumption.
    + rewrite Hl'. cbn [map rev]. rewrite <- app_assoc. cbn [app].
      rewrite Hnm. apply firstn_app_firstn. lia.
    + rewrite Hl'. rewrite length_firstn. lia.
    + rewrite Hl'. rewrite Forall_forall. intros x Hx.
      assert (Hx' : In x (nm :: _get_backup_list m root)).
      { rewrite <- (firstn_skipn (Z.to_nat (max_backups m))). apply in_app_iff. now left. }
      destruct Hx' as [<-|Hx'].
      * rewrite Forall_forall in Hclt, Hvrest |- *. intros c' Hc'.
        rewrite Hnm. apply strftime_increasing; auto.
      * rewrite Forall_forall in Hold. specialize (Hold _ Hx'). now inversion Hold.
Qed.

(** C2 (amended). Retention invariant, for a backup path that holds no
    wildcard of [glob]. From a backup root that lists no snapshot, after
    [N] calls of [create_backup] that all returned a path, made with
    [max_backups = k >= 1] at strictly increasing timestamps and with the
    removals of pruning succeeding, the listing holds exactly [min N k]
    snapshots: the [k] most recently created, newest first. Whatever the
    root and the outcome of the removals, pruning calls [rmtree] on exactly
    the entries beyond index [k] of the newest-first listing, on each of
    them even after an earlier removal failed, and every entry whose
    removal succeeds is gone afterwards. *)
Theorem retention_invariant {rt : Runtime} (m : manager) (calls : list call)
  (root : list dirent) :
  plain_path m ->
  (1 <= max_backups m)%Z ->
  NoDup (map fst root) ->
  _get_backup_list m root = [] ->
  Forall (fun c => valid_datetime (now (call_oracle c))) calls ->
  StronglySorted (fun a b => datetime_lt (now (call_oracle a)) (now (call_oracle b))) calls ->
  Forall (fun c => forall nm, rmtree_outcome (call_oracle c) nm = Removed) calls ->
  Forall (fun r => r <> None) (fst (run_calls m calls root)) ->
  _get_backup_list m (snd (run_calls m calls root))
  = firstn (Z.to_nat (max_backups m)) (rev (map call_name calls))
  /\ length (_get_backup_list m (snd (run_calls m calls root)))
     = Nat.min (length calls) (Z.to_nat (max_backups m))
  /\ (forall o r,
        rmtree_calls (snd (_cleanup_old_backups m o r))
        = skipn (Z.to_nat (max_backups m)) (_get_backup_list m r)
        /\ (forall nm,
              In nm (skipn (Z.to_nat (max_backups m)) (_get_backup_list m r)) ->
              rmtree_outcome o nm = Removed ->
              ~ In nm (map fst (fst (_cleanup_old_backups m o r))))).
Proof.
  intros Hp Hk Hnd Hempty Hvalid Hsorted Hrm Hok.
  assert (Hl : _get_backup_list m (snd (run_calls m calls root))
               = firstn (Z.to_nat (max_backups m)) (rev (map call_name calls))).
  { rewrite (run_calls_listing m calls) with (root := root); try assumption; try lia.
    - now rewrite Hempty, app_nil_r.
    - rewrite Hempty. simpl. lia.
    - rewrite Hempty. constructor. }
  split; [exact Hl|]. split.
  - rewrite Hl, length_firstn, length_rev, length_map. apply Nat.min_comm.
  - intros o r. split.
    + apply cleanup_attempts. lia.
    + intros nm. apply (cleanup_removed_gone m). lia.
Qed.

Lemma retention_invariant_witness :
  _get_backup_list (example_manager 1)
    (snd (run_calls (rt := stand_in_runtime) (example_manager 1)
            [call_at 0; call_at 1] []))
  = ["backup_20250101_120001"]
  /\ length (_get_backup_list (example_manager 1)
               (snd (run_calls (rt := stand_in_runtime) (example_manager 1)
                       [call_at 0; call_at 1] [])))
     = 1.
Proof.
  assert (Hv : forall s, s < 60 -> valid_datetime (at_noon s)).
  { intros s Hs. unfold valid_datetime. simpl. repeat split; lia. }
  destruct (retention_invariant (rt := stand_in_runtime) (example_manager 1)
              [call_at 0; call_at 1] []) as (H1 & H2 & _).
  - reflexivity.
  - simpl. lia.
  - constructor.
  - reflexivity.
  - constructor; [apply Hv; lia|]. constructor; [apply Hv; lia|constructor].
  - constructor; [repeat constructor|]. constructor; [|constructor].
    unfold datetime_lt. simpl. lia.
  - repeat constructor.
  - vm_compute. repeat constructor; discriminate.
  - split; [exact H1|exact H2].
Defined.

(** Two calls within the same second, both returning a path, with
    [max_backups = 2]: the second replaces the snapshot of the first and a
    single snapshot is listed, not [min 2 2]. *)
Lemma retention_same_second_counterexample :
  fst (run_calls (rt := stand_in_runtime) (example_manager 2) [call_at 0; call_at 0] [])
  = [Some "backup_20250101_120000"; Some "backup_20250101_120000"]
  /\ length (_get_backup_list (example_manager 2)
               (snd (run_calls (rt := stand_in_runtime) (example_manager 2)
                       [call_at 0; call_at 0] [])))
     <> Nat.min 2 (Z.to_nat (max_backups (example_manager 2))).
Proof. vm_compute. split; [reflexivity|discriminate]. Qed.

(** ** Recovery *)

Lemma startswith_cons (a b : ascii) (p s : string) :
  startswith (String a p) (String b s) = Ascii.eqb a b && startswith p s.
Proof. reflexivity. Qed.

Lemma before_dot_not_staging (s : string) : startswith ".backup_" (before_dot s) = false.
Proof.
  destruct s as [|c s]; [reflexivity|]. cbn [before_dot].
  destruct (Ascii.eqb_spec c "."%char) as [->|Hne]; [reflexivity|].
  rewrite startswith_cons.
  apply not_eq_sym, Ascii.eqb_neq in Hne. now rewrite Hne.
Qed.

Lemma final_base_not_staging (name : string) :
  startswith ".backup_" (final_base_of name) = false.
Proof. destruct name; [reflexivity|apply before_dot_not_staging]. Qed.

Lemma recover_one_skip {rt : Runtime} (m : manager) (o : oracle)
  (st : list dirent * list event) (name : string) :
  leftover_at name (fst st) = false -> recover_one m o st name = st.
Proof.
  unfold leftover_at, recover_one.
  destruct (lookup name (fst st)) as [[c|content]|]; try reflexivity.
  now intros ->.
Qed.

Lemma remove_temp_removed (o : oracle) (name : string) (root : list dirent) :
  rmtree_outcome o name = Removed -> remove_temp o name root = remove_entry name root.
Proof. apply safe_rmtree_removed. Qed.

(** One turn of the recovery loop on a leftover, when removals succeed
    and [os.replace] raises nothing but [OSError]: the leftover is gone and
    no other hidden entry was touched. *)
Lemma recover_one_leftover {rt : Runtime} (m : manager) (o : oracle)
  (st : list dirent * list event) (name : string) :
  (forall nm, rmtree_outcome o nm = Removed) ->
  (forall nm e, replace_outcome o nm = Some e -> is_OSError e = true) ->
  leftover_at name (fst st) = true ->
  lookup name (fst (recover_one m o st name)) = None /\
  (forall k, k <> name -> startswith ".backup_" k = true ->
             lookup k (fst (recover_one m o st name)) = lookup k (fst st)).
Proof.
  intros Hrm Hrep Hleft. unfold leftover_at in Hleft. unfold recover_one.
  destruct (lookup name (fst st)) as [[c|content]|] eqn:El; try discriminate.
  rewrite Hleft. cbn [negb].
  set (final := final_base_of name).
  assert (Hfinal : name <> final).
  { intros E. pose proof (final_base_not_staging name) as H. fold final in H.
    rewrite <- E in H. congruence. }
  assert (Hremoved : forall r,
            lookup name (remove_entry name r) = None /\
            (forall k, k <> name -> lookup k (remove_entry name r) = lookup k r)).
  { intros r. split; [apply lookup_remove_eq|].
    intros k Hk. now apply lookup_remove_neq. }
  assert (Hnotfinal : forall k, startswith ".backup_" k = true -> k <> final).
  { intros k Hk ->. unfold final in Hk. now rewrite final_base_not_staging in Hk. }
  assert (Hrenamed : forall method failed,
            lookup name (fst (write_metadata m o final method None true failed
                                (rename_entry name final (fst st)))) = None /\
            (forall k, k <> name -> startswith ".backup_" k = true ->
               lookup k (fst (write_metadata m o final method None true failed
                                (rename_entry name final (fst st))))
               = lookup k (fst st))).
  { intros method failed. unfold rename_entry. rewrite El. split.
    - rewrite write_metadata_lookup_other by assumption.
      rewrite lookup_put_neq by assumption. apply lookup_remove_eq.
    - intros k Hk Hs.
      rewrite write_metadata_lookup_other by (now apply Hnotfinal).
      rewrite lookup_put_neq by (now apply Hnotfinal).
      now apply lookup_remove_neq. }
  destruct (Nat.eqb (count_files (Dir content)) 0).
  { cbn [fst]. rewrite remove_temp_removed by apply Hrm.
    destruct (Hremoved (fst st)) as [H1 H2]. split; [assumption|]. intros; now apply H2. }
  destruct (exists_in final (fst st)).
  { cbn [fst]. rewrite remove_temp_removed by apply Hrm.
    destruct (Hremoved (fst st)) as [H1 H2]. split; [assumption|]. intros; now apply H2. }
  destruct (replace_outcome o name) as [e|] eqn:Erep.
  - rewrite (Hrep _ _ Erep).
    destruct (is_EXDEV e).
    + destruct (move_outcome o name) as [|e' leftover].
      * cbn [fst]. apply Hrenamed.
      * cbn [fst]. rewrite remove_temp_removed by apply Hrm.
        split; [apply lookup_remove_eq|].
        intros k Hk Hs. rewrite lookup_remove_neq by assumption.
        destruct leftover as [partial|]; [|reflexivity].
        apply lookup_put_neq. now apply Hnotfinal.
    + cbn [fst]. rewrite remove_temp_removed by apply Hrm.
      destruct (Hremoved (fst st)) as [H1 H2]. split; [assumption|]. intros; now apply H2.
  - cbn [fst]. apply Hrenamed.
Qed.

Lemma leftover_at_lookup (k : string) (r1 r2 : list dirent) :
  lookup k r1 = lookup k r2 -> leftover_at k r1 = leftover_at k r2.
Proof. unfold leftover_at. now intros ->. Qed.

Lemma leftover_at_staging (k : string) (root : list dirent) :
  leftover_at k root = true -> startswith ".backup_" k = true.
Proof.
  unfold leftover_at. destruct (lookup k root) as [[c|es]|]; congruence.
Qed.

(** The leftovers that remain after the loop went through [l] were there
    before and are not among [l]. *)
Lemma recover_fold_leftovers {rt : Runtime} (m : manager) (o : oracle)
  (l : list string) :
  (forall nm, rmtree_outcome o nm = Removed) ->
  (forall nm e, replace_outcome o nm = Some e -> is_OSError e = true) ->
  forall st k,
    leftover_at k (fst (fold_left (recover_one m o) l st)) = true ->
    leftover_at k (fst st) = true /\ ~ In k l.
Proof.
  intros Hrm Hrep. induction l as [|n l IH]; intros st k Hk; simpl in *; [tauto|].
  apply IH in Hk as [Hk Hnot].
  destruct (leftover_at n (fst st)) eqn:En.
  - destruct (recover_one_leftover m o st n Hrm Hrep En) as [Hgone Hother].
    destruct (string_dec k n) as [->|Hne].
    + unfold leftover_at in Hk. now rewrite Hgone in Hk.
    + pose proof (leftover_at_staging _ _ Hk) as Hs.
      rewrite (leftover_at_lookup k _ (fst st)) in Hk by now apply Hother.
      split; [assumption|]. intros [->|H]; [congruence|contradiction].
  - rewrite recover_one_skip in Hk by assumption.
    split; [assumption|]. intros [->|H]; [congruence|contradiction].
Qed.

Lemma recover_fold_nothing_left {rt : Runtime} (m : manager) (o : oracle)
  (l : list string) :
  forall st, (forall nm, leftover_at nm (fst st) = false) ->
             fold_left (recover_one m o) l st = st.
Proof.
  induction l as [|n l IH]; intros st Hno; simpl; [reflexivity|].
  rewrite recover_one_skip by apply Hno. now apply IH.
Qed.

Lemma rename_lookup_other (src dst k : string) (v : node) (root : list dirent) :
  lookup src root = Some v -> src <> dst -> exists_in dst root = false ->
  k <> src -> k <> dst ->
  lookup k (rename_entry src dst root) = lookup k root.
Proof.
  intros Hs Hne Hdst Hk1 Hk2.
  rewrite <- (remove_entry_absent dst root Hdst) at 1.
  rewrite (rename_lookup src dst k v root Hs Hne).
  destruct (String.eqb_spec k dst); [contradiction|].
  destruct (String.eqb_spec k src); [contradiction|reflexivity].
Qed.

(** One turn of the recovery loop touches the entry it is about and the
    final name of that entry, nothing else. *)
Lemma recover_one_lookup_other {rt : Runtime} (m : manager) (o : oracle)
  (st : list dirent * list event) (name k : string) :
  k <> name -> k <> final_base_of name ->
  lookup k (fst (recover_one m o st name)) = lookup k (fst st).
Proof.
  intros Hkn Hkf. unfold recover_one.
  destruct (lookup name (fst st)) as [[c|content]|] eqn:Hn; try reflexivity.
  destruct (startswith ".backup_" name) eqn:Hst; cbn [negb]; [|reflexivity].
  assert (Htemp : forall r, lookup k (remove_temp o name r) = lookup k r).
  { intros r. unfold remove_temp. now rewrite safe_rmtree_lookup_other. }
  destruct (Nat.eqb (count_files (Dir content)) 0); [cbn [fst]; now apply Htemp|].
  set (final := final_base_of name) in *.
  destruct (exists_in final (fst st)) eqn:Hex; [cbn [fst]; now apply Htemp|].
  assert (Hnf : name <> final).
  { intros E. pose proof (final_base_not_staging name) as H. fold final in H.
    rewrite <- E in H. congruence. }
  assert (Hren : lookup k (rename_entry name final (fst st)) = lookup k (fst st)).
  { now apply (rename_lookup_other name final k (Dir content)). }
  destruct (replace_outcome o name) as [e|].
  - destruct (is_OSError e); [|reflexivity].
    destruct (is_EXDEV e).
    + destruct (move_outcome o name) as [|e' leftover]; cbn [fst].
      * now rewrite write_metadata_lookup_other.
      * rewrite Htemp. destruct leftover; [now rewrite lookup_put_neq|reflexivity].
    + cbn [fst]. now apply Htemp.
  - cbn [fst]. now rewrite write_metadata_lookup_other.
Qed.

Lemma recover_one_not_staging {rt : Runtime} (m : manager) (o : oracle)
  (st : list dirent * list event) (name : string) :
  startswith ".backup_" name = false -> recover_one m o st name = st.
Proof.
  intros H. apply recover_one_skip. unfold leftover_at.
  now destruct (lookup name (fst st)) as [[c|es]|].
Qed.

(** What the metadata step leaves under the final name. *)
Lemma write_metadata_final {rt : Runtime} (m : manager) (o : oracle) (final : string)
  (method : move_method) (d : option string) (r : bool) (failed : event)
  (root : list dirent) (content : list dirent) :
  lookup final root = Some (Dir content) ->
  exists published,
    lookup final (fst (write_metadata m o final method d r failed root))
    = Some (Dir published)
    /\ (published = content
        \/ exists bytes, published = put_entry meta_file (File bytes) content).
Proof.
  intros Hl. unfold write_metadata.
  destruct (meta_outcome o final) as [| |[bytes|]]; rewrite ?Hl; cbn [fst].
  - eexists. split; [apply lookup_put_eq|]. right. now eexists.
  - exists content. split; [assumption|now left].
  - eexists. split; [apply lookup_put_eq|]. right. now eexists.
  - exists content. split; [assumption|now left].
Qed.

(** A leftover that holds files, whose final name is free and is the
    final name of no other hidden entry, and whose move succeeds, is found
    under its final name after the scan, with its content. *)
Lemma recovery_publishes {rt : Runtime} (m : manager) (o : oracle)
  (root : list dirent) (nm : string) (content : list dirent) :
  NoDup (map fst root) ->
  lookup nm root = Some (Dir content) ->
  startswith ".backup_" nm = true ->
  count_files (Dir content) <> 0 ->
  exists_in (final_base_of nm) root = false ->
  (forall k, In k (map fst root) -> k <> nm -> startswith ".backup_" k = true ->
             final_base_of k <> final_base_of nm) ->
  (replace_outcome o nm = None
   \/ exists e, replace_outcome o nm = Some e /\ is_OSError e = true
                /\ is_EXDEV e = true /\ move_outcome o nm = Moved) ->
  exists r method,
    lookup (final_base_of nm) r = Some (Dir content)
    /\ lookup (final_base_of nm) (fst (_recover_or_cleanup_tmp_dirs m o root))
       = lookup (final_base_of nm)
           (fst (write_metadata m o (final_base_of nm) method None true
                   (FailedToWriteRecoveredMetadata (final_base_of nm)) r)).
Proof.
  intros Hnd Hl Hst Hcount Hfree Hothers Hmove.
  set (final := final_base_of nm) in *.
  assert (Hnf : nm <> final).
  { intros E. pose proof (final_base_not_staging nm) as H. fold final in H.
    rewrite <- E in H. congruence. }
  assert (Hfn : ~ In final (map fst root)) by now apply exists_in_false.
  assert (G : forall l,
            (forall k, In k l -> In k (map fst root) /\ k <> nm) ->
            forall st,
              lookup nm (fst (fold_left (recover_one m o) l st)) = lookup nm (fst st)
              /\ lookup final (fst (fold_left (recover_one m o) l st))
                 = lookup final (fst st)).
  { induction l as [|k l IH]; intros Hl' st; [now split|].
    cbn [fold_left].
    destruct (IH (fun k' H => Hl' k' (or_intror H)) (recover_one m o st k)) as [I1 I2].
    rewrite I1, I2. destruct (Hl' k (or_introl eq_refl)) as [Hin Hkn].
    destruct (startswith ".backup_" k) eqn:Hk.
    - split; apply recover_one_lookup_other; auto.
      + intros E. pose proof (final_base_not_staging k) as H.
        rewrite <- E in H. congruence.
      + intros E. apply Hfn. now rewrite E.
      + intros E. apply (Hothers k Hin Hkn Hk). now symmetry.
    - now rewrite recover_one_not_staging. }
  unfold _recover_or_cleanup_tmp_dirs.
  destruct (in_split nm (map fst root) (lookup_Some_names _ _ _ Hl)) as (l1 & l2 & Hs).
  assert (Hparts : forall k, In k l1 \/ In k l2 -> In k (map fst root) /\ k <> nm).
  { intros k Hk. rewrite Hs in Hnd |- *. split.
    - apply in_or_app. destruct Hk as [Hk|Hk]; [now left|right; now right].
    - intros ->. apply NoDup_remove_2 in Hnd. apply Hnd. now apply in_or_app. }
  rewrite Hs, fold_left_app. cbn [fold_left].
  destruct (G l1 (fun k H => Hparts k (or_introl H)) (root, [])) as [A1 A2].
  set (st1 := fold_left (recover_one m o) l1 (root, [])) in *.
  cbn [fst] in A1, A2.
  destruct (G l2 (fun k H => Hparts k (or_intror H)) (recover_one m o st1 nm)) as [_ B2].
  rewrite B2.
  assert (Hex1 : exists_in final (fst st1) = false).
  { unfold exists_in in *. rewrite A2. exact Hfree. }
  assert (Hren : lookup final (rename_entry nm final (fst st1)) = Some (Dir content)).
  { rewrite <- (remove_entry_absent final (fst st1) Hex1) at 1.
    rewrite (rename_lookup nm final final (Dir content)) by (rewrite ?A1; assumption).
    now rewrite String.eqb_refl. }
  unfold recover_one. rewrite A1, Hl, Hst. cbn [negb].
  destruct (Nat.eqb_spec (count_files (Dir content)) 0); [contradiction|].
  fold final. rewrite Hex1.
  destruct Hmove as [-> | (e & -> & -> & -> & ->)]; cbn [fst];
    eexists; eexists; (split; [exact Hren|reflexivity]).
Qed.

(** C9 (amended). Recovery idempotence. When the removals of the first
    run succeed (and [os.replace] raises nothing but [OSError]), the first
    run leaves no leftover staging directory in the backup root: no entry
    is found under the hidden name of a leftover any more, each was
    removed or moved to its final name. A leftover that holds files,
    whose final name is free and is the final name of no other hidden
    entry, and whose move succeeds, is then found under that final name
    with its content, at most a metadata sidecar added. A second run,
    whatever its library calls would do, changes nothing and makes no
    call. *)
Theorem recovery_idempotent {rt : Runtime} (m : manager) (o1 o2 : oracle)
  (root : list dirent) :
  (forall nm, rmtree_outcome o1 nm = Removed) ->
  (forall nm e, replace_outcome o1 nm = Some e -> is_OSError e = true) ->
  (forall nm, leftover_at nm (fst (_recover_or_cleanup_tmp_dirs m o1 root)) = false)
  /\ (forall nm, leftover_at nm root = true ->
                 lookup nm (fst (_recover_or_cleanup_tmp_dirs m o1 root)) = None)
  /\ (forall nm content,
        NoDup (map fst root) ->
        lookup nm root = Some (Dir content) ->
        startswith ".backup_" nm = true ->
        count_files (Dir content) <> 0 ->
        exists_in (final_base_of nm) root = false ->
        (forall k, In k (map fst root) -> k <> nm -> startswith ".backup_" k = true ->
                   final_base_of k <> final_base_of nm) ->
        (replace_outcome o1 nm = None
         \/ exists e, replace_outcome o1 nm = Some e /\ is_EXDEV e = true
                      /\ move_outcome o1 nm = Moved) ->
        exists published,
          lookup (final_base_of nm) (fst (_recover_or_cleanup_tmp_dirs m o1 root))
          = Some (Dir published)
          /\ (published = content
              \/ exists bytes, published = put_entry meta_file (File bytes) content))
  /\ _recover_or_cleanup_tmp_dirs m o2 (fst (_recover_or_cleanup_tmp_dirs m o1 root))
     = (fst (_recover_or_cleanup_tmp_dirs m o1 root), []).
Proof.
  intros Hrm Hrep.
  assert (Hnone : forall nm,
            leftover_at nm (fst (_recover_or_cleanup_tmp_dirs m o1 root)) = false).
  { intros nm. unfold _recover_or_cleanup_tmp_dirs.
    destruct (leftover_at nm (fst (fold_left (recover_one m o1) (map fst root) (root, []))))
      eqn:E; [exfalso|reflexivity].
    apply (recover_fold_leftovers m o1 _ Hrm Hrep) in E as [Hin Hnot].
    cbn [fst] in Hin. apply Hnot. unfold leftover_at in Hin.
    destruct (lookup nm root) as [v|] eqn:El; [|discriminate].
    eapply lookup_Some_names; eassumption. }
  split; [exact Hnone|]. split; [|split].
  - intros nm Hleft. pose proof (leftover_at_staging _ _ Hleft) as Hs.
    specialize (Hnone nm). unfold leftover_at in Hnone. rewrite Hs in Hnone.
    destruct (lookup nm (fst (_recover_or_cleanup_tmp_dirs m o1 root)))
      as [[c|es]|] eqn:El; try discriminate; [exfalso|reflexivity].
    (* a file under the name of a leftover: the entry under that name was
       never replaced by a file *)
    revert El. unfold _recover_or_cleanup_tmp_dirs.
    assert (G : forall l st, lookup nm (fst st) <> None ->
                  (forall c', lookup nm (fst st) <> Some (File c')) ->
                  lookup nm (fst (fold_left (recover_one m o1) l st)) <> Some (File c)).
    { induction l as [|n l IH]; intros st Hsome Hnf; simpl; [apply Hnf|].
      destruct (leftover_at n (fst st)) eqn:En.
      - destruct (recover_one_leftover m o1 st n Hrm Hrep En) as [Hgone Hother].
        destruct (string_dec nm n) as [->|Hne].
        + clear IH. intros H.
          assert (K : forall l' st', lookup n (fst st') = None ->
                        lookup n (fst (fold_left (recover_one m o1) l' st')) = None).
          { induction l' as [|n' l' IH']; intros st' Hn; simpl; [assumption|].
            apply IH'. destruct (leftover_at n' (fst st')) eqn:En'.
            - destruct (recover_one_leftover m o1 st' n' Hrm Hrep En') as [Hg Ho].
              destruct (string_dec n n') as [->|Hnn]; [assumption|].
              now rewrite Ho.
            - now rewrite recover_one_skip. }
          rewrite (K l _ Hgone) in H. discriminate.
        + apply IH; rewrite Hother by assumption; assumption.
      - rewrite recover_one_skip by assumption. now apply IH. }
    apply G; cbn [fst]; unfold leftover_at in Hleft;
      destruct (lookup nm root) as [[c'|es]|]; congruence.
  - intros nm content Hnd Hl Hst Hcount Hfree Hothers Hmove.
    destruct (recovery_publishes m o1 root nm content) as (r & method & Hr & E);
      try assumption.
    { destruct Hmove as [H|(e & H1 & H2 & H3)]; [now left|right].
      exists e. repeat split; try assumption. now apply (Hrep nm). }
    rewrite E. now apply write_metadata_final.
  - unfold _recover_or_cleanup_tmp_dirs at 1. now apply recover_fold_nothing_left.
Qed.

(** A first run in which the removal of an empty leftover fails leaves it
    in the backup root; a second run, in which the removal succeeds,
    changes the backup root. *)
Lemma recovery_second_run_counterexample :
  _recover_or_cleanup_tmp_dirs (rt := stand_in_runtime) (example_manager 10)
    (rmtree_fails_oracle (at_noon 0)) [(".backup_20250101_120000.k3x9q2ab", Dir [])]
  = ([(".backup_20250101_120000.k3x9q2ab", Dir [])],
     [FoundLeftover ".backup_20250101_120000.k3x9q2ab";
      RemovingEmptyTemp ".backup_20250101_120000.k3x9q2ab";
      RmtreeCalled ".backup_20250101_120000.k3x9q2ab"])
  /\ _recover_or_cleanup_tmp_dirs (rt := stand_in_runtime) (example_manager 10)
       (calm_oracle (at_noon 0)) [(".backup_20250101_120000.k3x9q2ab", Dir [])]
     = ([],
        [FoundLeftover ".backup_20250101_120000.k3x9q2ab";
         RemovingEmptyTemp ".backup_20250101_120000.k3x9q2ab";
         RmtreeCalled ".backup_20250101_120000.k3x9q2ab"]).
Proof. split; reflexivity. Qed.

(** ** What the checksum covers *)

Lemma concat_length_perm {A : Type} (l l' : list (list A)) :
  Permutation l l' -> length (List.concat l) = length (List.concat l').
Proof.
  induction 1; simpl; rewrite ?length_app; try lia.
Qed.

Lemma visit_sorted_NoDup (l : list (path * list byte)) :
  StronglySorted visit_lt l -> NoDup l.
Proof.
  induction 1 as [|x l Hs IH Hall]; constructor; [|assumption].
  intros Hin. rewrite Forall_forall in Hall.
  exact (walk_lt_irrefl _ (Hall _ Hin)).
Qed.

Lemma wf_node_put (nm : string) (v : node) (es : list dirent) :
  wf_node (Dir es) -> wf_node v -> wf_node (Dir (put_entry nm v es)).
Proof.
  rewrite !wf_node_Dir. intros [Hnd Hall] Hv. split; [now apply NoDup_names_put|].
  clear Hnd. induction es as [|[k w] r IH]; simpl.
  - repeat constructor. assumption.
  - inversion Hall; subst. destruct (String.eqb k nm); constructor; auto.
Qed.

(** Adding a file to a directory that had nothing under that name adds
    that file to the visit and changes nothing else in it. *)
Lemma files_visited_put_new (nm : string) (bytes : list byte) (es : list dirent) :
  wf_node (Dir es) -> lookup nm es = None ->
  Permutation (files_visited [] (Dir (put_entry nm (File bytes) es)))
              (([nm], bytes) :: files_visited [] (Dir es)).
Proof.
  intros Hwf Hnone.
  assert (Hwf' : wf_node (Dir (put_entry nm (File bytes) es))).
  { apply wf_node_put; [assumption|exact I]. }
  assert (Hnew : forall c, ~ In ([nm], c) (files_visited [] (Dir es))).
  { intros c H. apply (files_visited_In _ Hwf) in H as [_ H].
    simpl in H. now rewrite Hnone in H. }
  apply NoDup_Permutation.
  - apply visit_sorted_NoDup. now apply files_visited_sorted.
  - constructor; [apply Hnew|].
    apply visit_sorted_NoDup. now apply files_visited_sorted.
  - intros [p c]. simpl.
    rewrite (files_visited_In _ Hwf'), (files_visited_In _ Hwf).
    destruct p as [|k p]; [intuition congruence|].
    cbn [read_file].
    destruct (string_dec k nm) as [->|Hne].
    + rewrite lookup_put_eq, Hnone. split.
      * intros [_ H]. destruct p; simpl in H; [|discriminate]. left. now injection H as ->.
      * intros [[= <- <-]|[_ H]]; [|discriminate]. split; [discriminate|reflexivity].
    + rewrite lookup_put_neq by assumption. split; [tauto|].
      intros [[= E _]|H]; [congruence|assumption].
Qed.

Lemma encode_rel_path_meta (sep : string) :
  0 < length (encode (rel_path sep [meta_file])).
Proof. simpl. lia. Qed.

(** Whatever happens when the hasher touches the sidecar, it feeds
    something for it. *)
Lemma segment_meta_nonempty (sep : string) (access : path -> read_status)
  (bytes : list byte) :
  0 < length (segment sep access ([meta_file], bytes)).
Proof.
  pose proof (encode_rel_path_meta sep) as Hp.
  unfold segment, feed_file. cbn [fst snd].
  destruct (access [meta_file]) as [| | | |k];
    try destruct (Nat.leb k (length (chunks chunk_size bytes)));
    rewrite ?fold_update_concat; unfold update;
    rewrite ?app_nil_l, ?length_app; try lia.
  simpl. lia.
Qed.

Lemma hash_input_put_new (sep : string) (access : path -> read_status)
  (nm : string) (bytes : list byte) (es : list dirent) :
  wf_node (Dir es) -> lookup nm es = None ->
  length (hash_input sep access (Dir (put_entry nm (File bytes) es)))
  = length (segment sep access ([nm], bytes)) + length (hash_input sep access (Dir es)).
Proof.
  intros Hwf Hnone. rewrite !hash_input_segments.
  rewrite (concat_length_perm _ (map (segment sep access)
                                   (([nm], bytes) :: files_visited [] (Dir es)))).
  - simpl. now rewrite length_app.
  - apply Permutation_map. now apply files_visited_put_new.
Qed.

Lemma unhex_hex_digit (n : N) : (n < 16)%N -> unhex_digit (hex_digit n) = n.
Proof.
  intros H. destruct n as [|p]; [reflexivity|].
  do 4 (destruct p as [p|p|]; try reflexivity; try lia).
Qed.

Lemma hex_inj (a b : list byte) : hex a = hex b -> a = b.
Proof.
  revert b. induction a as [|x a IH]; intros [|y b]; simpl; try discriminate;
    [reflexivity|].
  intros [= H1 H2 H3]. f_equal; [|now apply IH].
  pose proof (Byte.to_N_bounded x) as Bx. pose proof (Byte.to_N_bounded y) as By_.
  apply (f_equal unhex_digit) in H1, H2.
  rewrite !unhex_hex_digit in H1, H2
    by (try apply N.mod_lt; try apply N.Div0.div_lt_upper_bound; lia).
  assert (E : Byte.to_N x = Byte.to_N y).
  { rewrite (N.div_mod (Byte.to_N x) 16), (N.div_mod (Byte.to_N y) 16) by lia.
    now rewrite H1, H2. }
  pose proof (Byte.of_to_N x) as Ex. pose proof (Byte.of_to_N y) as Ey.
  rewrite E in Ex. congruence.
Qed.

(** ** What the staging directory holds *)

Lemma copy_one_made (m : manager) (o : copy_oracle) (nm : string) (content : list byte) :
  fst (fst (copy_one m o nm content)) = [] \/
  exists c, fst (fst (copy_one m o nm content)) = [(nm, File c)].
Proof.
  unfold copy_one, left_entries.
  destruct (_safe_copy m o) as [ev [[|data|]|e]], (left_by_safe_copy m o);
    simpl; eauto.
Qed.

(** Coming to the backup directory changes how [copytree] ends, not what
    it has made of the entries it went through. *)
Lemma self_copy_made (b : bool) (copied : list dirent * list event * copytree_status) :
  fst (fst (if b then (fst (fst copied), snd (fst copied), worse CopyErrors (snd copied))
            else copied))
  = fst (fst copied).
Proof. now destruct b. Qed.

(** The copy holds entries of the source under their names, once each. *)
Lemma copytree_made (m : manager) (o : path -> copy_oracle) (n : node) :
  wf_node n -> forall src,
  NoDup (map fst (fst (fst (copytree m o src n)))) /\
  Forall (fun e => wf_node (snd e)) (fst (fst (copytree m o src n))) /\
  (forall k, In k (map fst (fst (fst (copytree m o src n)))) ->
             In k (map fst (entries n))).
Proof.
  induction n as [c|es IH] using node_nested_ind; intros Hwf src.
  - simpl. repeat split; [constructor|constructor|tauto].
  - apply wf_node_Dir in Hwf as [Hnd Hsub]. cbn [copytree entries].
    rewrite !self_copy_made.
    induction es as [|e r IHr].
    + simpl. repeat split; [constructor|constructor|tauto].
    + inversion IH as [|? ? IHe IHrest]; subst.
      inversion Hsub as [|? ? Hwe Hwrest]; subst.
      cbn [map] in Hnd. inversion Hnd as [|? ? Hfresh Hndr]; subst.
      specialize (IHr IHrest Hndr Hwrest). destruct IHr as (R1 & R2 & R3).
      cbn -[copytree copy_one ignored worse].
      destruct (ignored m (fst e)).
      * repeat split; try assumption. intros k Hk. right. now apply R3.
      * assert (Hone : forall one : list dirent * list event * copytree_status,
                  (fst (fst one) = [] \/ exists v, fst (fst one) = [(fst e, v)] /\ wf_node v) ->
                  forall rest : list dirent * list event * copytree_status,
                  NoDup (map fst (fst (fst rest))) ->
                  Forall (fun e => wf_node (snd e)) (fst (fst rest)) ->
                  (forall k, In k (map fst (fst (fst rest))) -> In k (map fst r)) ->
                  let res := match snd one with
                             | CopyAborts _ => one
                             | st => (fst (fst one) ++ fst (fst rest),
                                      snd (fst one) ++ snd (fst rest),
                                      worse st (snd rest))
                             end in
                  NoDup (map fst (fst (fst res))) /\
                  Forall (fun e => wf_node (snd e)) (fst (fst res)) /\
                  (forall k, In k (map fst (fst (fst res))) -> fst e = k \/ In k (map fst r))).
        { intros one Hmade rest Q1 Q2 Q3. cbn zeta.
          assert (Hnil : NoDup (map fst (@nil dirent)) /\
                         Forall (fun e => wf_node (snd e)) (@nil dirent) /\
                         (forall k, In k (map fst (@nil dirent)) ->
                                    fst e = k \/ In k (map fst r))).
          { repeat split; [constructor|constructor|intros k []]. }
          assert (Hrest : NoDup (map fst (fst (fst rest))) /\
                          Forall (fun e => wf_node (snd e)) (fst (fst rest)) /\
                          (forall k, In k (map fst (fst (fst rest))) ->
                                     fst e = k \/ In k (map fst r))).
          { repeat split; try assumption. intros k Hk. right. now apply Q3. }
          destruct Hmade as [E|(v & E & Hv)].
          - destruct (snd one); cbn [fst snd]; rewrite E; cbn [app]; assumption.
          - assert (Hsingle : NoDup (map fst [(fst e, v)]) /\
                              Forall (fun e => wf_node (snd e)) [(fst e, v)] /\
                              (forall k, In k (map fst [(fst e, v)]) ->
                                         fst e = k \/ In k (map fst r))).
            { repeat split.
              - repeat constructor. simpl. tauto.
              - repeat constructor. assumption.
              - intros k [<-|[]]. now left. }
            assert (Hcons : NoDup (map fst ((fst e, v) :: fst (fst rest))) /\
                            Forall (fun e => wf_node (snd e)) ((fst e, v) :: fst (fst rest)) /\
                            (forall k, In k (map fst ((fst e, v) :: fst (fst rest))) ->
                                       fst e = k \/ In k (map fst r))).
            { repeat split.
              - cbn [map fst]. constructor; [|assumption].
                intros Hin. apply Hfresh. now apply Q3.
              - constructor; assumption.
              - intros k [<-|Hk]; [now left|right; now apply Q3]. }
            destruct (snd one); cbn [fst snd]; rewrite E; cbn [app]; assumption. }
        destruct (snd e) as [content|sub] eqn:Ese.
        -- apply Hone; try assumption.
           destruct (copy_one_made m (o (src ++ [fst e])) (fst e) content) as [E|[c' E]];
             [now left|right]. exists (File c'). split; [assumption|exact I].
        -- apply Hone; try assumption. right.
           exists (Dir (fst (fst (copytree m o (src ++ [fst e]) (Dir sub))))).
           split; [reflexivity|].
           destruct (IHe Hwe (src ++ [fst e])) as (S1 & S2 & _).
           apply wf_node_Dir. now split.
Qed.

Lemma copytree_wf (m : manager) (o : path -> copy_oracle) (src : path) (n : node) :
  wf_node n -> wf_node (Dir (fst (fst (copytree m o src n)))).
Proof.
  intros Hwf. destruct (copytree_made m o n Hwf src) as (H1 & H2 & _).
  apply wf_node_Dir. now split.
Qed.

Lemma description_not_meta : description_file <> meta_file.
Proof. discriminate. Qed.

(** What the staging directory holds when the staging step returned. *)
Lemma stage_Returns (m : manager) (o : oracle) (d : option string)
  (save_dir : node) (tmp : string) (root root1 : list dirent) (ev1 : list event) :
  wf_node save_dir ->
  lookup meta_file (entries save_dir) = None ->
  stage m o d save_dir tmp root = (root1, ev1, Returns tt) ->
  exists staged,
    lookup tmp root1 = Some (Dir staged) /\ wf_node (Dir staged) /\
    lookup meta_file staged = None /\
    (forall d', truthy d = Some d' ->
                lookup description_file staged = Some (File (text_mode m (encode d')))).
Proof.
  intros Hwf Hnometa. unfold stage.
  pose proof (copytree_wf m (copy_outcomes o) [] save_dir Hwf) as Hmade.
  destruct (copytree_made m (copy_outcomes o) save_dir Hwf []) as (_ & _ & Hincl).
  assert (Hnone : lookup meta_file (fst (fst (copytree m (copy_outcomes o) [] save_dir))) = None).
  { apply lookup_None_names. intros H. apply Hincl in H.
    now apply lookup_None_names in Hnometa. }
  destruct (snd (copytree m (copy_outcomes o) [] save_dir)); try discriminate.
  destruct (truthy d) as [d'|].
  - destruct (write_description o); [discriminate|].
    intros [= <- <-]. eexists. split; [apply lookup_put_eq|]. split; [|split].
    + apply wf_node_put; [assumption|exact I].
    + rewrite lookup_put_neq; [assumption|]. apply not_eq_sym, description_not_meta.
    + intros d'' [= <-]. apply lookup_put_eq.
  - intros [= <- <-]. eexists. split; [apply lookup_put_eq|].
    split; [assumption|]. split; [assumption|]. discriminate.
Qed.

(** C10 (amended). Scope of the stored checksum. In [create_backup] and
    in recovery the metadata step computes the checksum over the published
    directory as it stands and only then writes the sidecar into that
    directory. When the directory holds nothing under the name of the
    sidecar, which is so for a snapshot of a save directory that holds no
    [.backup_meta.json] of its own, the checksum covers no file of that
    name; it covers the description sidecar, which was written into the
    staging directory before the publish step; and what a later run of
    the hasher over the snapshot feeds to SHA-256 is longer by the share
    of the sidecar, hence different, so its digest differs from the stored
    checksum unless SHA-256 collides on these two inputs. A call of
    [create_backup] whose steps succeed, and a recovery scan that moves a
    leftover to its final name, store such a checksum. *)
Theorem checksum_scope {rt : Runtime} (m : manager) (o : oracle) :
  (forall final method d r failed root snap,
     lookup final root = Some (Dir snap) ->
     meta_outcome o final = MetaWritten ->
     exists mt,
       write_metadata m o final method d r failed root
       = (put_entry final
            (Dir (put_entry meta_file (File (text_mode m (json_dumps mt))) snap)) root, [])
       /\ checksum mt = compute_directory_sha256 (os_sep m) (access o) (Dir snap)
       /\ (wf_node (Dir snap) -> lookup meta_file snap = None ->
           let sidecar := text_mode m (json_dumps mt) in
           let with_sidecar := Dir (put_entry meta_file (File sidecar) snap) in
           (forall c, ~ In ([meta_file], c) (files_visited [] (Dir snap)))
           /\ In ([meta_file], sidecar) (files_visited [] with_sidecar)
           /\ length (hash_input (os_sep m) (access o) (Dir snap))
              < length (hash_input (os_sep m) (access o) with_sidecar)
           /\ (sha256 (hash_input (os_sep m) (access o) with_sidecar)
               <> sha256 (hash_input (os_sep m) (access o) (Dir snap)) ->
               compute_directory_sha256 (os_sep m) (access o) with_sidecar
               <> checksum mt)))
  /\
  (forall d save_dir root root1 root2 tmp ev1 ev2 method,
     let nm := backup_name_at (now o) in
     wf_node save_dir ->
     lookup meta_file (entries save_dir) = None ->
     count_files save_dir <> 0 ->
     mkdtemp ("." ++ nm ++ ".")%string (mkdtemp_suffixes o) root = Some tmp ->
     stage m o d save_dir tmp (root ++ [(tmp, Dir [])]) = (root1, ev1, Returns tt) ->
     publish o tmp nm root1 = (root2, ev2, Returns method) ->
     meta_outcome o nm = MetaWritten ->
     exists mt snap,
       lookup tmp root1 = Some (Dir snap) /\ lookup nm root2 = Some (Dir snap)
       /\ wf_node (Dir snap) /\ lookup meta_file snap = None
       /\ (forall d', truthy d = Some d' ->
             In ([description_file], text_mode m (encode d'))
               (files_visited [] (Dir snap)))
       /\ checksum mt = compute_directory_sha256 (os_sep m) (access o) (Dir snap)
       /\ let published :=
            put_entry nm
              (Dir (put_entry meta_file (File (text_mode m (json_dumps mt))) snap))
              root2 in
          create_backup m o d save_dir root
          = (Some nm, fst (_cleanup_old_backups m o published),
             MkdtempCalled tmp :: ev1 ++ ev2 ++ [BackupCreated nm]
               ++ snd (_cleanup_old_backups m o published)))
  /\
  (forall root name content,
     NoDup (map fst root) ->
     lookup name root = Some (Dir content) ->
     startswith ".backup_" name = true ->
     count_files (Dir content) <> 0 ->
     exists_in (final_base_of name) root = false ->
     (forall k, In k (map fst root) -> k <> name -> startswith ".backup_" k = true ->
                final_base_of k <> final_base_of name) ->
     (replace_outcome o name = None
      \/ exists e, replace_outcome o name = Some e /\ is_OSError e = true
                   /\ is_EXDEV e = true /\ move_outcome o name = Moved) ->
     meta_outcome o (final_base_of name) = MetaWritten ->
     exists mt,
       lookup (final_base_of name) (fst (_recover_or_cleanup_tmp_dirs m o root))
       = Some (Dir (put_entry meta_file (File (text_mode m (json_dumps mt))) content))
       /\ checksum mt = compute_directory_sha256 (os_sep m) (access o) (Dir content)
       /\ recovered mt = true).
Proof.
  split; [|split].
  - intros final method d r failed root snap Hl Hm.
    destruct (write_metadata_written m o final method d r failed root snap Hl Hm)
      as (mt & Hw & _ & _ & _ & Hsum & _).
    exists mt. split; [exact Hw|]. split; [assumption|].
    intros Hwf Hnone. cbn zeta.
    assert (Hlen : length (hash_input (os_sep m) (access o) (Dir snap))
                   < length (hash_input (os_sep m) (access o)
                               (Dir (put_entry meta_file
                                       (File (text_mode m (json_dumps mt))) snap)))).
    { rewrite hash_input_put_new by assumption.
      pose proof (segment_meta_nonempty (os_sep m) (access o)
                    (text_mode m (json_dumps mt))) as H.
      lia. }
    split; [|split; [|split]].
    + intros c H. apply (files_visited_In _ Hwf) in H as [_ H].
      simpl in H. now rewrite Hnone in H.
    + apply (Permutation_in _ (Permutation_sym
               (files_visited_put_new meta_file (text_mode m (json_dumps mt)) snap
                  Hwf Hnone))).
      now left.
    + exact Hlen.
    + intros Hsha E. apply Hsha. rewrite Hsum in E.
      unfold compute_directory_sha256 in E. now apply hex_inj in E.
  - intros d save_dir root root1 root2 tmp ev1 ev2 method nm Hwf Hnometa Hcount Hmk
      Hst Hpub Hm.
    destruct (mkdtemp_fresh _ _ _ _ Hmk) as [Hfresh [suffix Hs]].
    assert (Hne : tmp <> nm).
    { rewrite Hs. subst nm. discriminate. }
    destruct (stage_Returns m o d save_dir _ _ _ _ Hwf Hnometa Hst)
      as (staged & Hstaged & Hwfs & Hnone & Hdesc).
    assert (Hfinal : lookup nm root2 = Some (Dir staged)).
    { apply publish_Returns in Hpub as [-> _].
      rewrite (rename_lookup _ _ nm _ _ Hstaged Hne). now rewrite String.eqb_refl. }
    destruct (write_metadata_written m o nm method (truthy d) false
                FailedToWriteMetadata root2 staged Hfinal Hm)
      as (mt & Hw & _ & _ & _ & Hsum & _).
    exists mt, staged.
    split; [assumption|]. split; [assumption|]. split; [assumption|].
    split; [assumption|]. split; [|split; [assumption|]].
    + intros d' Hd. apply (files_visited_In _ Hwfs). split; [discriminate|].
      simpl. now rewrite (Hdesc _ Hd).
    + cbn zeta. unfold create_backup. fold nm.
      apply Nat.eqb_neq in Hcount. rewrite Hcount, Hmk, Hst, Hpub, Hw.
      now destruct (_cleanup_old_backups m o _) as [root4 ev4].
  - intros root name content Hnd Hl Hst Hcount Hfree Hothers Hmove Hm.
    destruct (recovery_publishes m o root name content Hnd Hl Hst Hcount Hfree
                Hothers Hmove) as (r & method & Hr & E).
    rewrite E.
    destruct (write_metadata_written m o (final_base_of name) method None true
                (FailedToWriteRecoveredMetadata (final_base_of name)) r content Hr Hm)
      as (mt & Hw & _ & _ & Hrec & Hsum & _).
    exists mt. rewrite Hw. cbn [fst]. split; [apply lookup_put_eq|]. now split.
Qed.

(** A save directory that holds a [.backup_meta.json] of its own, as it
    does after the restore of a snapshot that had its metadata: the file is
    copied into the snapshot with the rest, and the checksum that the
    metadata step stores covers it. *)
Lemma checksum_covers_copied_sidecar_counterexample :
  let snap := [("a.txt", File (encode "abc")); (".backup_meta.json", File (encode "{}"))] in
  let mt := {| completed_at := "2025-01-01T12:00:00.000001";
               checksum := compute_directory_sha256 (rt := stand_in_runtime) "/"
                             (fun _ => ReadOk) (Dir snap);
               files := 2; size_bytes := 5; meta_move_method := atomic;
               meta_description := None; recovered := false |} in
  snd (fst (create_backup (rt := stand_in_runtime) (example_manager 10)
              (calm_oracle (at_noon 0)) None restored_save_dir []))
  = [("backup_20250101_120000",
      Dir (put_entry meta_file (File (@json_dumps stand_in_runtime mt)) snap))]
  /\ In ([meta_file], encode "{}") (files_visited [] (Dir snap)).
Proof. split; [vm_compute; reflexivity|vm_compute; tauto]. Qed.

(** ** The delete phase of restore *)

Lemma delete_phase_spares_backups (o : restore_oracle) (items : list string) :
  forall save, lookup "backups" (fst (delete_phase o items save)) = lookup "backups" save.
Proof.
  induction items as [|nm items IH]; intros save; simpl; [reflexivity|].
  unfold to_remove.
  destruct (String.eqb_spec nm "backups") as [->|Hne]; simpl; [apply IH|].
  assert (Hrm : lookup "backups" (remove_entry nm save) = lookup "backups" save).
  { apply lookup_remove_neq. congruence. }
  destruct (match script_name o with Some s => negb (nm =? s)%string | None => true end);
    [|apply IH].
  destruct (unlink_outcome o nm); [now rewrite IH| |reflexivity].
  destruct (shell_outcome o nm) as [[|]|]; rewrite ?IH; auto.
Qed.

(** C4, on the code. The delete phase spares the entry called [backups]
    (and the script), whatever the configured backup directory is: a backup
    directory nested in the save directory under another name is deleted
    with everything else, the snapshot to restore is gone, and the restore
    fails on an emptied save directory. Nested under the name [backups],
    the backup directory survives and the restore succeeds. *)
Theorem restore_deletes_nested_backup_root :
  restore_backup (example_manager 10) calm_restore 1 nested_world
  = (false, {| save_entries := []; backups := Nested "bk" |})
  /\ backup_root_of (snd (restore_backup (example_manager 10) calm_restore 1 nested_world))
     = None
  /\ restore_backup (example_manager 10) calm_restore 1 default_world
     = (true,
        {| save_entries :=
             [("backups",
               Dir [("backup_20250101_120000", Dir [("slot1.sav", File (encode "old"))])]);
              ("slot1.sav", File (encode "old"))];
           backups := Nested "backups" |})
  /\ (forall o items save,
        lookup "backups" (fst (delete_phase o items save)) = lookup "backups" save).
Proof.
  split; [reflexivity|]. split; [reflexivity|]. split; [reflexivity|].
  intros o items save. apply delete_phase_spares_backups.
Qed.

(** ** The theorems at work on concrete inputs *)

Lemma failed_move_leaves_partial_snapshot_witness :
  ~ In ".backup_20250101_120000.k3x9q2ab"
       (_get_backup_list (example_manager 1) root_with_leftover).
Proof.
  apply (proj1 (proj2 (proj2 (proj2 (proj2 (proj2
           (@failed_move_leaves_partial_snapshot stand_in_runtime))))))
           (example_manager 1) root_with_leftover (at_noon 0) "k3x9q2ab").
  reflexivity.
Defined.


Lemma example_save_dir_wf : wf_node example_save_dir /\ wf_node example_save_dir_reordered.
Proof.
  split; simpl; repeat split; repeat constructor; simpl; intuition discriminate.
Defined.


Lemma publish_step_witness :
  fst (fst (create_backup (rt := stand_in_runtime) (example_manager 1)
              (calm_oracle (at_noon 0)) None example_save_dir []))
  = Some "backup_20250101_120000".
Proof.
  pose proof (publish_step (rt := stand_in_runtime) (example_manager 1)
                (calm_oracle (at_noon 0)) None example_save_dir []
                (fst (fst (stage (example_manager 1) (calm_oracle (at_noon 0)) None
                             example_save_dir ".backup_20250101_120000.k3x9q2ab"
                             [(".backup_20250101_120000.k3x9q2ab", Dir [])])))
                ".backup_20250101_120000.k3x9q2ab"
                [Copy2Called 1; Copy2Called 1]) as H.
  cbn zeta in H.
  rewrite (proj1 (proj2 (H ltac:(discriminate) eq_refl eq_refl)) atomic eq_refl).
  reflexivity.
Defined.

Lemma safe_copy_exhausts_retries_witness :
  _safe_copy (example_manager 1) always_locked
  = ([Copy2Called 1; Slept (Finite (1 # 2)) 1;
      Copy2Called 2; Slept (Finite (1 # 2)) 2;
      Copy2Called 3],
     Raises PermissionError).
Proof.
  refine (eq_trans (proj1 (safe_copy_exhausts_retries (example_manager 1) always_locked
                              (fun _ => PermissionError) _ _ _)) _).
  - intros a. split; reflexivity.
  - intros H. discriminate H.
  - intros a. reflexivity.
  - reflexivity.
Defined.

Lemma create_backup_no_data_witness :
  create_backup (rt := stand_in_runtime) (example_manager 1) (calm_oracle (at_noon 0))
    None empty_save_dir root_with_leftover
  = (None, root_with_leftover, [NoFilesFound]).
Proof.
  refine (proj1 (create_backup_no_data (rt := stand_in_runtime) (example_manager 1)
                   (calm_oracle (at_noon 0)) None empty_save_dir root_with_leftover _ _)).
  - simpl. repeat split; repeat constructor; simpl; intuition discriminate.
  - intros p. unfold empty_save_dir.
    destruct p as [|a [|b p]]; cbn [read_file lookup]; try reflexivity;
      destruct (String.eqb "slots" a); reflexivity.
Defined.


Lemma recovery_idempotent_witness :
  _recover_or_cleanup_tmp_dirs (rt := stand_in_runtime) (example_manager 1)
    (calm_oracle (at_noon 0))
    (fst (_recover_or_cleanup_tmp_dirs (rt := stand_in_runtime) (example_manager 1)
            (calm_oracle (at_noon 0)) root_with_leftover))
  = (fst (_recover_or_cleanup_tmp_dirs (rt := stand_in_runtime) (example_manager 1)
            (calm_oracle (at_noon 0)) root_with_leftover), []).
Proof.
  refine (proj2 (proj2 (proj2 (recovery_idempotent (rt := stand_in_runtime)
                                 (example_manager 1)
                                 (calm_oracle (at_noon 0)) (calm_oracle (at_noon 0))
                                 root_with_leftover _ _)))).
  - reflexivity.
  - intros nm e H. discriminate H.
Defined.

Lemma checksum_scope_witness :
  exists mt,
    checksum mt
    = compute_directory_sha256 (rt := stand_in_runtime) "/" (fun _ => ReadOk)
        (Dir [("a.txt", File (encode "abc"))])
    /\ compute_directory_sha256 (rt := stand_in_runtime) "/" (fun _ => ReadOk)
         (Dir (put_entry meta_file (File (json_dumps (Runtime := stand_in_runtime) mt))
                 [("a.txt", File (encode "abc"))]))
       <> checksum mt.
Proof.
  destruct (proj1 (checksum_scope (rt := stand_in_runtime) (example_manager 1)
                     (calm_oracle (at_noon 0)))
              "backup_20250101_120000" atomic None false FailedToWriteMetadata
              [("backup_20250101_120000", Dir [("a.txt", File (encode "abc"))])]
              [("a.txt", File (encode "abc"))] eq_refl eq_refl)
    as (mt & _ & Hsum & H).
  exists mt. split; [exact Hsum|].
  destruct H as (_ & _ & Hlen & Hdigest).
  - simpl. repeat split; repeat constructor; simpl; intuition discriminate.
  - reflexivity.
  - apply Hdigest. intros E. apply (f_equal (@length byte)) in E.
    cbn [sha256 stand_in_runtime] in E. lia.
Defined.

(* ================================================================== *)
(** * Part III: further properties of the code *)

(** ** Retention with any [max_backups] *)

Lemma py_slice_from_kept {A : Type} (k : Z) (l : list A) :
  py_slice_from k l = skipn (kept_count k (length l)) l.
Proof. unfold py_slice_from, kept_count. now destruct (k <? 0)%Z. Qed.

Lemma listing_after_removals (m : manager) {Hp : plain_path m} (root : list dirent)
  (k : nat) :
  NoDup (map fst root) ->
  let L := _get_backup_list m root in
  let root' := fold_left (fun r nm => remove_entry nm r) (skipn k L) root in
  NoDup (map fst root') /\ _get_backup_list m root' = firstn k L.
Proof.
  intros Hnd L root'.
  pose proof (get_backup_list_sorted m root Hnd) as Hs. fold L in Hs.
  split; [now apply NoDup_fold_remove|].
  apply (get_backup_list_unique m).
  - now apply NoDup_fold_remove.
  - now apply StronglySorted_firstn.
  - intros nm. unfold root'. rewrite names_fold_remove.
    assert (HL : In nm L <-> In nm (firstn k L) \/ In nm (skipn k L)).
    { rewrite <- in_app_iff. now rewrite firstn_skipn. }
    pose proof (get_backup_list_visible m root nm) as Hv. fold L in Hv.
    pose proof (NoDup_firstn_skipn_disjoint k L nm (newest_first_NoDup _ Hs)) as Hd.
    tauto.
Qed.

Lemma cleanup_all_removed_any (m : manager) {Hp : plain_path m} (o : oracle)
  (root : list dirent) :
  NoDup (map fst root) ->
  (forall nm, rmtree_outcome o nm = Removed) ->
  NoDup (map fst (fst (_cleanup_old_backups m o root))) /\
  _get_backup_list m (fst (_cleanup_old_backups m o root))
  = firstn (kept_count (max_backups m) (length (_get_backup_list m root)))
      (_get_backup_list m root).
Proof.
  intros Hnd Hrm. unfold _cleanup_old_backups.
  destruct (Z.gtb_spec (Z.of_nat (length (_get_backup_list m root))) (max_backups m)).
  - rewrite (fold_delete_old_all_removed m), py_slice_from_kept by assumption.
    cbn [fst]. now apply (listing_after_removals m).
  - cbn [fst]. split; [assumption|]. symmetry. apply firstn_all2.
    unfold kept_count.
    pose proof (Nat2Z.is_nonneg (length (_get_backup_list m root))) as Hpos.
    destruct (Z.ltb_spec (max_backups m) 0); lia.
Qed.

Lemma cleanup_deleted_gone (m : manager) {Hp : plain_path m} (o : oracle)
  (root : list dirent) (nm : string) :
  NoDup (map fst root) ->
  (forall nm, rmtree_outcome o nm = Removed) ->
  In nm (skipn (kept_count (max_backups m) (length (_get_backup_list m root)))
           (_get_backup_list m root)) ->
  lookup nm (fst (_cleanup_old_backups m o root)) = None.
Proof.
  intros Hnd Hrm Hin.
  destruct (cleanup_all_removed_any m o root Hnd Hrm) as [_ Hl].
  set (L := _get_backup_list m root) in *.
  set (k := kept_count (max_backups m) (length L)) in *.
  apply lookup_None_names. intros Hn.
  pose proof (get_backup_list_sorted m root Hnd) as Hs. fold L in Hs.
  assert (HinL : In nm L).
  { rewrite <- (firstn_skipn k L). apply in_or_app. now right. }
  apply (get_backup_list_visible m root nm) in HinL. destruct HinL as [_ Hv].
  assert (Hin' : In nm (_get_backup_list m (fst (_cleanup_old_backups m o root))))
    by (apply (get_backup_list_visible m); split; assumption).
  rewrite Hl in Hin'.
  exact (NoDup_firstn_skipn_disjoint _ L nm (newest_first_NoDup _ Hs) Hin' Hin).
Qed.

(** X1. A limit of zero or below is not refused: with [max_backups = 0]
    the pruning step deletes every listed snapshot, and with a negative
    [max_backups = -j] it deletes the [j] oldest ones (all of them when
    there are no more than [j]) and keeps the others, the removals
    succeeding and the backup path holding no wildcard of [glob]. *)
Theorem cleanup_with_limit_below_one (m : manager) (o : oracle) (root : list dirent) :
  plain_path m ->
  NoDup (map fst root) ->
  (forall nm, rmtree_outcome o nm = Removed) ->
  let L := _get_backup_list m root in
  let root' := fst (_cleanup_old_backups m o root) in
  (max_backups m = 0%Z ->
     _get_backup_list m root' = [] /\ forall nm, In nm L -> lookup nm root' = None)
  /\ ((max_backups m < 0)%Z ->
     let kept := length L - Z.to_nat (- max_backups m) in
     _get_backup_list m root' = firstn kept L
     /\ forall nm, In nm (skipn kept L) -> lookup nm root' = None).
Proof.
  intros Hp Hnd Hrm L root'.
  destruct (cleanup_all_removed_any m o root Hnd Hrm) as [_ Hl].
  pose proof (cleanup_deleted_gone m o root) as Hg.
  fold L in Hl, Hg. fold root' in Hl, Hg. split.
  - intros H0. rewrite H0 in Hl, Hg. split; [exact Hl|].
    intros nm Hin. now apply Hg.
  - intros Hneg kept.
    assert (Hc : kept_count (max_backups m) (length L) = kept).
    { unfold kept_count, kept. destruct (Z.ltb_spec (max_backups m) 0); lia. }
    rewrite Hc in Hl, Hg. split; [exact Hl|].
    intros nm Hin. now apply Hg.
Qed.

(** X2. With [max_backups = 0] a successful [create_backup] returns the
    path of a snapshot that its own pruning step has already deleted: the
    call reports the backup as created, and afterwards the snapshot is
    gone and no snapshot is listed (the removals succeeding and the backup
    path holding no wildcard of [glob]). *)
Theorem create_backup_limit_zero {rt : Runtime} (m : manager) (o : oracle)
  (d : option string) (save_dir : node) (root root' : list dirent)
  (nm : string) (ev : list event) :
  plain_path m ->
  max_backups m = 0%Z ->
  NoDup (map fst root) ->
  (forall k, rmtree_outcome o k = Removed) ->
  create_backup m o d save_dir root = (Some nm, root', ev) ->
  In (BackupCreated nm) ev /\ lookup nm root' = None /\ _get_backup_list m root' = [].
Proof.
  intros Hp Hk Hnd Hrm Hc.
  apply create_backup_Some in Hc
    as (Hnm & _ & suffix & root1 & ev1 & root2 & ev2 & method & Hc).
  cbn zeta in Hc. destruct Hc as (Hmk & Hfresh & Hst & Hpub & Hroot & Hev).
  assert (Hne : staging_name nm suffix <> nm).
  { rewrite Hnm at 2. apply staging_name_not_final. }
  destruct (published_root m o d save_dir root root1 root2 _ nm ev1 ev2
              method Hnd Hfresh Hne Hst Hpub) as (Hnd2 & (staged & _ & Hfin) & _ & _ & _).
  set (after_meta := fst (write_metadata m o nm method (truthy d) false
                            FailedToWriteMetadata root2)) in *.
  assert (Hn3 : map fst after_meta = map fst root2) by apply write_metadata_names.
  assert (Hnd3 : NoDup (map fst after_meta)) by now rewrite Hn3.
  split; [|split].
  - rewrite Hev. right. apply in_or_app. right. apply in_or_app. right.
    apply in_or_app. right. apply in_or_app. left. now left.
  - subst root'. apply (cleanup_deleted_gone m); [assumption|assumption|].
    rewrite Hk. cbn [kept_count Z.ltb Z.compare Z.to_nat skipn].
    apply (get_backup_list_visible m). split.
    + rewrite Hn3. eapply lookup_Some_names. exact Hfin.
    + rewrite Hnm. apply backup_name_visible.
  - subst root'.
    destruct (cleanup_all_removed_any m o after_meta Hnd3 Hrm) as [_ Hl].
    rewrite Hl, Hk. reflexivity.
Qed.

Lemma create_backup_limit_zero_witness :
  let r := create_backup (rt := stand_in_runtime) (example_manager 0)
             (calm_oracle (at_noon 0)) None example_save_dir [] in
  fst (fst r) = Some "backup_20250101_120000"
  /\ lookup "backup_20250101_120000" (snd (fst r)) = None
  /\ _get_backup_list (example_manager 0) (snd (fst r)) = [].
Proof.
  cbv zeta. split; [vm_compute; reflexivity|].
  refine (proj2 (create_backup_limit_zero (rt := stand_in_runtime) (example_manager 0)
            (calm_oracle (at_noon 0)) None example_save_dir []
            (snd (fst (create_backup (rt := stand_in_runtime) (example_manager 0)
                         (calm_oracle (at_noon 0)) None example_save_dir [])))
            "backup_20250101_120000"
            (snd (create_backup (rt := stand_in_runtime) (example_manager 0)
                    (calm_oracle (at_noon 0)) None example_save_dir []))
            _ _ _ _ _)).
  - reflexivity.
  - constructor.
  - reflexivity.
  - vm_compute. reflexivity.
Defined.

Lemma cleanup_with_limit_below_one_witness :
  let root := [("backup_20250101_120000", Dir []); ("backup_20250101_120001", Dir []);
               ("backup_20250101_120002", Dir [])] in
  let m := example_manager (-1) in
  _get_backup_list m (fst (_cleanup_old_backups m (calm_oracle (at_noon 0)) root))
  = ["backup_20250101_120002"; "backup_20250101_120001"].
Proof.
  cbv zeta.
  refine (proj1 (proj2 (cleanup_with_limit_below_one (example_manager (-1))
                          (calm_oracle (at_noon 0))
                          [("backup_20250101_120000", Dir []);
                           ("backup_20250101_120001", Dir []);
                           ("backup_20250101_120002", Dir [])] _ _ _) _)).
  - repeat constructor; simpl; intuition discriminate.
  - reflexivity.
  - reflexivity.
Defined.

(** ** [delete_backup] *)

(** A listed path that [glob] did not find elsewhere is the name of an
    entry of the backup root. *)
Lemma listed_in_root (m : manager) (root : list dirent) (nm : string) :
  In nm (_get_backup_list m root) -> is_elsewhere m nm = false ->
  In nm (map fst root).
Proof.
  unfold _get_backup_list, is_elsewhere.
  destruct (has_magic (backup_dir m)); cbn [andb].
  - unfold glob_magic. intros Hin Hnot.
    apply in_map_iff in Hin as ([key x] & Hx & Hin). cbn [snd] in Hx. subst x.
    apply in_rev, sort_by_In, in_app_iff in Hin as [Hin|Hin].
    + apply in_map_iff in Hin as (n & [= _ <-] & Hin).
      destruct (dir_matches_itself m); [|destruct Hin].
      now apply glob_backup_In in Hin.
    + apply in_map_iff in Hin as (e & [= _ <-] & Hin). exfalso.
      assert (H : existsb (fun e' : dirent => String.eqb (fst e') (fst e))
                    (found_elsewhere m) = true).
      { apply existsb_exists. exists e. split; [assumption|apply String.eqb_refl]. }
      congruence.
  - intros Hin _. unfold sort_names in Hin.
    apply in_rev, sort_by_In in Hin. now apply glob_backup_In in Hin.
Qed.

Lemma nth_split_at {A : Type} (d : A) (l : list A) :
  forall n, n < length l -> l = firstn n l ++ nth n l d :: skipn (S n) l.
Proof.
  induction l as [|a l IH]; intros n Hn; [simpl in Hn; lia|].
  destruct n as [|n]; [reflexivity|].
  simpl. f_equal. apply IH. simpl in Hn. lia.
Qed.

Lemma StronglySorted_remove_middle {A : Type} (R : A -> A -> Prop) (l1 l2 : list A) (x : A) :
  StronglySorted R (l1 ++ x :: l2) -> StronglySorted R (l1 ++ l2).
Proof.
  induction l1 as [|a l1 IH]; simpl; intros H.
  - now inversion H.
  - inversion H as [|? ? Hs Hf]; subst. constructor; [now apply IH|].
    rewrite Forall_app in *. destruct Hf as [H1 H2]. split; [assumption|].
    now inversion H2.
Qed.

Lemma listing_after_remove (m : manager) {Hp : plain_path m} (root : list dirent)
  (n : nat) :
  NoDup (map fst root) ->
  let L := _get_backup_list m root in
  n < length L ->
  _get_backup_list m (remove_entry (nth n L "") root) = firstn n L ++ skipn (S n) L.
Proof.
  intros Hnd L Hn.
  pose proof (get_backup_list_sorted m root Hnd) as Hs. fold L in Hs.
  pose proof (nth_split_at "" L n Hn) as Hsplit.
  set (nm := nth n L "") in *.
  apply (get_backup_list_unique m).
  - now apply NoDup_names_remove.
  - apply StronglySorted_remove_middle with (x := nm). now rewrite <- Hsplit.
  - intros k. rewrite in_names_remove.
    pose proof (get_backup_list_visible m root k) as Hv. fold L in Hv.
    pose proof (newest_first_NoDup _ Hs) as HndL. rewrite Hsplit in HndL.
    apply NoDup_remove in HndL. destruct HndL as [_ Hnot].
    assert (HL : In k L <-> k = nm \/ In k (firstn n L ++ skipn (S n) L)).
    { rewrite Hsplit at 1. rewrite !in_app_iff. simpl.
      intuition congruence. }
    split.
    + intros Hin. assert (Hk : k <> nm) by (intros ->; contradiction).
      assert (In k L) by (apply HL; now right). tauto.
    + intros [[Hk Hin] Hvis]. assert (HkL : In k L) by tauto.
      apply HL in HkL. destruct HkL; [contradiction|assumption].
Qed.

(** X3. [delete_backup] with a number outside [1 .. number of listed
    snapshots] returns [False] and touches nothing: no removal is
    attempted and the backup root is as before. *)
Theorem delete_backup_out_of_range (m : manager) (o : oracle) (backup_choice : Z)
  (root : list dirent) :
  (backup_choice < 1 \/ backup_choice > Z.of_nat (length (_get_backup_list m root)))%Z ->
  delete_backup m o backup_choice root = (false, root, []).
Proof.
  intros H. unfold delete_backup.
  destruct (_get_backup_list m root) as [|b l] eqn:E; [reflexivity|].
  destruct (Z.ltb_spec backup_choice 1); [reflexivity|].
  destruct (Z.gtb_spec backup_choice (Z.of_nat (length (b :: l)))); [reflexivity|].
  lia.
Qed.

Lemma delete_backup_out_of_range_witness :
  delete_backup (example_manager 1) (calm_oracle (at_noon 0)) 2 root_with_leftover
  = (false, root_with_leftover, []).
Proof.
  apply delete_backup_out_of_range. right. vm_compute. reflexivity.
Defined.

(** X4. [delete_backup] with the number [n] of a listed snapshot, the
    removal succeeding and the backup path holding no wildcard of [glob],
    returns [True] after one removal, that of the [n]-th entry of the
    listing: this entry is gone, every other entry of the backup root is
    as before, and the listing is the former one without its [n]-th
    element. *)
Theorem delete_backup_removes_chosen (m : manager) (o : oracle) (backup_choice : Z)
  (root : list dirent) :
  let L := _get_backup_list m root in
  let nm := nth (Z.to_nat (backup_choice - 1)) L "" in
  plain_path m ->
  NoDup (map fst root) ->
  (1 <= backup_choice <= Z.of_nat (length L))%Z ->
  rmtree_outcome o nm = Removed ->
  exists root',
    delete_backup m o backup_choice root = (true, root', [RmtreeCalled nm])
    /\ In nm L
    /\ lookup nm root' = None
    /\ (forall k, k <> nm -> lookup k root' = lookup k root)
    /\ _get_backup_list m root'
       = firstn (Z.to_nat (backup_choice - 1)) L ++ skipn (Z.to_nat backup_choice) L.
Proof.
  intros L nm Hp Hnd Hr Hrm.
  assert (Hn : Z.to_nat (backup_choice - 1) < length L) by lia.
  assert (Hin : In nm L) by now apply nth_In.
  assert (Hex : exists_in nm root = true).
  { apply exists_in_names. now apply (get_backup_list_visible m root nm). }
  exists (remove_entry nm root). split; [|split; [|split; [|split]]].
  - unfold delete_backup. fold L.
    destruct L as [|b l] eqn:E; [simpl in Hn; lia|].
    destruct (Z.ltb_spec backup_choice 1); [lia|].
    destruct (Z.gtb_spec backup_choice (Z.of_nat (length (b :: l)))); [lia|].
    cbn [orb]. fold nm. rewrite (remove_listed_plain m).
    unfold _safe_rmtree. now rewrite Hex, Hrm.
  - assumption.
  - apply lookup_remove_eq.
  - intros k Hk. now apply lookup_remove_neq.
  - replace (Z.to_nat backup_choice) with (S (Z.to_nat (backup_choice - 1))) by lia.
    now apply (listing_after_remove m).
Qed.

Lemma delete_backup_removes_chosen_witness :
  exists root',
    delete_backup (example_manager 1) (calm_oracle (at_noon 0)) 1 root_with_leftover
    = (true, root', [RmtreeCalled "backup_20241231_090000"])
    /\ lookup "backup_20241231_090000" root' = None.
Proof.
  destruct (delete_backup_removes_chosen (example_manager 1) (calm_oracle (at_noon 0)) 1
              root_with_leftover) as (root' & H1 & _ & H2 & _).
  - vm_compute. reflexivity.
  - repeat constructor; simpl; intuition discriminate.
  - vm_compute. split; discriminate.
  - reflexivity.
  - exists root'. split; [exact H1|exact H2].
Defined.

(** X5. When the removal raises, [delete_backup] returns [False], and the
    snapshot is still listed: the listing is the one from before. *)
Theorem delete_backup_failure_keeps_listing (m : manager) (o : oracle)
  (backup_choice : Z) (root : list dirent) (e : exn) (leftover : node) :
  let L := _get_backup_list m root in
  let nm := nth (Z.to_nat (backup_choice - 1)) L "" in
  (1 <= backup_choice <= Z.of_nat (length L))%Z ->
  rmtree_outcome o nm = RemoveFails e leftover ->
  fst (fst (delete_backup m o backup_choice root)) = false
  /\ _get_backup_list m (snd (fst (delete_backup m o backup_choice root))) = L
  /\ forall k, k <> nm ->
       lookup k (snd (fst (delete_backup m o backup_choice root))) = lookup k root.
Proof.
  intros L nm Hr Hrm.
  assert (Hn : Z.to_nat (backup_choice - 1) < length L) by lia.
  assert (Hin : In nm L) by now apply nth_In.
  assert (Hd : delete_backup m o backup_choice root
               = (false, fst (remove_listed m o nm root), [RmtreeCalled nm])).
  { unfold delete_backup. fold L.
    destruct L as [|b l] eqn:E; [simpl in Hn; lia|].
    destruct (Z.ltb_spec backup_choice 1); [lia|].
    destruct (Z.gtb_spec backup_choice (Z.of_nat (length (b :: l)))); [lia|].
    cbn [orb]. fold nm. unfold remove_listed, _safe_rmtree. rewrite Hrm.
    destruct (is_elsewhere m nm); [reflexivity|].
    now destruct (exists_in nm root). }
  rewrite Hd. cbn [fst snd]. split; [reflexivity|split].
  - unfold remove_listed. destruct (is_elsewhere m nm) eqn:Eel; [reflexivity|].
    assert (Hex : exists_in nm root = true).
    { apply exists_in_names. now apply (listed_in_root m root nm). }
    unfold _safe_rmtree. rewrite Hex, Hrm. cbn [fst].
    apply get_backup_list_same_names. rewrite names_put_entry. now rewrite Hex.
  - intros k Hk. now apply remove_listed_lookup_other.
Qed.

Lemma delete_backup_failure_keeps_listing_witness :
  fst (fst (delete_backup (example_manager 1) (rmtree_fails_oracle (at_noon 0)) 1
              root_with_leftover)) = false
  /\ _get_backup_list (example_manager 1)
       (snd (fst (delete_backup (example_manager 1) (rmtree_fails_oracle (at_noon 0)) 1
                    root_with_leftover)))
     = ["backup_20241231_090000"].
Proof.
  destruct (delete_backup_failure_keeps_listing (example_manager 1)
              (rmtree_fails_oracle (at_noon 0)) 1 root_with_leftover
              PermissionError (Dir [])) as (H1 & H2 & _).
  - vm_compute. split; discriminate.
  - reflexivity.
  - split; [exact H1|]. rewrite H2. vm_compute. reflexivity.
Defined.

(** ** [cleanup_backups] *)

Lemma fold_delete_listed_root (m : manager) (o : oracle) (l : list string) :
  forall st st', fst st = fst st' ->
    fst (fold_left (delete_listed m o) l st) = fst (fold_left (delete_old m o) l st').
Proof.
  induction l as [|nm l IH]; intros st st' H; [assumption|].
  simpl. apply IH. rewrite delete_old_root. unfold delete_listed. cbn [fst].
  now rewrite H.
Qed.

Lemma fold_delete_listed_events (m : manager) (o : oracle) (l : list string) :
  forall st, snd (fold_left (delete_listed m o) l st) = snd st ++ map RmtreeCalled l.
Proof.
  induction l as [|nm l IH]; intros st; simpl; [now rewrite app_nil_r|].
  rewrite IH. unfold delete_listed. cbn [snd]. now rewrite <- app_assoc.
Qed.

Lemma rmtree_calls_map (l : list string) : rmtree_calls (map RmtreeCalled l) = l.
Proof. induction l as [|a l IH]; simpl; [reflexivity|now f_equal]. Qed.

(** X6. The manual clean-up does nothing unless the answer to its
    question is [y] or [Y]; when it is, it attempts the same removals, in
    the same order, and leaves the same backup root as the pruning step of
    [create_backup] would with the given number as limit ([max_backups]
    when no number is given). *)
Theorem cleanup_backups_as_pruning (m : manager) (o : oracle) (keep_count : option Z)
  (confirm : string) (root : list dirent) :
  let k := match keep_count with Some k => k | None => max_backups m end in
  (answered_yes confirm = false ->
     cleanup_backups m o keep_count confirm root = (root, []))
  /\ (answered_yes confirm = true ->
        fst (cleanup_backups m o keep_count confirm root)
        = fst (_cleanup_old_backups (with_max_backups k m) o root)
        /\ rmtree_calls (snd (cleanup_backups m o keep_count confirm root))
           = rmtree_calls (snd (_cleanup_old_backups (with_max_backups k m) o root))).
Proof.
  intros k. unfold cleanup_backups, _cleanup_old_backups. fold k.
  change (_get_backup_list (with_max_backups k m) root) with (_get_backup_list m root).
  change (max_backups (with_max_backups k m)) with k.
  change (delete_old (with_max_backups k m) o) with (delete_old m o).
  set (L := _get_backup_list m root).
  rewrite Z.gtb_ltb, Z.ltb_antisym.
  destruct (Z.of_nat (length L) <=? k)%Z; cbn [negb].
  - split; intros _; [reflexivity|split; reflexivity].
  - split; intros ->; [reflexivity|]. split.
    + now apply fold_delete_listed_root.
    + rewrite fold_delete_listed_events, fold_delete_old_events. cbn [snd app].
      now rewrite rmtree_calls_map.
Qed.

(** ** [restore_backup] *)

(** X7. [restore_backup] with a number outside [1 .. number of listed
    snapshots], or with no snapshot listed at all, returns [False] before
    anything is deleted: the save directory and the backup directory are
    as before. *)
Theorem restore_backup_out_of_range (m : manager) (o : restore_oracle)
  (backup_choice : Z) (w : restore_world) :
  let listed := match backup_root_of w with
                | Some root => _get_backup_list m root
                | None => []
                end in
  (backup_choice < 1 \/ backup_choice > Z.of_nat (length listed))%Z ->
  restore_backup m o backup_choice w = (false, w).
Proof.
  intros listed H. unfold restore_backup. fold listed.
  destruct listed as [|b l]; [reflexivity|].
  destruct (Z.ltb_spec backup_choice 1); [reflexivity|].
  destruct (Z.gtb_spec backup_choice (Z.of_nat (length (b :: l)))); [reflexivity|].
  lia.
Qed.

Lemma restore_backup_out_of_range_witness :
  restore_backup (example_manager 10) calm_restore 0 outside_world = (false, outside_world).
Proof.
  apply restore_backup_out_of_range. left. reflexivity.
Defined.

Lemma existsb_eqb_In (k : string) (l : list string) :
  existsb (String.eqb k) l = true <-> In k l.
Proof.
  rewrite existsb_exists. split.
  - intros (x & Hin & He). apply String.eqb_eq in He. now subst.
  - intros Hin. exists k. split; [assumption|apply String.eqb_refl].
Qed.

Lemma delete_phase_all_unlinked (o : restore_oracle) (items : list string) :
  (forall k, unlink_outcome o k = Unlinked) ->
  forall save,
    snd (delete_phase o items save) = Returns true /\
    forall k, lookup k (fst (delete_phase o items save))
              = if to_remove o k && existsb (String.eqb k) items then None
                else lookup k save.
Proof.
  intros Hun. induction items as [|nm items IH]; intros save.
  - split; [reflexivity|]. intros k. cbn. now rewrite andb_false_r.
  - cbn [delete_phase existsb]. destruct (to_remove o nm) eqn:Hr.
    + rewrite Hun. destruct (IH (remove_entry nm save)) as [H1 H2].
      split; [assumption|]. intros k. rewrite H2.
      destruct (String.eqb_spec k nm) as [->|Hne].
      * rewrite Hr. cbn. destruct (existsb (String.eqb nm) items);
          [reflexivity|apply lookup_remove_eq].
      * cbn [orb]. destruct (to_remove o k && existsb (String.eqb k) items);
          [reflexivity|now apply lookup_remove_neq].
    + destruct (IH save) as [H1 H2]. split; [assumption|]. intros k. rewrite H2.
      destruct (String.eqb_spec k nm) as [->|Hne]; [|reflexivity].
      rewrite Hr. reflexivity.
Qed.

Lemma delete_phase_spared (o : restore_oracle) (save : list dirent) :
  (forall k, unlink_outcome o k = Unlinked) ->
  snd (delete_phase o (map fst save) save) = Returns true /\
  forall k, lookup k (fst (delete_phase o (map fst save) save)) = spared o save k.
Proof.
  intros Hun. destruct (delete_phase_all_unlinked o (map fst save) Hun save) as [H1 H2].
  split; [assumption|]. intros k. rewrite H2. unfold spared.
  destruct (to_remove o k); [|reflexivity]. cbn [andb].
  destruct (existsb (String.eqb k) (map fst save)) eqn:E; [reflexivity|].
  apply lookup_None_names. intros Hin.
  apply existsb_eqb_In in Hin. congruence.
Qed.

(** A copy that succeeds, onto a free name or of a file onto a file. *)
Lemma copy_item_plain (o : restore_oracle) (nm : string) (v : node) (save : list dirent) :
  copy_back o nm = None ->
  (forall w, lookup nm save = Some w -> is_dir v = false /\ is_dir w = false) ->
  copy_item o nm v save = (put_entry nm v save, None).
Proof.
  intros Hcp Hmeet. unfold copy_item, exists_in. rewrite Hcp.
  destruct (lookup nm save) as [w|] eqn:El.
  - destruct (Hmeet w eq_refl) as [Hv Hw]. rewrite Hv.
    destruct w as [c|inner]; [reflexivity|discriminate].
  - now destruct (is_dir v).
Qed.

Lemma copy_phase_all (o : restore_oracle) (total : nat) :
  total <> 0 ->
  (forall k, copy_back o k = None) ->
  forall items save,
    NoDup (map fst items) ->
    (forall k v w, In (k, v) items -> k <> description_file -> lookup k save = Some w ->
                   is_dir v = false /\ is_dir w = false) ->
    snd (copy_phase o total items save) = Returns true /\
    forall k, lookup k (fst (copy_phase o total items save))
              = match restored_from items k with
                | Some v => Some v
                | None => lookup k save
                end.
Proof.
  intros Ht Hcp. induction items as [|[nm v] items IH]; intros save Hnd Hcol.
  - split; [reflexivity|]. intros k. unfold restored_from. cbn.
    now destruct (String.eqb k description_file).
  - cbn [map fst] in Hnd. inversion Hnd as [|? ? Hnot Hnd']; subst.
    cbn [copy_phase]. destruct (String.eqb_spec nm description_file) as [->|Hnm].
    + destruct (IH save Hnd') as [H1 H2].
      { intros k w w' Hin. apply Hcol. now right. }
      split; [assumption|]. intros k. rewrite H2. unfold restored_from.
      destruct (String.eqb_spec k description_file) as [->|Hk]; [reflexivity|].
      cbn [lookup]. destruct (String.eqb_spec description_file k); [congruence|reflexivity].
    + rewrite copy_item_plain
        by (try apply Hcp; intros w Hw; apply (Hcol nm v w); auto; now left).
      destruct (Nat.eqb_spec total 0) as [|_]; [contradiction|].
      destruct (IH (put_entry nm v save) Hnd') as [H1 H2].
      { intros k w w' Hin Hk Hl.
        assert (Hkn : k <> nm).
        { intros ->. apply Hnot. apply in_map_iff. now exists (nm, w). }
        rewrite lookup_put_neq in Hl by assumption.
        apply (Hcol k w w'); auto. now right. }
      split; [assumption|]. intros k. rewrite H2. unfold restored_from.
      destruct (String.eqb_spec k description_file) as [->|Hk].
      * apply lookup_put_neq. congruence.
      * cbn [lookup]. destruct (String.eqb_spec nm k) as [->|Hne].
        -- assert (Hl : lookup k items = None) by now apply lookup_None_names.
           rewrite Hl. apply lookup_put_eq.
        -- destruct (lookup k items); [reflexivity|]. apply lookup_put_neq. congruence.
Qed.

Lemma restore_backup_spec (m : manager) {Hp : plain_path m} (o : restore_oracle)
  (backup_choice : Z) (save root snap : list dirent) :
  let L := _get_backup_list m root in
  let nm := nth (Z.to_nat (backup_choice - 1)) L "" in
  (1 <= backup_choice <= Z.of_nat (length L))%Z ->
  lookup nm root = Some (Dir snap) ->
  NoDup (map fst snap) ->
  count_files (Dir snap) <> 0 ->
  (forall k, unlink_outcome o k = Unlinked) ->
  (forall k, copy_back o k = None) ->
  (forall k v w, In (k, v) snap -> k <> description_file -> spared o save k = Some w ->
                 is_dir v = false /\ is_dir w = false) ->
  exists save',
    restore_backup m o backup_choice {| save_entries := save; backups := Elsewhere root |}
    = (true, {| save_entries := save'; backups := Elsewhere root |})
    /\ (forall k, lookup k save' = match restored_from snap k with
                                   | Some v => Some v
                                   | None => spared o save k
                                   end).
Proof.
  intros L nm Hr Hsnap Hnd Hcount Hun Hcp Hcol.
  destruct (delete_phase_spared o save Hun) as [Hd1 Hd2].
  set (save1 := fst (delete_phase o (map fst save) save)) in *.
  destruct (copy_phase_all o (count_files (Dir snap)) Hcount Hcp snap save1 Hnd)
    as [Hc1 Hc2].
  { intros k v w Hin Hk Hl. rewrite Hd2 in Hl. now apply (Hcol k v w). }
  set (save2 := fst (copy_phase o (count_files (Dir snap)) snap save1)) in *.
  assert (Hformula : forall k, lookup k save2 = match restored_from snap k with
                                                | Some v => Some v
                                                | None => spared o save k
                                                end).
  { intros k. rewrite Hc2. destruct (restored_from snap k); [reflexivity|apply Hd2]. }
  exists save2. split; [|exact Hformula].
  unfold restore_backup. cbn [backup_root_of backups save_entries]. fold L.
  destruct L as [|b l] eqn:E; [cbn in Hr; lia|].
  destruct (Z.ltb_spec backup_choice 1); [lia|].
  destruct (Z.gtb_spec backup_choice (Z.of_nat (length (b :: l)))); [lia|].
  cbn [orb]. fold nm.
  destruct (delete_phase o (map fst save) save) as [s1 r1] eqn:Ed.
  cbn [snd] in Hd1. subst r1. cbn [fst] in save1. fold save1.
  rewrite (listed_node_plain m), Hsnap.
  destruct (copy_phase o (count_files (Dir snap)) snap save1) as [s2 r2] eqn:Ec.
  cbn [snd] in Hc1. subst r2. reflexivity.
Qed.

(** X8. What a restore leaves in the save directory, the backup directory
    lying outside of it, its path holding no wildcard of [glob], and every
    removal and copy succeeding: each entry of the chosen snapshot except
    [.backup_description] (so also the metadata sidecar
    [.backup_meta.json]), and besides these only what the delete phase
    spares (an entry called [backups], the script). The snapshot must hold
    a file, and a snapshot entry may meet a spared entry of its name only
    as a file meeting a file. *)
Theorem restore_backup_result (m : manager) (o : restore_oracle) (backup_choice : Z)
  (save root snap : list dirent) :
  let L := _get_backup_list m root in
  let nm := nth (Z.to_nat (backup_choice - 1)) L "" in
  plain_path m ->
  (1 <= backup_choice <= Z.of_nat (length L))%Z ->
  lookup nm root = Some (Dir snap) ->
  NoDup (map fst snap) ->
  count_files (Dir snap) <> 0 ->
  (forall k, unlink_outcome o k = Unlinked) ->
  (forall k, copy_back o k = None) ->
  (forall k v w, In (k, v) snap -> k <> description_file -> spared o save k = Some w ->
                 is_dir v = false /\ is_dir w = false) ->
  exists save',
    restore_backup m o backup_choice {| save_entries := save; backups := Elsewhere root |}
    = (true, {| save_entries := save'; backups := Elsewhere root |})
    /\ (forall k, lookup k save' = match restored_from snap k with
                                   | Some v => Some v
                                   | None => spared o save k
                                   end)
    /\ (forall v, lookup meta_file snap = Some v -> lookup meta_file save' = Some v)
    /\ lookup description_file save' = spared o save description_file.
Proof.
  intros L nm Hp Hr Hsnap Hnd Hcount Hun Hcp Hcol.
  destruct (restore_backup_spec m o backup_choice save root snap
              Hr Hsnap Hnd Hcount Hun Hcp Hcol) as (save' & Heq & Hformula).
  exists save'. split; [exact Heq|]. split; [exact Hformula|]. split.
  - intros v Hv. rewrite Hformula. unfold restored_from.
    change (String.eqb meta_file description_file) with false. now rewrite Hv.
  - rewrite Hformula. unfold restored_from. now rewrite String.eqb_refl.
Qed.

Lemma restore_backup_result_witness :
  exists save',
    restore_backup (example_manager 10) calm_restore 1 outside_world
    = (true, {| save_entries := save'; backups := backups outside_world |})
    /\ lookup meta_file save' = Some (File (encode "{}"))
    /\ lookup "slot2.sav" save' = None.
Proof.
  destruct (restore_backup_result (example_manager 10) calm_restore 1
              (save_entries outside_world)
              [("backup_20250101_120000",
                Dir [("slot1.sav", File (encode "old"));
                     (".backup_description", File (encode "before boss"));
                     (".backup_meta.json", File (encode "{}"))])]
              [("slot1.sav", File (encode "old"));
               (".backup_description", File (encode "before boss"));
               (".backup_meta.json", File (encode "{}"))])
    as (save' & H1 & H2 & H3 & _).
  - vm_compute. reflexivity.
  - vm_compute. split; discriminate.
  - reflexivity.
  - repeat constructor; simpl; intuition discriminate.
  - vm_compute. discriminate.
  - reflexivity.
  - reflexivity.
  - intros k v w Hin Hk Hs. unfold spared in Hs.
    simpl in Hin. destruct Hin as [E|[E|[E|[]]]]; inversion E; subst; clear E;
      vm_compute in Hs; try discriminate; contradiction.
  - exists save'. split; [exact H1|]. split; [now apply H3|].
    rewrite H2. reflexivity.
Defined.

(** ** The copy made by [create_backup] *)

(** ** [copytree] and the backup directory *)

Lemma copy_entries_cons (m : manager) (o : path -> copy_oracle) (src : path)
  (copy_dir : path -> node -> list dirent * list event * copytree_status)
  (e : dirent) (r : list dirent) :
  copy_entries m o src copy_dir (e :: r) =
  if ignored m (fst e) then copy_entries m o src copy_dir r
  else
    let one :=
      match snd e with
      | File content => copy_one m (o (src ++ [fst e])) (fst e) content
      | Dir _ =>
          let sub := copy_dir (src ++ [fst e]) (snd e) in
          ([(fst e, Dir (fst (fst sub)))], snd (fst sub), snd sub)
      end in
    match snd one with
    | CopyAborts ex => one
    | st =>
        let rest := copy_entries m o src copy_dir r in
        (fst (fst one) ++ fst (fst rest), snd (fst one) ++ snd (fst rest),
         worse st (snd rest))
    end.
Proof. reflexivity. Qed.



Lemma copy_entries_ext (m : manager) (o : path -> copy_oracle)
  (f g : path -> node -> list dirent * list event * copytree_status)
  (l : list dirent) (src : path) :
  Forall (fun e : dirent => ignored m (fst e) = false ->
                            f (src ++ [fst e]) (snd e) = g (src ++ [fst e]) (snd e)) l ->
  copy_entries m o src f l = copy_entries m o src g l.
Proof.
  induction 1 as [|e r He Hr IH]; [reflexivity|].
  rewrite !copy_entries_cons. destruct (ignored m (fst e)); [exact IH|].
  rewrite (He eq_refl), IH. reflexivity.
Qed.

Lemma is_backup_dir_avoided (m : manager) (src : path) :
  copy_avoids_backup_dir m = true -> no_ignored m src = true ->
  is_backup_dir m src = false.
Proof.
  unfold copy_avoids_backup_dir, is_backup_dir, no_ignored, path_eqb.
  destruct (backup_dir_below_save m) as [p|]; [|reflexivity].
  intros Hex Hno. destruct (list_eq_dec string_dec p src) as [->|]; [|reflexivity].
  apply existsb_exists in Hex as (k & Hin & Hk).
  rewrite forallb_forall in Hno. specialize (Hno k Hin). now rewrite Hk in Hno.
Qed.

(** When the copy does not come to the backup directory, [copytree] is
    the copy of a source that holds no part of its destination. *)
Lemma copytree_avoiding (m : manager) (o : path -> copy_oracle) (n : node) :
  copy_avoids_backup_dir m = true ->
  forall src, no_ignored m src = true ->
              copytree m o src n = copytree_apart m o src n.
Proof.
  intros Hav. induction n as [c|es IH] using node_nested_ind; intros src Hsrc;
    [reflexivity|].
  cbn [copytree copytree_apart]. rewrite is_backup_dir_avoided by assumption.
  apply copy_entries_ext. rewrite Forall_forall in IH |- *.
  intros e Hin Hig. apply (IH e Hin). unfold no_ignored in *.
  rewrite forallb_app, Hsrc. cbn. now rewrite Hig.
Qed.

Lemma copytree_apart_cons (m : manager) (o : path -> copy_oracle) (src : path)
  (e : dirent) (r : list dirent) :
  copytree_apart m o src (Dir (e :: r)) =
  if ignored m (fst e) then copytree_apart m o src (Dir r)
  else
    let one :=
      match snd e with
      | File content => copy_one m (o (src ++ [fst e])) (fst e) content
      | Dir _ =>
          let sub := copytree_apart m o (src ++ [fst e]) (snd e) in
          ([(fst e, Dir (fst (fst sub)))], snd (fst sub), snd sub)
      end in
    match snd one with
    | CopyAborts ex => one
    | st =>
        let rest := copytree_apart m o src (Dir r) in
        (fst (fst one) ++ fst (fst rest), snd (fst one) ++ snd (fst rest),
         worse st (snd rest))
    end.
Proof. reflexivity. Qed.






Lemma copy_one_cases (m : manager) (o : copy_oracle) (nm : string) (content : list byte) :
  fst (fst (copy_one m o nm content)) = [] \/
  exists c, fst (fst (copy_one m o nm content)) = [(nm, File c)]
            /\ (snd (_safe_copy m o) = Returns ByCopy2 -> c = content).
Proof.
  unfold copy_one, left_entries.
  destruct (_safe_copy m o) as [ev [[|data|]|e]], (left_by_safe_copy m o);
    cbn [fst snd]; eauto; right; eexists; (split; [reflexivity|]); discriminate.
Qed.

Lemma lookup_app_single (k nm : string) (v : node) (rest : list dirent) :
  lookup k ([(nm, v)] ++ rest) = if String.eqb nm k then Some v else lookup k rest.
Proof. reflexivity. Qed.

Lemma copytree_apart_names_incl (m : manager) (o : path -> copy_oracle) (es : list dirent) :
  forall src k, In k (map fst (fst (fst (copytree_apart m o src (Dir es))))) -> In k (map fst es).
Proof.
  induction es as [|[nm w] r IH]; intros src k Hin; [destruct Hin|].
  rewrite copytree_apart_cons in Hin. cbn [fst snd] in Hin.
  destruct (ignored m nm); [right; now apply (IH src)|]. cbv zeta in Hin.
  assert (Hone : forall one : list dirent * list event * copytree_status,
            (forall x, In x (map fst (fst (fst one))) -> x = nm) ->
            In k (map fst (fst (fst
              match snd one with
              | CopyAborts _ => one
              | st => (fst (fst one) ++ fst (fst (copytree_apart m o src (Dir r))),
                       snd (fst one) ++ snd (fst (copytree_apart m o src (Dir r))),
                       worse st (snd (copytree_apart m o src (Dir r))))
              end))) ->
            In k (map fst ((nm, w) :: r))).
  { intros one H1 H. cbn [map fst].
    destruct (snd one); cbn [fst snd] in H;
      try (rewrite map_app, in_app_iff in H; destruct H as [H|H];
           [left; symmetry; now apply H1|right; now apply (IH src)]).
    left. symmetry. now apply H1. }
  destruct w as [content|sub]; (eapply Hone; [|exact Hin]).
  - intros x Hx.
    destruct (copy_one_made m (o (src ++ [nm])) nm content) as [E|[c E]];
      rewrite E in Hx; [destruct Hx|destruct Hx as [<-|[]]; reflexivity].
  - intros x [<-|[]]. reflexivity.
Qed.

(** Where an entry of the copy comes from. *)
Lemma copytree_apart_lookup (m : manager) (o : path -> copy_oracle) (src : path)
  (es : list dirent) (nm : string) (v : node) :
  NoDup (map fst es) ->
  lookup nm (fst (fst (copytree_apart m o src (Dir es)))) = Some v ->
  ignored m nm = false /\
  ((exists content c, lookup nm es = Some (File content) /\ v = File c
                      /\ (snd (_safe_copy m (o (src ++ [nm]))) = Returns ByCopy2 -> c = content))
   \/ (exists sub, lookup nm es = Some (Dir sub)
                   /\ v = Dir (fst (fst (copytree_apart m o (src ++ [nm]) (Dir sub)))))).
Proof.
  induction es as [|[k w] r IH]; intros Hnd Hl; [discriminate|].
  cbn [map fst] in Hnd. inversion Hnd as [|? ? Hfresh Hndr]; subst.
  rewrite copytree_apart_cons in Hl. cbn [fst snd] in Hl.
  assert (Hrest : lookup nm (fst (fst (copytree_apart m o src (Dir r)))) = Some v ->
                  ignored m nm = false /\
                  ((exists content c, lookup nm ((k, w) :: r) = Some (File content)
                                      /\ v = File c /\ (snd (_safe_copy m (o (src ++ [nm]))) = Returns ByCopy2 -> c = content))
                   \/ (exists sub, lookup nm ((k, w) :: r) = Some (Dir sub)
                         /\ v = Dir (fst (fst (copytree_apart m o (src ++ [nm]) (Dir sub))))))).
  { intros H. assert (Hne : k <> nm).
    { intros ->. apply Hfresh. apply lookup_Some_names in H.
      now apply (copytree_apart_names_incl m o r src nm). }
    cbn [lookup]. destruct (String.eqb_spec k nm); [contradiction|].
    now apply IH. }
  destruct (ignored m k) eqn:Hig; [now apply Hrest|].
  cbv zeta in Hl.
  destruct w as [content|sub].
  - destruct (copy_one_cases m (o (src ++ [k])) k content) as [E|(c & E & Hc)].
    + assert (Hl' : lookup nm (fst (fst (copytree_apart m o src (Dir r)))) = Some v).
      { destruct (snd (copy_one m (o (src ++ [k])) k content));
          cbn [fst snd] in Hl; rewrite E in Hl; [exact Hl|exact Hl|discriminate]. }
      now apply Hrest.
    + assert (Hl' : (if String.eqb k nm then Some (File c)
                     else lookup nm (fst (fst (copytree_apart m o src (Dir r))))) = Some v
                    \/ (String.eqb k nm = true /\ v = File c)).
      { destruct (snd (copy_one m (o (src ++ [k])) k content));
          cbn [fst snd] in Hl; rewrite E in Hl.
        - left. exact Hl.
        - left. exact Hl.
        - right. cbn [lookup] in Hl. destruct (String.eqb k nm); [|discriminate].
          split; [reflexivity|congruence]. }
      destruct (String.eqb_spec k nm) as [->|Hne].
      * assert (Hv : v = File c) by (destruct Hl' as [H|[_ H]]; congruence).
        split; [assumption|]. left. exists content, c. cbn [lookup].
        rewrite String.eqb_refl. auto.
      * destruct Hl' as [H|[H _]]; [now apply Hrest|discriminate].
  - set (made := fst (fst (copytree_apart m o (src ++ [k]) (Dir sub)))) in *.
    assert (Hl' : (if String.eqb k nm then Some (Dir made)
                   else lookup nm (fst (fst (copytree_apart m o src (Dir r))))) = Some v
                  \/ (String.eqb k nm = true /\ v = Dir made)).
    { destruct (snd (copytree_apart m o (src ++ [k]) (Dir sub)));
        cbn [fst snd] in Hl.
      - left. exact Hl.
      - left. exact Hl.
      - right. cbn [lookup] in Hl. destruct (String.eqb k nm); [|discriminate].
        split; [reflexivity|congruence]. }
    destruct (String.eqb_spec k nm) as [->|Hne].
    + assert (Hv : v = Dir made) by (destruct Hl' as [H|[_ H]]; congruence).
      split; [assumption|]. right. exists sub. cbn [lookup].
      rewrite String.eqb_refl. auto.
    + destruct Hl' as [H|[H _]]; [now apply Hrest|discriminate].
Qed.



(** X10. Whatever the copies of the single files do (fail, get skipped,
    abort the whole copy), as long as the copy does not come to the backup
    directory, the staged tree holds no file that the save directory does
    not hold at the same path, and no file at a path with an ignored
    component; and a staged file whose copy ended in a successful
    [shutil.copy2] has the bytes of its source. *)
Theorem copytree_no_foreign_file (m : manager) (o : path -> copy_oracle)
  (p : path) (c : list byte) :
  forall (n : node) (src : path),
    copy_avoids_backup_dir m = true ->
    no_ignored m src = true ->
    wf_node n ->
    read_file (Dir (fst (fst (copytree m o src n)))) p = Some c ->
    no_ignored m p = true /\
    exists c0, read_file n p = Some c0
               /\ (snd (_safe_copy m (o (src ++ p))) = Returns ByCopy2 -> c0 = c).
Proof.
  intros n src Hav Hsrc Hwf. rewrite (copytree_avoiding m o n Hav src Hsrc).
  clear Hav Hsrc. revert n src Hwf.
  induction p as [|k p IH]; intros n src Hwf Hr; [discriminate|].
  destruct n as [content|es]; [discriminate|].
  cbn [read_file] in Hr.
  destruct (lookup k (fst (fst (copytree_apart m o src (Dir es))))) as [v|] eqn:Hl;
    [|discriminate].
  apply wf_node_Dir in Hwf as [Hnd Hsub].
  apply copytree_apart_lookup in Hl as [Hig Hcase]; [|assumption].
  unfold no_ignored. cbn [forallb read_file]. rewrite Hig. cbn [negb andb].
  destruct Hcase as [(content & c1 & Hs & -> & Hc)|(sub & Hs & ->)].
  - destruct p as [|k' p]; [|discriminate]. cbn in Hr. injection Hr as <-.
    split; [reflexivity|]. rewrite Hs. exists content. split; [reflexivity|].
    intros Hok. symmetry. now apply Hc.
  - rewrite Hs.
    replace (src ++ k :: p) with ((src ++ [k]) ++ p) by now rewrite <- app_assoc.
    apply (IH (Dir sub) (src ++ [k])); [|assumption].
    apply lookup_In in Hs. rewrite Forall_forall in Hsub. exact (Hsub _ Hs).
Qed.

Lemma copytree_no_foreign_file_witness :
  no_ignored (example_manager 1) ["b"; "c.txt"] = true /\
  exists c0, read_file example_save_dir ["b"; "c.txt"] = Some c0
             /\ (snd (_safe_copy (example_manager 1) copy_succeeds) = Returns ByCopy2 ->
                 c0 = []).
Proof.
  apply (copytree_no_foreign_file (example_manager 1) (fun _ => copy_succeeds)
           ["b"; "c.txt"] [] example_save_dir []).
  - reflexivity.
  - reflexivity.
  - exact (proj1 example_save_dir_wf).
  - reflexivity.
Defined.

(** ** What [create_backup] publishes, and what it leaves when it fails *)






Lemma filter_names_absent (nm : string) (l : list string) :
  ~ In nm l -> filter (fun k => negb (String.eqb k nm)) l = l.
Proof.
  induction l as [|a l IH]; intros Hn; [reflexivity|]. simpl.
  destruct (String.eqb_spec a nm) as [->|_]; [exfalso; apply Hn; now left|].
  cbn [negb]. f_equal. apply IH. intros H. apply Hn. now right.
Qed.

Lemma listing_with_staging (m : manager) (root : list dirent) (tmp : string) (v : node) :
  visible m tmp = false ->
  _get_backup_list m (root ++ [(tmp, v)]) = _get_backup_list m root.
Proof.
  intros Hv. apply get_backup_list_ext. rewrite map_app, glob_backup_app.
  cbn [map fst]. unfold glob_backup at 2. cbn [filter].
  fold (visible m tmp). rewrite Hv. now rewrite app_nil_r.
Qed.

(** X12. A failed [create_backup] changes nothing that the listing shows:
    when it returns [None], no entry has the new name beforehand and the
    cross-device move leaves nothing half-copied, the listing is the one
    from before and every entry whose name does not start with a dot is
    untouched, whichever step failed and even if the staging directory
    cannot be removed. *)
Theorem create_backup_failure_keeps_listing {rt : Runtime} (m : manager) (o : oracle)
  (d : option string) (save_dir : node) (root root' : list dirent) (ev : list event) :
  create_backup m o d save_dir root = (None, root', ev) ->
  exists_in (backup_name_at (now o)) root = false ->
  (forall tmp e partial, move_outcome o tmp <> MoveFails e (Some partial)) ->
  _get_backup_list m root' = _get_backup_list m root
  /\ forall k, startswith "." k = false -> lookup k root' = lookup k root.
Proof.
  intros Hc Hfinal Hmove. unfold create_backup in Hc.
  destruct (Nat.eqb (count_files save_dir) 0).
  { injection Hc as <- _. now split. }
  set (nm := backup_name_at (now o)) in *.
  destruct (mkdtemp ("." ++ nm ++ ".")%string (mkdtemp_suffixes o) root) as [tmp|] eqn:Hmk.
  2: { injection Hc as <- _. now split. }
  apply mkdtemp_fresh in Hmk as [Hfresh [suffix Htmp]].
  assert (Hst : tmp = staging_name nm suffix).
  { rewrite Htmp. unfold staging_name.
    change (("." ++ nm ++ ".") ++ suffix)%string
      with ("." ++ ((nm ++ ".") ++ suffix))%string.
    now rewrite str_app_assoc. }
  assert (Hhid : startswith "." tmp = true) by (rewrite Hst; apply staging_name_hidden).
  assert (Hvis : visible m tmp = false) by (rewrite Hst; apply staging_name_not_visible).
  assert (Hne : tmp <> nm) by (rewrite Hst; apply staging_name_not_final).
  set (root0 := root ++ [(tmp, Dir [])]) in *.
  assert (Hex0 : exists_in tmp root0 = true) by apply exists_in_app_one.
  pose proof (stage_names m o d save_dir tmp root0 Hex0) as Hn1.
  pose proof (fun k => stage_lookup_other m o d save_dir tmp k root0) as Hl1.
  destruct (stage m o d save_dir tmp root0) as [[root1 ev1] staged].
  cbn [fst] in Hn1, Hl1.
  assert (Hex1 : exists_in tmp root1 = true).
  { apply exists_in_names. rewrite Hn1. unfold root0. rewrite names_app_one.
    apply in_or_app. right. now left. }
  assert (Hfin1 : exists_in nm root1 = false).
  { apply exists_in_false. rewrite Hn1. unfold root0. rewrite names_app_one.
    rewrite in_app_iff. intros [H|[H|[]]].
    - revert H. now apply exists_in_false.
    - now apply Hne. }
  assert (Hcleaned : forall root2 ev2 (r : outcome move_method),
            root2 = root1 ->
            (let '(root2, ev2, published) := (root2, ev2, r) in
             match published with
             | Raises _ =>
                 let cleaned :=
                   if exists_in tmp root2
                   then (fst (_safe_rmtree o tmp root2), [RmtreeCalled tmp])
                   else (root2, []) in
                 (None, fst cleaned,
                  MkdtempCalled tmp :: ev1 ++ ev2 ++ snd cleaned ++ [FailedToCreateBackup])
             | Returns method =>
                 let '(root3, ev3) :=
                   write_metadata m o nm method (truthy d) false
                     FailedToWriteMetadata root2 in
                 let '(root4, ev4) := _cleanup_old_backups m o root3 in
                 (Some nm, root4,
                  MkdtempCalled tmp :: ev1 ++ ev2 ++ ev3 ++ [BackupCreated nm] ++ ev4)
             end) = (None, root', ev) ->
            _get_backup_list m root' = _get_backup_list m root
            /\ forall k, startswith "." k = false -> lookup k root' = lookup k root).
  { intros root2 ev2 r -> H. destruct r as [method|e].
    - destruct (write_metadata m o nm method (truthy d) false FailedToWriteMetadata root1)
        as [root3 ev3].
      destruct (_cleanup_old_backups m o root3) as [root4 ev4]. discriminate.
    - rewrite Hex1 in H. cbn [fst snd] in H. injection H as <- _. split.
      + unfold _safe_rmtree. rewrite Hex1.
        destruct (rmtree_outcome o tmp) as [|e' leftover]; cbn [fst].
        * apply get_backup_list_same_names. rewrite names_remove_entry, Hn1.
          unfold root0. rewrite names_app_one, filter_app. cbn [filter].
          rewrite String.eqb_refl. cbn [negb]. rewrite app_nil_r.
          apply filter_names_absent. now apply exists_in_false.
        * rewrite (get_backup_list_same_names m (put_entry tmp leftover root1) root0).
          -- now apply listing_with_staging.
          -- rewrite names_put_entry, Hex1. exact Hn1.
      + intros k Hk. assert (Hkt : k <> tmp) by (intros ->; congruence).
        rewrite safe_rmtree_lookup_other, Hl1 by assumption.
        unfold root0. rewrite lookup_app. destruct (lookup k root); [reflexivity|].
        cbn [lookup]. destruct (String.eqb_spec tmp k); [congruence|reflexivity]. }
  destruct staged as [u|e].
  - assert (Hpub : snd (publish o tmp nm root1) = Returns atomic
                   \/ snd (publish o tmp nm root1) = Returns copied
                   \/ fst (fst (publish o tmp nm root1)) = root1).
    { rewrite publish_eq by (intros H; congruence).
      rewrite (remove_entry_absent nm root1 Hfin1).
      destruct (replace_outcome o tmp) as [e|]; [|now left].
      destruct (is_OSError e && is_EXDEV e); [|now right; right].
      destruct (move_outcome o tmp) as [|e' [partial|]] eqn:Em; cbn [fst snd].
      - right. now left.
      - now destruct (Hmove tmp e' partial).
      - right. now right. }
    destruct (publish o tmp nm root1) as [[root2 ev2] r]. cbn [fst snd] in Hpub.
    destruct Hpub as [-> | [-> | ->]].
    + destruct (write_metadata m o nm atomic (truthy d) false FailedToWriteMetadata root2)
        as [root3 ev3].
      destruct (_cleanup_old_backups m o root3) as [root4 ev4]. discriminate.
    + destruct (write_metadata m o nm copied (truthy d) false FailedToWriteMetadata root2)
        as [root3 ev3].
      destruct (_cleanup_old_backups m o root3) as [root4 ev4]. discriminate.
    + now apply (Hcleaned root1 ev2 r).
  - now apply (Hcleaned root1 [] (Raises e)).
Qed.

Lemma create_backup_failure_keeps_listing_witness :
  _get_backup_list (example_manager 1)
    (snd (fst (create_backup (rt := stand_in_runtime) (example_manager 1)
                 (replace_fails_oracle (at_noon 5)) None example_save_dir three_snapshots)))
  = _get_backup_list (example_manager 1) three_snapshots.
Proof.
  refine (proj1 (create_backup_failure_keeps_listing (rt := stand_in_runtime)
                   (example_manager 1) (replace_fails_oracle (at_noon 5)) None
                   example_save_dir three_snapshots
                   (snd (fst (create_backup (rt := stand_in_runtime) (example_manager 1)
                                (replace_fails_oracle (at_noon 5)) None example_save_dir
                                three_snapshots)))
                   (snd (create_backup (rt := stand_in_runtime) (example_manager 1)
                           (replace_fails_oracle (at_noon 5)) None example_save_dir
                           three_snapshots))
                   _ _ _)).
  - vm_compute. reflexivity.
  - vm_compute. reflexivity.
  - intros tmp e partial. discriminate.
Defined.

(** ** Backup, then restore *)









(** ** Recovery leaves everything else alone *)

Lemma recover_one_frame {rt : Runtime} (m : manager) (o : oracle)
  (st : list dirent * list event) (name k : string) (v : node) :
  startswith ".backup_" k = false ->
  lookup k (fst st) = Some v ->
  lookup k (fst (recover_one m o st name)) = Some v.
Proof.
  intros Hk Hl. unfold recover_one.
  destruct (lookup name (fst st)) as [[c|content]|] eqn:Hn; try assumption.
  destruct (startswith ".backup_" name) eqn:Hst; cbn [negb]; [|assumption].
  assert (Hkn : k <> name) by (intros ->; congruence).
  assert (Htemp : forall r, lookup k r = Some v -> lookup k (remove_temp o name r) = Some v).
  { intros r Hr. unfold remove_temp. now rewrite safe_rmtree_lookup_other. }
  destruct (Nat.eqb (count_files (Dir content)) 0); [cbn [fst]; now apply Htemp|].
  set (final := final_base_of name).
  destruct (exists_in final (fst st)) eqn:Hex; [cbn [fst]; now apply Htemp|].
  assert (Hkf : k <> final).
  { intros ->. unfold exists_in in Hex. now rewrite Hl in Hex. }
  assert (Hnf : name <> final).
  { intros E. pose proof (final_base_not_staging name) as H. fold final in H.
    rewrite <- E in H. congruence. }
  assert (Hren : lookup k (rename_entry name final (fst st)) = Some v).
  { rewrite (rename_lookup_other name final k (Dir content)); assumption. }
  destruct (replace_outcome o name) as [e|].
  - destruct (is_OSError e); [|assumption].
    destruct (is_EXDEV e).
    + destruct (move_outcome o name) as [|e' leftover]; cbn [fst].
      * now rewrite write_metadata_lookup_other.
      * apply Htemp. destruct leftover; [now rewrite lookup_put_neq|assumption].
    + cbn [fst]. now apply Htemp.
  - cbn [fst]. now rewrite write_metadata_lookup_other.
Qed.

(** X14. Whatever the library calls do, the recovery scan neither removes
    nor changes an entry of the backup root whose name does not start with
    [.backup_]: every snapshot that was there before is there afterwards,
    with the same content. *)
Theorem recovery_keeps_other_entries {rt : Runtime} (m : manager) (o : oracle)
  (root : list dirent) (k : string) (v : node) :
  startswith ".backup_" k = false ->
  lookup k root = Some v ->
  lookup k (fst (_recover_or_cleanup_tmp_dirs m o root)) = Some v.
Proof.
  intros Hk Hl. unfold _recover_or_cleanup_tmp_dirs.
  assert (H : forall l st, lookup k (fst st) = Some v ->
                lookup k (fst (fold_left (recover_one m o) l st)) = Some v).
  { induction l as [|nm l IH]; intros st Hst; [assumption|].
    simpl. apply IH. now apply recover_one_frame. }
  now apply H.
Qed.

Lemma recovery_keeps_other_entries_witness :
  lookup "backup_20241231_090000"
    (fst (_recover_or_cleanup_tmp_dirs (rt := stand_in_runtime) (example_manager 1)
            (rmtree_fails_oracle (at_noon 0)) root_with_leftover))
  = Some (Dir [("a.txt", File (encode "ab"))]).
Proof.
  apply (recovery_keeps_other_entries (rt := stand_in_runtime)); reflexivity.
Defined.

(** ** Retries of [_safe_copy] *)

Lemma safe_copy_attempts_succeed (m : manager) (o : copy_oracle) (k : nat) :
  forall s rest dst,
    (forall a, s <= a < s + k ->
       (exists e, copy2 o a = Some e /\ is_OSError e = true)
       /\ (Z.of_nat a <? retries m)%Z = true
       /\ time_sleep (retry_delay m) (sleep_overflows o a) = None) ->
    (os_nt m = true ->
     forall a, s <= a < s + k -> exists remains, win32 o a = Win32Raises remains) ->
    copy2 o (s + k) = None ->
    fst (safe_copy_attempts m o dst (seq s k ++ (s + k) :: rest))
    = (flat_map (failed_attempt m) (seq s k) ++ [Copy2Called (s + k)], Returns ByCopy2).
Proof.
  induction k as [|k IH]; intros s rest dst Hfail Hwin Hok.
  - cbn [seq app flat_map safe_copy_attempts]. now rewrite Hok.
  - cbn [seq app flat_map safe_copy_attempts].
    destruct (Hfail s ltac:(lia)) as ((e & He & Hos) & Hlt & Hsleep).
    rewrite He, Hos, Hlt, Hsleep. cbn [negb].
    assert (Hnext : forall dst',
              fst (safe_copy_attempts m o dst' (seq (S s) k ++ (s + S k) :: rest))
              = (flat_map (failed_attempt m) (seq (S s) k) ++ [Copy2Called (s + S k)],
                 Returns ByCopy2)).
    { intros dst'. replace (s + S k) with (S s + k) in * by lia.
      apply IH; [intros a Ha; apply Hfail; lia| |assumption].
      intros Hnt a Ha. apply (Hwin Hnt). lia. }
    unfold failed_attempt at 1. unfold fallback_events.
    destruct (os_nt m) eqn:Hnt.
    + destruct (Hwin eq_refl s ltac:(lia)) as [remains ->].
      unfold _win_read_file_to_path. rewrite Hnt. cbn [negb].
      specialize (Hnext (overwrite remains (overwrite (copy2_leaves o s) dst))).
      destruct (safe_copy_attempts m o _ (seq (S s) k ++ (s + S k) :: rest))
        as [[ev r] dst3].
      cbn [fst] in Hnext |- *. injection Hnext as -> ->.
      cbn [app]. rewrite <- ?app_assoc. reflexivity.
    + specialize (Hnext (overwrite (copy2_leaves o s) dst)).
      destruct (safe_copy_attempts m o _ (seq (S s) k ++ (s + S k) :: rest))
        as [[ev r] dst3].
      cbn [fst] in Hnext |- *. injection Hnext as -> ->.
      cbn [app]. rewrite <- ?app_assoc. reflexivity.
Qed.

(** X15. A copy that succeeds at attempt [j], after [shutil.copy2] failed
    with an [OSError] at each earlier attempt, the locked-file fallback
    delivered nothing (it is not tried off Windows, it raised on Windows)
    and [time.sleep] accepted the delay: [_safe_copy] returns normally,
    having slept [retry_delay * a] after each failed attempt [a] and
    nothing after the successful one, and the destination is a copy of the
    source. *)
Theorem safe_copy_succeeds_after_retries (m : manager) (o : copy_oracle) (j : nat) :
  1 <= j ->
  (Z.of_nat j <= Z.max 1 (retries m))%Z ->
  (forall a, 1 <= a < j -> exists e, copy2 o a = Some e /\ is_OSError e = true) ->
  (os_nt m = true ->
   forall a, 1 <= a < j -> exists remains, win32 o a = Win32Raises remains) ->
  (forall a, 1 <= a < j -> time_sleep (retry_delay m) (sleep_overflows o a) = None) ->
  copy2 o j = None ->
  _safe_copy m o
  = (flat_map (failed_attempt m) (seq 1 (j - 1)) ++ [Copy2Called j], Returns ByCopy2)
  /\ forall nm content,
       copy_one m o nm content
       = ([(nm, File content)],
          flat_map (failed_attempt m) (seq 1 (j - 1)) ++ [Copy2Called j], CopyOk).
Proof.
  intros Hj Hle Hfail Hwin Hsleep Hok.
  assert (E : _safe_copy m o
              = (flat_map (failed_attempt m) (seq 1 (j - 1)) ++ [Copy2Called j],
                 Returns ByCopy2)).
  { unfold _safe_copy, attempt_range.
    set (n := Z.to_nat (Z.max 1 (retries m))).
    assert (Hn : j <= n) by (unfold n; lia).
    assert (Hseq : seq 1 n = seq 1 (j - 1) ++ (1 + (j - 1)) :: seq (S j) (n - j)).
    { replace n with ((j - 1) + S (n - j)) at 1 by lia.
      rewrite seq_app. cbn [seq]. repeat f_equal; lia. }
    rewrite Hseq.
    rewrite (safe_copy_attempts_succeed m o (j - 1) 1 (seq (S j) (n - j)) Untouched).
    - replace (1 + (j - 1)) with j by lia. reflexivity.
    - intros a Ha. split; [apply Hfail; lia|]. split; [apply Z.ltb_lt; lia|].
      apply Hsleep. lia.
    - intros Hnt a Ha. apply (Hwin Hnt). lia.
    - replace (1 + (j - 1)) with j by lia. assumption. }
  split; [exact E|]. intros nm content. unfold copy_one. now rewrite E.
Qed.

Lemma safe_copy_succeeds_after_retries_witness :
  _safe_copy (example_manager 1)
    {| copy2 := fun a => if Nat.ltb a 3 then Some PermissionError else None;
       copy2_leaves := fun _ => Holds [];
       win32 := fun _ => InvalidHandle;
       sleep_overflows := fun _ => false |}
  = ([Copy2Called 1; Slept (Finite (1 # 2)) 1;
      Copy2Called 2; Slept (Finite (1 # 2)) 2;
      Copy2Called 3],
     Returns ByCopy2).
Proof.
  apply (safe_copy_succeeds_after_retries (example_manager 1)
           {| copy2 := fun a => if Nat.ltb a 3 then Some PermissionError else None;
              copy2_leaves := fun _ => Holds [];
              win32 := fun _ => InvalidHandle;
              sleep_overflows := fun _ => false |} 3).
  - lia.
  - vm_compute. discriminate.
  - intros a Ha. exists PermissionError. split; [|reflexivity].
    cbn [copy2]. destruct (Nat.ltb_spec a 3); [reflexivity|lia].
  - discriminate.
  - reflexivity.
  - reflexivity.
Defined.

Lemma overwrite_Untouched (remains : left_at_dst) : overwrite remains Untouched = remains.
Proof. now destruct remains. Qed.

(** X16. An exception of [shutil.copy2] that is no [OSError] is not
    retried: [_safe_copy] raises it after the first attempt, without
    fallback or sleep, whatever [retries] and [skip_locked_files] say, and
    [copytree] stops at that file, whose destination is as that one call
    of [shutil.copy2] left it. *)
Theorem safe_copy_other_exception (m : manager) (o : copy_oracle) (e : exn)
  (nm : string) (content : list byte) :
  copy2 o 1 = Some e ->
  is_OSError e = false ->
  _safe_copy m o = ([Copy2Called 1], Raises e)
  /\ copy_one m o nm content
     = (left_entries nm (copy2_leaves o 1), [Copy2Called 1], CopyAborts e).
Proof.
  intros He Hos.
  assert (H : safe_copy_attempts m o Untouched (attempt_range m)
              = ([Copy2Called 1], Raises e, copy2_leaves o 1)).
  { unfold attempt_range.
    destruct (Z.to_nat (Z.max 1 (retries m))) as [|n] eqn:E; [lia|].
    cbn [seq safe_copy_attempts]. now rewrite He, Hos, overwrite_Untouched. }
  unfold copy_one, _safe_copy, left_by_safe_copy. rewrite H. cbn [fst snd].
  now rewrite Hos.
Qed.

Lemma safe_copy_other_exception_witness :
  _safe_copy (example_manager 1)
    {| copy2 := fun _ => Some (OtherException "ValueError");
       copy2_leaves := fun _ => Untouched;
       win32 := fun _ => InvalidHandle;
       sleep_overflows := fun _ => false |}
  = ([Copy2Called 1], Raises (OtherException "ValueError")).
Proof.
  refine (proj1 (safe_copy_other_exception (example_manager 1)
                   {| copy2 := fun _ => Some (OtherException "ValueError");
                      copy2_leaves := fun _ => Untouched;
                      win32 := fun _ => InvalidHandle;
                      sleep_overflows := fun _ => false |}
                   (OtherException "ValueError") "a.txt" [] _ _)); reflexivity.
Defined.

(** ** Names and time *)

Lemma datetime_trichotomy (a b : datetime) : a = b \/ datetime_lt a b \/ datetime_lt b a.
Proof.
  destruct a as [ya ma da ha mia sa], b as [yb mb db hb mib sb]. unfold datetime_lt.
  cbn [year month day hour minute second].
  destruct (Nat.lt_trichotomy ya yb) as [H|[->|H]]; [tauto| |tauto].
  destruct (Nat.lt_trichotomy ma mb) as [H|[->|H]]; [tauto| |tauto].
  destruct (Nat.lt_trichotomy da db) as [H|[->|H]]; [tauto| |tauto].
  destruct (Nat.lt_trichotomy ha hb) as [H|[->|H]]; [tauto| |tauto].
  destruct (Nat.lt_trichotomy mia mib) as [H|[->|H]]; [tauto| |tauto].
  destruct (Nat.lt_trichotomy sa sb) as [H|[->|H]]; [tauto| |tauto].
  now left.
Qed.

(** X17. Snapshot names order as their timestamps do: for two valid
    timestamps, one is earlier than the other exactly when its snapshot
    name is the smaller string, and two timestamps give the same name
    exactly when they are the same second. *)
Theorem backup_name_order (a b : datetime) :
  valid_datetime a -> valid_datetime b ->
  (datetime_lt a b <-> str_lt (backup_name_at a) (backup_name_at b))
  /\ (backup_name_at a = backup_name_at b <-> a = b).
Proof.
  intros Ha Hb. split; split.
  - now apply strftime_increasing.
  - intros Hlt. destruct (datetime_trichotomy a b) as [->|[H|H]]; [|assumption|].
    + now apply str_lt_irrefl in Hlt.
    + apply (strftime_increasing b a Hb Ha) in H. now destruct (str_lt_asym _ _ Hlt H).
  - intros E. destruct (datetime_trichotomy a b) as [->|[H|H]]; [reflexivity| |].
    + apply (strftime_increasing a b Ha Hb) in H. rewrite E in H.
      now apply str_lt_irrefl in H.
    + apply (strftime_increasing b a Hb Ha) in H. rewrite E in H.
      now apply str_lt_irrefl in H.
  - now intros ->.
Qed.

Lemma backup_name_order_witness :
  datetime_lt (at_noon 1) (at_noon 2)
  <-> str_lt (backup_name_at (at_noon 1)) (backup_name_at (at_noon 2)).
Proof.
  refine (proj1 (backup_name_order (at_noon 1) (at_noon 2) _ _));
    unfold valid_datetime; simpl; repeat split; lia.
Defined.

Lemma StronglySorted_nth {A : Type} (R : A -> A -> Prop) (d : A) (l : list A) :
  StronglySorted R l ->
  forall i j, i < j -> j < length l -> R (nth i l d) (nth j l d).
Proof.
  induction 1 as [|a l Hs IH Hf]; intros i j Hij Hj; [simpl in Hj; lia|].
  destruct j as [|j]; [lia|]. simpl in Hj. destruct i as [|i].
  - cbn [nth]. rewrite Forall_forall in Hf. apply Hf. apply nth_In. lia.
  - cbn [nth]. apply IH; lia.
Qed.

(** X18. Backup numbers run from newest to oldest when the backup path
    holds no wildcard of [glob]: in the listing that [restore_backup],
    [delete_backup] and the pruning step number from 1, a snapshot named
    after a timestamp comes before another one exactly when its timestamp
    is the later one. *)
Theorem backup_numbers_newest_first (m : manager) (root : list dirent)
  (i j : nat) (a b : datetime) :
  let L := _get_backup_list m root in
  plain_path m ->
  NoDup (map fst root) ->
  valid_datetime a -> valid_datetime b ->
  i < length L -> j < length L ->
  nth i L "" = backup_name_at a ->
  nth j L "" = backup_name_at b ->
  (i < j <-> datetime_lt b a).
Proof.
  intros L Hp Hnd Ha Hb Hi Hj Ei Ej.
  pose proof (get_backup_list_sorted m root Hnd) as Hs. fold L in Hs.
  split.
  - intros Hij.
    pose proof (StronglySorted_nth newest_first "" L Hs i j Hij Hj) as Hji.
    unfold newest_first in Hji. rewrite Ei, Ej in Hji.
    destruct (datetime_trichotomy b a) as [->|[H|H]]; [|assumption|].
    + now apply str_lt_irrefl in Hji.
    + apply (strftime_increasing a b Ha Hb) in H.
      now destruct (str_lt_asym _ _ Hji H).
  - intros Hlt. apply (strftime_increasing b a Hb Ha) in Hlt.
    destruct (Nat.lt_trichotomy i j) as [H|[->|H]]; [assumption| |].
    + rewrite Ei in Ej. rewrite Ej in Hlt. now apply str_lt_irrefl in Hlt.
    + pose proof (StronglySorted_nth newest_first "" L Hs j i H Hi) as Hji.
      unfold newest_first in Hji. rewrite Ei, Ej in Hji.
      now destruct (str_lt_asym _ _ Hlt Hji).
Qed.

Lemma backup_numbers_newest_first_witness :
  0 < 2 <-> datetime_lt (at_noon 0) (at_noon 2).
Proof.
  apply (backup_numbers_newest_first (example_manager 5) three_snapshots 0 2
           (at_noon 2) (at_noon 0)).
  - vm_compute. reflexivity.
  - repeat constructor; simpl; intuition discriminate.
  - unfold valid_datetime; simpl; repeat split; lia.
  - unfold valid_datetime; simpl; repeat split; lia.
  - vm_compute. lia.
  - vm_compute. lia.
  - vm_compute. reflexivity.
  - vm_compute. reflexivity.
Defined.

(** ** What the checksum does not tell apart *)

Lemma replace_backslash_app (a b : string) :
  replace_backslash (a ++ b) = (replace_backslash a ++ replace_backslash b)%string.
Proof. induction a as [|c a IH]; [reflexivity|]. cbn. now rewrite IH. Qed.

Lemma replace_backslash_digits (d : Decimal.uint) :
  replace_backslash (NilEmpty.string_of_uint d) = NilEmpty.string_of_uint d.
Proof. induction d; cbn; now rewrite ?IHd. Qed.

Lemma replace_backslash_str_of_nat (n : nat) :
  replace_backslash (str_of_nat n) = str_of_nat n.
Proof.
  unfold str_of_nat, NilZero.string_of_uint.
  destruct (Nat.to_uint n); try apply replace_backslash_digits. reflexivity.
Qed.

Lemma str_of_nat_not_empty (n : nat) : str_of_nat n <> "".
Proof.
  unfold str_of_nat, NilZero.string_of_uint.
  destruct (Nat.to_uint n); discriminate.
Qed.

Lemma encode_app (a b : string) : encode (a ++ b) = encode a ++ encode b.
Proof.
  unfold encode, list_byte_of_string. induction a as [|c a IH]; [reflexivity|].
  cbn [append list_ascii_of_string map app]. now rewrite IH.
Qed.

Lemma hash_input_single_file (sep : string) (nm : string) (c : list byte) :
  hash_input sep (fun _ => ReadOk) (Dir [(nm, File c)])
  = encode (replace_backslash nm) ++ encode (str_of_nat (length c)) ++ c.
Proof.
  rewrite hash_input_segments.
  change (files_visited [] (Dir [(nm, File c)])) with [([nm], c)].
  cbn [map List.concat]. rewrite app_nil_r. unfold segment. cbn [fst snd].
  unfold feed_file. rewrite fold_update_chunks. unfold update, rel_path.
  cbn [String.concat app]. now rewrite <- app_assoc.
Qed.

Lemma append_not_self (a b : string) : b <> "" -> (a ++ b)%string <> a.
Proof.
  intros Hb. induction a as [|c a IH]; [exact Hb|].
  cbn. intros E. injection E as E. now apply IH.
Qed.

(** X19. Names, sizes and contents are fed to the hash one after the
    other with nothing between them, so the checksum does not tell apart
    directories whose files differ: for every name and content there are
    two one-file directories, with different file names and different
    contents, that give the same checksum. *)
Theorem checksum_does_not_separate {rt : Runtime} (sep : string) (nm : string)
  (c : list byte) :
  let longer := encode (str_of_nat (length c)) ++ c in
  let other := (nm ++ str_of_nat (length longer))%string in
  compute_directory_sha256 sep (fun _ => ReadOk) (Dir [(nm, File longer)])
  = compute_directory_sha256 sep (fun _ => ReadOk) (Dir [(other, File c)])
  /\ other <> nm
  /\ longer <> c.
Proof.
  intros longer other. split; [|split].
  - unfold compute_directory_sha256. do 2 f_equal.
    rewrite !hash_input_single_file. unfold other, longer.
    rewrite replace_backslash_app, replace_backslash_str_of_nat, encode_app.
    now rewrite <- !app_assoc.
  - apply append_not_self, str_of_nat_not_empty.
  - unfold longer. intros E. apply (f_equal (@List.length byte)) in E.
    rewrite length_app in E.
    pose proof (str_of_nat_not_empty (length c)) as Hne.
    destruct (str_of_nat (length c)); [contradiction|]. cbn in E. lia.
Qed.

(** ** The counts of the metadata *)




Lemma sort_by_length {A : Type} (key : A -> string) (l : list A) :
  length (sort_by key l) = length l.
Proof. apply Permutation_length, sort_by_perm. Qed.




(** ** The games configuration *)

Lemma input_without_default (r : string) : get_user_input_with_prompt None r = JString r.
Proof.
  unfold get_user_input_with_prompt.
  destruct (String.eqb_spec r ""); [now subst|reflexivity].
Qed.



Lemma dict_set_absent {V : Type} (k : string) (v : V) (d : list (string * V)) :
  dict_get k d = None -> dict_set k v d = d ++ [(k, v)].
Proof.
  induction d as [|[k' w] r IH]; cbn [dict_set dict_get app]; [reflexivity|].
  destruct (String.eqb k' k); [discriminate|]. intros H. now rewrite IH.
Qed.




Lemma dict_get_In {V : Type} (k : string) (d : list (string * V)) :
  dict_get k d = None <-> ~ In k (map fst d).
Proof.
  induction d as [|[k' w] r IH]; cbn [dict_get map fst]; [simpl; tauto|].
  destruct (String.eqb_spec k' k) as [->|Hne]; simpl.
  - split; [discriminate|]. intros H. exfalso. apply H. now left.
  - rewrite IH. tauto.
Qed.



Lemma add_game_accepted (i : add_inputs) (c : config) (file : config_file) :
  add_accepted i c ->
  add_game_to_config i c file
  = ({| games := Some (games_of c ++ [(in_game_id i, new_game i)]);
        settings := settings c |},
     if write_ok i
     then FileHolds {| games := Some (games_of c ++ [(in_game_id i, new_game i)]);
                       settings := settings c |}
     else file).
Proof.
  intros (Hid & Hsp & Hnew & Hname & Hpath & Hex). unfold add_game_to_config.
  rewrite !input_without_default. cbn [text_of].
  destruct (String.eqb_spec (in_game_id i) ""); [contradiction|].
  rewrite Hsp, Hnew. cbn [orb].
  destruct (String.eqb_spec (in_name i) ""); [contradiction|].
  destruct (String.eqb_spec (in_save_path i) ""); [contradiction|].
  assert (Hc : negb (save_path_exists i) && negb (answered_yes (in_add_anyway i)) = false).
  { destruct Hex as [-> | ->]; [reflexivity|apply andb_false_r]. }
  rewrite Hc, dict_set_absent by assumption. unfold save_games_config, new_game.
  reflexivity.
Qed.





(** X23. [remove_game_from_config] changes nothing when the answer is
    [q], is no number, is a number outside [1 .. number of games], or
    when the confirmation is not [y]. *)
Theorem remove_game_declined (choice : menu_choice) (confirm : string) (ok : bool)
  (c : config) (file : config_file) :
  (match choice with
   | Number n => (n < 1 \/ n > Z.of_nat (length (games_of c)))%Z
                 \/ answered_yes confirm = false
   | _ => True
   end) ->
  remove_game_from_config choice confirm ok c file = (c, file).
Proof.
  intros H. unfold remove_game_from_config, list_games.
  destruct (games_of c) as [|g gs] eqn:Eg; [reflexivity|].
  destruct choice as [|n|]; try reflexivity.
  destruct (Z.leb_spec 0 (n - 1)); [|reflexivity].
  destruct (Z.ltb_spec (n - 1) (Z.of_nat (length (g :: gs)))); [|reflexivity].
  cbn [andb negb].
  destruct (nth_error (g :: gs) (Z.to_nat (n - 1))) as [[game_id info]|]; [|reflexivity].
  destruct H as [H|H]; [lia|]. now rewrite H.
Qed.

Lemma remove_game_declined_witness :
  remove_game_from_config (Number 1) "n" true two_games FileMissing
  = (two_games, FileMissing).
Proof.
  apply remove_game_declined. right. reflexivity.
Defined.






(** X26. A configuration file that cannot be parsed is read as an empty
    configuration with the default settings, and is itself left alone;
    the next game that is added is then written over it, as the only
    game. *)
Theorem add_after_unreadable_config (save_ok : bool) (i : add_inputs) :
  load_games_config save_ok FileCorrupt = (fallback_config, FileCorrupt)
  /\ (add_accepted i fallback_config -> write_ok i = true ->
      snd (add_game_to_config i (fst (load_games_config save_ok FileCorrupt))
             (snd (load_games_config save_ok FileCorrupt)))
      = FileHolds {| games := Some [(in_game_id i, new_game i)];
                     settings := [("default_max_backups", JOther "10" true)] |}).
Proof.
  split; [reflexivity|]. intros Ha Hw. cbn [load_games_config fst snd].
  rewrite add_game_accepted by assumption. now rewrite Hw.
Qed.

Lemma cleanup_backups_as_pruning_witness :
  cleanup_backups (example_manager 5) (calm_oracle (at_noon 0)) (Some 1%Z) "n" three_snapshots
  = (three_snapshots, []).
Proof.
  apply (proj1 (cleanup_backups_as_pruning (example_manager 5) (calm_oracle (at_noon 0))
                  (Some 1%Z) "n" three_snapshots)).
  reflexivity.
Defined.



Lemma add_after_unreadable_config_witness :
  snd (add_game_to_config hades_inputs (fst (load_games_config true FileCorrupt))
         (snd (load_games_config true FileCorrupt)))
  = FileHolds {| games := Some [("hades", new_game hades_inputs)];
                 settings := [("default_max_backups", JOther "10" true)] |}.
Proof.
  apply (proj2 (add_after_unreadable_config true hades_inputs)).
  - unfold add_accepted. cbn. repeat split; try discriminate. now left.
  - reflexivity.
Defined.

(** ** A restore that cannot copy *)

Lemma copy_phase_first_fails (o : restore_oracle) (total : nat)
  (skipped rest : list dirent) (k : string) (v : node) (e : exn) (save : list dirent) :
  Forall (fun x : dirent => fst x = description_file) skipped ->
  k <> description_file ->
  copy_back o k = Some e ->
  lookup k save = None ->
  copy_phase o total (skipped ++ (k, v) :: rest) save
  = (put_left k (copy_back_leaves o k) save, Raises e).
Proof.
  intros Hskip Hk He Hfree. induction Hskip as [|[nm w] l Hnm Hl IH].
  - cbn [app copy_phase]. destruct (String.eqb_spec k description_file); [contradiction|].
    unfold copy_item, exists_in. rewrite Hfree, He. now destruct (is_dir v).
  - cbn [app copy_phase]. cbn [fst] in Hnm. subst nm.
    now rewrite String.eqb_refl.
Qed.

(** X27. A restore is not undone when it fails: if the removals succeed
    and then the first copy fails (that of the first entry of the snapshot
    other than the description sidecar, onto a name that is free),
    [restore_backup] returns [False] without copying anything else, and
    the save directory is left with what the delete phase spares and what
    the failed copy left under the name of that entry, the former save
    files being gone. The backup path holds no wildcard of [glob]. *)
Theorem restore_failure_leaves_save_deleted (m : manager) (o : restore_oracle)
  (backup_choice : Z) (save root skipped rest : list dirent) (k : string) (v : node)
  (e : exn) :
  let L := _get_backup_list m root in
  let nm := nth (Z.to_nat (backup_choice - 1)) L "" in
  plain_path m ->
  (1 <= backup_choice <= Z.of_nat (length L))%Z ->
  lookup nm root = Some (Dir (skipped ++ (k, v) :: rest)) ->
  Forall (fun x : dirent => fst x = description_file) skipped ->
  k <> description_file ->
  (forall k', unlink_outcome o k' = Unlinked) ->
  copy_back o k = Some e ->
  spared o save k = None ->
  exists save',
    restore_backup m o backup_choice {| save_entries := save; backups := Elsewhere root |}
    = (false, {| save_entries := save'; backups := Elsewhere root |})
    /\ lookup k save' = copy_back_leaves o k
    /\ forall k', k' <> k -> lookup k' save' = spared o save k'.
Proof.
  intros L nm Hp Hr Hsnap Hskip Hk Hun He Hfree.
  destruct (delete_phase_spared o save Hun) as [Hd1 Hd2].
  set (save1 := fst (delete_phase o (map fst save) save)) in *.
  assert (Hfree1 : lookup k save1 = None) by now rewrite Hd2.
  pose proof (copy_phase_first_fails o
                (count_files (Dir (skipped ++ (k, v) :: rest)))
                skipped rest k v e save1 Hskip Hk He Hfree1) as Hc.
  exists (put_left k (copy_back_leaves o k) save1). split; [|split].
  - unfold restore_backup. cbn [backup_root_of backups save_entries]. fold L.
    destruct L as [|b l] eqn:E; [cbn in Hr; lia|].
    destruct (Z.ltb_spec backup_choice 1); [lia|].
    destruct (Z.gtb_spec backup_choice (Z.of_nat (length (b :: l)))); [lia|].
    cbn [orb]. fold nm.
    destruct (delete_phase o (map fst save) save) as [s1 r1] eqn:Ed.
    cbn [snd] in Hd1. subst r1. cbn [fst] in save1. fold save1.
    now rewrite (listed_node_plain m), Hsnap, Hc.
  - unfold put_left. destruct (copy_back_leaves o k) as [w|];
      [apply lookup_put_eq|exact Hfree1].
  - intros k' Hk'. unfold put_left. destruct (copy_back_leaves o k) as [w|].
    + rewrite lookup_put_neq by assumption. apply Hd2.
    + apply Hd2.
Qed.

Lemma restore_failure_leaves_save_deleted_witness :
  exists save',
    restore_backup (example_manager 10) copy_back_fails 1 outside_world
    = (false, {| save_entries := save'; backups := backups outside_world |})
    /\ lookup "slot2.sav" save' = None.
Proof.
  destruct (restore_failure_leaves_save_deleted (example_manager 10) copy_back_fails 1
              (save_entries outside_world)
              [("backup_20250101_120000",
                Dir [("slot1.sav", File (encode "old"));
                     (".backup_description", File (encode "before boss"));
                     (".backup_meta.json", File (encode "{}"))])]
              []
              [(".backup_description", File (encode "before boss"));
               (".backup_meta.json", File (encode "{}"))]
              "slot1.sav" (File (encode "old")) (OSError None))
    as (save' & H1 & _ & H2).
  - vm_compute. reflexivity.
  - vm_compute. split; discriminate.
  - reflexivity.
  - constructor.
  - discriminate.
  - reflexivity.
  - reflexivity.
  - reflexivity.
  - exists save'. split; [exact H1|]. rewrite H2 by discriminate. reflexivity.
Defined.

(** ** Recovery of a populated leftover *)

Lemma all_chars_app (f : ascii -> bool) (a b : string) :
  all_chars f (a ++ b) = all_chars f a && all_chars f b.
Proof. induction a as [|c a IH]; [reflexivity|]. cbn. rewrite IH. apply andb_assoc. Qed.

Lemma digit_char_no_dot (d : nat) :
  d < 10 -> Ascii.eqb (digit_char d) "."%char = false.
Proof. intros H. do 10 (destruct d as [|d]; [reflexivity|]). lia. Qed.

Lemma fixed_width_no_dot (w : nat) :
  forall n, all_chars (fun c => negb (Ascii.eqb c "."%char)) (fixed_width w n) = true.
Proof.
  induction w as [|w IH]; intros n; [reflexivity|].
  cbn [fixed_width all_chars]. rewrite IH, digit_char_no_dot; [reflexivity|].
  apply Nat.mod_upper_bound. discriminate.
Qed.

Lemma backup_name_no_dot (t : datetime) :
  all_chars (fun c => negb (Ascii.eqb c "."%char)) (backup_name_at t) = true.
Proof.
  unfold backup_name_at, strftime. rewrite !all_chars_app, !fixed_width_no_dot.
  reflexivity.
Qed.

Lemma before_dot_app (a s : string) :
  all_chars (fun c => negb (Ascii.eqb c "."%char)) a = true ->
  before_dot (a ++ "." ++ s) = a.
Proof.
  induction a as [|c a IH]; intros H; [reflexivity|].
  cbn [all_chars] in H. apply andb_true_iff in H as [Hc Ha].
  cbn [append before_dot]. apply negb_true_iff in Hc. rewrite Hc. f_equal. now apply IH.
Qed.

Lemma final_base_of_staging (t : datetime) (suffix : string) :
  final_base_of (staging_name (backup_name_at t) suffix) = backup_name_at t.
Proof.
  unfold staging_name. cbn [append final_base_of].
  apply before_dot_app, backup_name_no_dot.
Qed.

Lemma recover_fold_skip {rt : Runtime} (m : manager) (o : oracle) (l : list string) :
  forall st, (forall k, In k l -> leftover_at k (fst st) = false) ->
             fold_left (recover_one m o) l st = st.
Proof.
  induction l as [|k l IH]; intros st H; [reflexivity|].
  cbn [fold_left]. rewrite recover_one_skip by (apply H; now left).
  apply IH. intros k' Hk'. apply H. now right.
Qed.

(** X28. A staging directory that holds files and was left behind by an
    interrupted backup is repaired by the recovery scan: when it is the
    only leftover, no snapshot has its final name, and the rename and the
    metadata write succeed, the scan publishes it under the snapshot name
    that its own name encodes, with its content and a metadata sidecar
    flagged as recovered and written in text mode; the snapshot is then
    listed and every other entry is as before. The backup path holds no
    wildcard of [glob]. *)
Theorem recovery_publishes_leftover {rt : Runtime} (m : manager) (o : oracle)
  (root : list dirent) (t : datetime) (suffix : string) (content : list dirent) :
  let nm := backup_name_at t in
  let tmp := staging_name nm suffix in
  plain_path m ->
  NoDup (map fst root) ->
  lookup tmp root = Some (Dir content) ->
  count_files (Dir content) <> 0 ->
  exists_in nm root = false ->
  (forall k, k <> tmp -> leftover_at k root = false) ->
  replace_outcome o tmp = None ->
  meta_outcome o nm = MetaWritten ->
  exists mt root',
    _recover_or_cleanup_tmp_dirs m o root
    = (root', [FoundLeftover tmp; ReplaceCalled tmp nm; RecoveredBackup nm])
    /\ lookup nm root' = Some (Dir (put_entry meta_file (File (text_mode m (json_dumps mt))) content))
    /\ lookup tmp root' = None
    /\ (forall k, k <> tmp -> k <> nm -> lookup k root' = lookup k root)
    /\ In nm (_get_backup_list m root')
    /\ recovered mt = true
    /\ meta_move_method mt = recovered_atomic
    /\ checksum mt = compute_directory_sha256 (os_sep m) (access o) (Dir content)
    /\ files mt = count_files (Dir content).
Proof.
  intros nm tmp Hp Hnd Hl Hcount Hfin Honly Hrep Hmeta.
  assert (Hne : tmp <> nm) by apply staging_name_not_final.
  assert (Hbase : final_base_of tmp = nm) by apply final_base_of_staging.
  assert (Hst : startswith ".backup_" tmp = true) by reflexivity.
  assert (Hren : lookup nm (rename_entry tmp nm root) = Some (Dir content)).
  { rewrite <- (remove_entry_absent nm root Hfin) at 1.
    rewrite (rename_lookup tmp nm nm (Dir content) root Hl Hne).
    now rewrite String.eqb_refl. }
  destruct (write_metadata_written m o nm recovered_atomic None true
              (FailedToWriteRecoveredMetadata nm) (rename_entry tmp nm root) content
              Hren Hmeta) as (mt & Hw & Hmethod & _ & Hrec & Hsum & Hfiles & _).
  set (root1 := put_entry nm (Dir (put_entry meta_file (File (text_mode m (json_dumps mt))) content))
                  (rename_entry tmp nm root)) in *.
  assert (Hstep : recover_one m o (root, []) tmp
                  = (root1, [FoundLeftover tmp; ReplaceCalled tmp nm; RecoveredBackup nm])).
  { unfold recover_one. cbn [fst snd]. rewrite Hl, Hst. cbn [negb].
    destruct (Nat.eqb_spec (count_files (Dir content)) 0); [contradiction|].
    rewrite Hbase, Hfin, Hrep, Hw. reflexivity. }
  assert (Hother : forall k, k <> tmp -> k <> nm -> lookup k root1 = lookup k root).
  { intros k H1 H2. unfold root1. rewrite lookup_put_neq by assumption.
    now apply (rename_lookup_other tmp nm k (Dir content)). }
  assert (Htmp : lookup tmp root1 = None).
  { unfold root1. rewrite lookup_put_neq by assumption.
    rewrite <- (remove_entry_absent nm root Hfin) at 1.
    rewrite (rename_lookup tmp nm tmp (Dir content) root Hl Hne).
    destruct (String.eqb_spec tmp nm); [contradiction|]. now rewrite String.eqb_refl. }
  assert (Hnm : lookup nm root1 = Some (Dir (put_entry meta_file (File (text_mode m (json_dumps mt)))
                                               content))) by apply lookup_put_eq.
  exists mt, root1. split; [|repeat split; try assumption].
  - unfold _recover_or_cleanup_tmp_dirs.
    destruct (in_split tmp (map fst root) (lookup_Some_names _ _ _ Hl)) as (l1 & l2 & Hs).
    rewrite Hs, fold_left_app. cbn [fold_left].
    rewrite (recover_fold_skip m o l1).
    + rewrite Hstep. apply recover_fold_nothing_left. cbn [fst]. intros k.
      destruct (String.eqb_spec k tmp) as [->|Hk1].
      { unfold leftover_at. now rewrite Htmp. }
      destruct (String.eqb_spec k nm) as [->|Hk2].
      { unfold leftover_at. rewrite Hnm. reflexivity. }
      rewrite (leftover_at_lookup k root1 root) by now apply Hother.
      now apply Honly.
    + cbn [fst]. intros k Hk. apply Honly. intros ->.
      rewrite Hs in Hnd. apply NoDup_remove_2 in Hnd. apply Hnd.
      apply in_or_app. now left.
  - apply (get_backup_list_visible m). split.
    + eapply lookup_Some_names. exact Hnm.
    + apply backup_name_visible.
Qed.

Lemma recovery_publishes_leftover_witness :
  exists root',
    _recover_or_cleanup_tmp_dirs (rt := stand_in_runtime) (example_manager 5)
      (calm_oracle (at_noon 30)) crashed_root
    = (root', [FoundLeftover ".backup_20250101_120000.k3x9q2ab";
               ReplaceCalled ".backup_20250101_120000.k3x9q2ab" "backup_20250101_120000";
               RecoveredBackup "backup_20250101_120000"])
    /\ In "backup_20250101_120000" (_get_backup_list (example_manager 5) root').
Proof.
  destruct (recovery_publishes_leftover (rt := stand_in_runtime) (example_manager 5)
              (calm_oracle (at_noon 30)) crashed_root (at_noon 0) "k3x9q2ab"
              [("a.txt", File (encode "abc"))])
    as (mt & root' & H1 & _ & _ & _ & H5 & _).
  - vm_compute. reflexivity.
  - repeat constructor; simpl; intuition discriminate.
  - reflexivity.
  - vm_compute. discriminate.
  - reflexivity.
  - intros k Hk. unfold leftover_at, crashed_root. cbn [lookup].
    destruct (String.eqb_spec "backup_20241231_090000" k) as [<-|_]; [reflexivity|].
    destruct (String.eqb_spec ".backup_20250101_120000.k3x9q2ab" k) as [<-|_];
      [now destruct Hk|reflexivity].
  - reflexivity.
  - reflexivity.
  - exists root'. split; [exact H1|exact H5].
Defined.
